(** * The Arch: credential vault, authenticated cipher and transactional store

    A shallow embedding of [auth.py], [crypto.py] and [vault_core.py].

    Conventions of the embedding.
    - Python [bytes] are [list byte]; Python [str] is [string]; [s.encode()]
      is [encode s].  [base64.b64encode]/[b64decode], which the code only uses
      to store binary values as JSON text, are the identity: a configuration
      field holds the bytes themselves.
    - [time.time()] is a rational number of seconds.
    - Exceptions are values of [exn]; a computation that can raise returns a
      [result].  Randomness ([secrets], [Fernet.generate_key], IVs, salts) is
      an explicit argument.
    - The third-party libraries ([cryptography], [bcrypt], [hashlib], [json])
      are the operations of the classes [CryptoLib] and [JsonLib]; what a
      theorem needs of them is a named hypothesis of that theorem, and
      [RefLib] is a reference implementation that satisfies all of them. *)

From Stdlib Require Import ZArith QArith Qround Lqa Lia List String Ascii.
From Stdlib Require Import Strings.Byte.
From stdpp Require Import base option list sorting gmap strings pretty.

Open Scope Z_scope.

(** ** Bytes, text and time *)

Abbreviation bytes := (list byte).

#[global] Instance byte_eq_dec : EqDecision byte := Byte.byte_eq_dec.

Definition encode (s : string) : bytes := list_byte_of_string s.

(** [secrets.token_bytes(n)]: exactly [n] bytes taken from the entropy [e]. *)
Definition token_bytes (n : nat) (e : bytes) : bytes :=
  take n (e ++ replicate n x00).

Definition ascii_lower (c : ascii) : ascii :=
  let n := N_of_ascii c in
  if ((65 <=? n) && (n <=? 90))%N then ascii_of_N (n + 32) else c.

(** [str.lower()] on the ASCII letters (other characters are kept). *)
Fixpoint str_lower (s : string) : string :=
  match s with
  | EmptyString => EmptyString
  | String c r => String (ascii_lower c) (str_lower r)
  end.

(** [needle in haystack] for bytes. *)
Fixpoint is_prefix_of (p l : bytes) : bool :=
  match p, l with
  | [], _ => true
  | _ :: _, [] => false
  | a :: p', b :: l' => bool_decide (a = b) && is_prefix_of p' l'
  end.

Fixpoint contains (needle hay : bytes) : bool :=
  is_prefix_of needle hay ||
  match hay with
  | [] => false
  | _ :: hay' => contains needle hay'
  end.

Definition Qltb (a b : Q) : bool := negb (Qle_bool b a).

(** [int(x)] of a float: truncation towards zero. *)
Definition Qtrunc (x : Q) : Z := Z.quot (Qnum x) (Z.pos (Qden x)).

(** [min(l)] of a non-empty list [a :: l]. *)
Definition list_min (a : Q) (l : list Q) : Q :=
  fold_left (fun m t => if Qltb t m then t else m) l a.

(** ** Exceptions and results *)

Inductive exn : Type :=
| ValueError (msg : string)
| KeyError (key : string)
| TypeError
| RuntimeError (msg : string)
| PermissionError (msg : string)
| LockedOut (remaining_time : Z)   (* PermissionError: recovery is locked, retry in [remaining_time] seconds *)
| InvalidToken                     (* cryptography.fernet.InvalidToken(Exception) *)
| SecurityError                    (* crypto.SecurityError(Exception) *)
| FileNotFoundError (path : string)
| AttributeError (name : string)
| UnsupportedOperation             (* io.UnsupportedOperation(OSError, ValueError) *)
| JSONDecodeError                  (* json.JSONDecodeError(ValueError) *)
| UnicodeDecodeError               (* UnicodeDecodeError(ValueError) *)
| OverflowError
| TransactionError (cause : exn).

(** [isinstance(e, ValueError)]. *)
Definition is_ValueError (e : exn) : bool :=
  match e with
  | ValueError _ | UnsupportedOperation | JSONDecodeError | UnicodeDecodeError => true
  | _ => false
  end.

Definition is_KeyError (e : exn) : bool :=
  match e with KeyError _ => true | _ => false end.

Definition is_PermissionError (e : exn) : bool :=
  match e with PermissionError _ | LockedOut _ => true | _ => false end.

Inductive result (A : Type) : Type :=
| Ok (a : A)
| Raise (e : exn).
Arguments Ok {A} a.
Arguments Raise {A} e.

#[global] Instance result_ret : MRet result := fun A a => Ok a.
#[global] Instance result_bind : MBind result := fun A B f m =>
  match m with
  | Ok a => f a
  | Raise e => Raise e
  end.

Definition is_Ok {A} (r : result A) : bool :=
  match r with Ok _ => true | Raise _ => false end.

(** [d[key]] on a field that may be absent. *)
Definition getitem {A} (key : string) (field : option A) : result A :=
  match field with
  | Some v => Ok v
  | None => Raise (KeyError key)
  end.

(** ** The third-party cryptographic libraries *)

Inductive hash_algorithm := SHA256 | SHA512.

Class CryptoLib := {
  (** [Fernet(key)] accepts [key] (32 url-safe base64-encoded bytes). *)
  Fernet_key_ok : bytes -> bool;
  (** [Fernet.generate_key()], from 32 bytes of entropy. *)
  Fernet_generate_key : bytes -> bytes;
  (** [Fernet(key).encrypt(data)]; the second argument is the IV and timestamp. *)
  Fernet_encrypt : bytes -> bytes -> bytes -> bytes;
  (** [Fernet(key).decrypt(token)]; [None] is [InvalidToken]. *)
  Fernet_decrypt : bytes -> bytes -> option bytes;
  (** [PBKDF2HMAC(algorithm, length, salt, iterations).derive(key_material)]. *)
  PBKDF2HMAC : hash_algorithm -> nat -> bytes -> Z -> bytes -> bytes;
  urlsafe_b64encode : bytes -> bytes;
  sha384 : bytes -> bytes;
  sha256 : bytes -> bytes;
  (** [bcrypt.hashpw(password, salt)] with [salt] from [bcrypt.gensalt()]. *)
  bcrypt_hashpw : bytes -> bytes -> bytes;
  (** [bcrypt.checkpw(password, hashed)]; a malformed hash is [false]. *)
  bcrypt_checkpw : bytes -> bytes -> bool;
}.

(** Length of the Fernet token of an [n]-byte plaintext: the url-safe base64
    text of version (1) + timestamp (8) + IV (16) + AES-CBC/PKCS7 ciphertext
    (16 * (n / 16 + 1)) + HMAC (32). *)
Definition fernet_token_len (n : Z) : Z := 4 * ((73 + 16 * (n / 16) + 2) / 3).

Section LibraryContracts.
Context (L : CryptoLib).

Definition Fernet_correct : Prop :=
  forall k r p, Fernet_key_ok k = true ->
    Fernet_decrypt k (Fernet_encrypt k r p) = Some p.

Definition Fernet_keys_ok : Prop :=
  (forall r, Fernet_key_ok (Fernet_generate_key r) = true) /\
  (forall alg salt it s,
      Fernet_key_ok (urlsafe_b64encode (PBKDF2HMAC alg 32 salt it s)) = true).

(** A key is the url-safe base64 text of 32 bytes: 44 characters. *)
Definition Fernet_key_length : Prop :=
  forall k, Fernet_key_ok k = true -> length k = 44%nat.

Definition Fernet_framing : Prop :=
  forall k r p, Fernet_key_ok k = true ->
    Z.of_nat (length (Fernet_encrypt k r p)) = fernet_token_len (Z.of_nat (length p)).

(** Ciphertext integrity, for truncation: a proper prefix of a token is
    rejected under every key. *)
Definition Fernet_rejects_truncation : Prop :=
  forall k k' r p (n : nat), Fernet_key_ok k = true ->
    (n < length (Fernet_encrypt k r p))%nat ->
    Fernet_decrypt k' (take n (Fernet_encrypt k r p)) = None.

Definition bcrypt_complete : Prop :=
  forall p s, bcrypt_checkpw p (bcrypt_hashpw p s) = true.

(** Idealised bcrypt: a hash accepts no other password. *)
Definition bcrypt_binding : Prop :=
  forall p p' s, bcrypt_checkpw p' (bcrypt_hashpw p s) = true -> p' = p.
End LibraryContracts.

Section FernetWrappers.
Context `{L : CryptoLib}.

(** [Fernet(key)]: the constructor raises [ValueError] on a bad key. *)
Definition Fernet (key : bytes) : result bytes :=
  if Fernet_key_ok key then Ok key
  else Raise (ValueError "Fernet key must be 32 url-safe base64-encoded bytes").

(** [Fernet(key).encrypt(data)] *)
Definition fernet_encrypt (key r data : bytes) : result bytes :=
  f ← Fernet key; mret (Fernet_encrypt f r data).

(** [f.decrypt(token)] for [f = Fernet(key)] *)
Definition Fernet_decrypt_or_raise (f token : bytes) : result bytes :=
  match Fernet_decrypt f token with
  | Some p => Ok p
  | None => Raise InvalidToken
  end.

(** [Fernet(key).decrypt(token)] *)
Definition fernet_decrypt (key token : bytes) : result bytes :=
  f ← Fernet key; Fernet_decrypt_or_raise f token.
End FernetWrappers.

(** ** auth.py: RecoveryProtection *)

Module RecoveryProtection.

Definition max_attempts : nat := 3.
Definition lockout_time : Q := 600.

(** [recent_attempts = [t for t in attempts if time.time() - t < self.lockout_time]] *)
Definition recent_attempts (now : Q) (attempts : list Q) : list Q :=
  List.filter (fun t => Qltb (now - t) lockout_time) attempts.

(** [self.failed_attempts[user_id][-self.max_attempts:]] *)
Definition last_attempts (l : list Q) : list Q :=
  drop (length l - max_attempts) l.

Definition record_attempt (failed_attempts : gmap string (list Q))
    (user_id : string) (now : Q) : gmap string (list Q) :=
  let l := default [] (failed_attempts !! user_id) ++ [now] in
  if bool_decide (max_attempts * 2 < length l)%nat
  then <[user_id := last_attempts l]> failed_attempts
  else <[user_id := l]> failed_attempts.

Definition is_locked_out (failed_attempts : gmap string (list Q))
    (user_id : string) (now : Q) : bool :=
  match failed_attempts !! user_id with
  | None => false
  | Some attempts =>
      bool_decide (max_attempts <= length (recent_attempts now attempts))%nat
  end.

Definition get_remaining_time (failed_attempts : gmap string (list Q))
    (user_id : string) (now : Q) : Z :=
  match failed_attempts !! user_id with
  | None => 0
  | Some [] => 0
  | Some (a :: l) =>
      let oldest_recent_attempt := list_min a l in
      let elapsed := (now - oldest_recent_attempt)%Q in
      let remaining := (lockout_time - elapsed)%Q in
      Z.max 0 (Qtrunc remaining)
  end.

Definition clear_attempts (failed_attempts : gmap string (list Q))
    (user_id : string) : gmap string (list Q) :=
  delete user_id failed_attempts.

End RecoveryProtection.

(** ** auth.py: SecureAuthManager *)

Record recovery_entry := {
  question : string;
  answer_hash : bytes;
  salt : bytes;
}.

(** [self.config]: the keys the code reads and writes, each possibly absent. *)
Record config := {
  master_password_hash : option bytes;
  encrypted_master_key : option bytes;
  encrypted_recovery_key : option bytes;
  encrypted_master_password_encoder : option bytes;
  encrypted_recovery_encoder : option bytes;
  created_at : option string;
  password_hint : option string;
  recovery_questions : option (list recovery_entry);
  security_version : option string;
  user_id : option string;
  last_password_change : option string;
  recovery_setup_date : option string;
}.

Definition empty_config : config :=
  {| master_password_hash := None; encrypted_master_key := None;
     encrypted_recovery_key := None; encrypted_master_password_encoder := None;
     encrypted_recovery_encoder := None; created_at := None; password_hint := None;
     recovery_questions := None; security_version := None; user_id := None;
     last_password_change := None; recovery_setup_date := None |}.

(** Entropy consumed by [_encrypt_with_password] / [_encrypt_with_questions]. *)
Record wrap_entropy := { w_salt : bytes; w_iv : bytes }.

(** Entropy consumed per recovery answer: [secrets.token_bytes(16)], [bcrypt.gensalt()]. *)
Record answer_entropy := { a_salt : bytes; a_gensalt : bytes }.

Record create_entropy := {
  e_master_key : bytes;
  e_master_password_encoder_key : bytes;
  e_recovery_encoder_key : bytes;
  e_iv_master : bytes;
  e_iv_recovery : bytes;
  e_password_wrap : wrap_entropy;
  e_questions_wrap : wrap_entropy;
  e_gensalt : bytes;
  e_answers : nat -> answer_entropy;
  e_user_id : string;
}.

Record change_entropy := {
  c_encoder_key : bytes;
  c_iv : bytes;
  c_wrap : wrap_entropy;
  c_gensalt : bytes;
}.

Record questions_entropy := {
  q_encoder_key : bytes;
  q_iv : bytes;
  q_wrap : wrap_entropy;
  q_answers : nat -> answer_entropy;
}.

Definition NO_RECOVERY_SETUP : bytes := encode "NO_RECOVERY_SETUP".

(** *** Password strength *)

Definition in_range (lo hi : N) (c : ascii) : bool :=
  let n := N_of_ascii c in ((lo <=? n) && (n <=? hi))%N.

Definition is_upper : ascii -> bool := in_range 65 90.
Definition is_lower : ascii -> bool := in_range 97 122.
Definition is_digit : ascii -> bool := in_range 48 57.

(** The character class of the [special] check: the double quote (code 34)
    and the punctuation below. *)
Definition special_chars : list ascii :=
  ascii_of_nat 34 :: list_ascii_of_string "!@#$%^&*(),.?:{}|<>".

Definition is_special (c : ascii) : bool := existsb (Ascii.eqb c) special_chars.

Definition is_alnum (c : ascii) : bool := is_upper c || is_lower c || is_digit c.

Definition re_search (cls : ascii -> bool) (s : string) : bool :=
  existsb cls (list_ascii_of_string s).

(** [re.search(r'(.)\1{3,}', s)]: some character other than a newline four times in a row. *)
Fixpoint has_run4 (l : list ascii) : bool :=
  match l with
  | a :: ((b :: c :: d :: _) as r) =>
      (negb (Ascii.eqb a (ascii_of_nat 10)) && Ascii.eqb a b && Ascii.eqb a c && Ascii.eqb a d)
      || has_run4 r
  | _ => false
  end.

Definition common_patterns : list string :=
  ["12345678"; "password"; "qwerty"; "admin"; "welcome"]%string.

Definition sequences : list string :=
  ["0123"; "1234"; "2345"; "3456"; "4567"; "5678"; "6789"; "7890"]%string.

Definition _check_common_patterns (password : string) : bool :=
  let password_lower := str_lower password in
  negb (existsb (fun p => contains (encode p) (encode password_lower)) common_patterns
        || has_run4 (list_ascii_of_string password_lower)
        || existsb (fun p => contains (encode p) (encode password_lower)) sequences).

(** [re.match(r'^[A-Za-z0-9...]+$', s)]: one or more characters of the class;
    [$] also matches before one final newline. *)
Definition latin_only (s : string) : bool :=
  let l := list_ascii_of_string s in
  let body :=
    match reverse l with
    | c :: r => if Ascii.eqb c (ascii_of_nat 10) then reverse r else l
    | [] => l
    end in
  negb (bool_decide (body = [])) && forallb (fun c => is_alnum c || is_special c) body.

(** [int.bit_length()]. *)
Definition bit_length (n : Z) : Z := if n =? 0 then 0 else Z.log2 n + 1.

(** Ten times the value of [_calculate_password_entropy]. *)
Definition _calculate_password_entropy_x10 (password : string) : Z :=
  let char_sets :=
    (if re_search is_lower password then 26 else 0) +
    (if re_search is_upper password then 26 else 0) +
    (if re_search is_digit password then 10 else 0) +
    (if re_search (fun c => negb (is_alnum c)) password then 32 else 0) in
  Z.of_nat (String.length password) * (if 0 <? char_sets then bit_length char_sets else 1).

(** [_validate_password_strength]: [None] when valid, else the message. *)
Definition _validate_password_strength (password : string) : option string :=
  if (String.length password <? 12)%nat then Some "at least 12 characters"%string
  else if _calculate_password_entropy_x10 password <? 35 then Some "not complex enough"%string
  else if negb (re_search is_upper password) then Some "needs an upper-case letter"%string
  else if negb (re_search is_lower password) then Some "needs a lower-case letter"%string
  else if negb (re_search is_digit password) then Some "needs a digit"%string
  else if negb (re_search is_special password) then Some "needs a special character"%string
  else if negb (latin_only password)
       then Some "latin letters, digits and special characters only"%string
  else if negb (_check_common_patterns password) then Some "too simple"%string
  else None.

(** The outcome of a rate-limited call: its result, the lockout table it
    leaves, and the time at which it returns. *)
Record outcome (A : Type) := {
  returned : result A;
  attempts_after : gmap string (list Q);
  finished_at : Q;
}.
Arguments returned {A} o.
Arguments attempts_after {A} o.
Arguments finished_at {A} o.

Section SecureAuthManager.
Context `{L : CryptoLib}.

Definition _kdf_iterations : Z := 300000.

Definition _derive_key_from_password (password : string) (salt : bytes) : bytes :=
  urlsafe_b64encode (PBKDF2HMAC SHA256 32 salt _kdf_iterations (encode password)).

Definition _derive_strong_recovery_key (answers_string : string) (salt : bytes) : bytes :=
  let answers_hash := sha384 (encode answers_string) in
  urlsafe_b64encode (PBKDF2HMAC SHA512 32 salt _kdf_iterations answers_hash).

Definition _encrypt_with_password (data : bytes) (password : string) (e : wrap_entropy)
  : result bytes :=
  let salt := token_bytes 32 (w_salt e) in
  let key := _derive_key_from_password password salt in
  encrypted_data ← fernet_encrypt key (w_iv e) data;
  mret (salt ++ encrypted_data).

Definition _encrypt_with_questions (data : bytes) (recovery_questions : list (string * string))
    (e : wrap_entropy) : result bytes :=
  match recovery_questions with
  | [] => mret (token_bytes 32 (w_salt e) ++ NO_RECOVERY_SETUP)
  | _ =>
      let answers_string := String.concat "" (map snd recovery_questions) in
      let master_salt := token_bytes 32 (w_salt e) in
      let derived_key := _derive_strong_recovery_key answers_string master_salt in
      encrypted_data ← fernet_encrypt derived_key (w_iv e) data;
      mret (master_salt ++ encrypted_data)
  end.

(** The loop that salts and hashes each recovery answer (in
    [create_master_password] and [setup_recovery_questions]). *)
Fixpoint hash_recovery_answers (i : nat) (ea : nat -> answer_entropy)
    (recovery_questions : list (string * string)) : list recovery_entry :=
  match recovery_questions with
  | [] => []
  | (q, answer) :: rest =>
      let answer_salt := token_bytes 16 (a_salt (ea i)) in
      let answer_with_salt := encode answer ++ answer_salt in
      {| question := q;
         answer_hash := bcrypt_hashpw answer_with_salt (a_gensalt (ea i));
         salt := answer_salt |} :: hash_recovery_answers (S i) ea rest
  end.

Definition is_first_run (cfg : config) : bool :=
  match master_password_hash cfg with None => true | Some _ => false end.

(** Returns the master key and the new [self.config]. *)
Definition create_master_password (password password_hint : string)
    (recovery_questions : list (string * string)) (e : create_entropy) (timestamp : string)
  : result (bytes * config) :=
  match _validate_password_strength password with
  | Some message => Raise (ValueError message)
  | None =>
      let master_key := Fernet_generate_key (e_master_key e) in
      let master_password_encoder_key := Fernet_generate_key (e_master_password_encoder_key e) in
      let recovery_encoder_key := Fernet_generate_key (e_recovery_encoder_key e) in
      enc_master_key ← fernet_encrypt master_password_encoder_key (e_iv_master e) master_key;
      enc_recovery_key ← fernet_encrypt recovery_encoder_key (e_iv_recovery e) master_key;
      enc_master_password_encoder ←
        _encrypt_with_password master_password_encoder_key password (e_password_wrap e);
      enc_recovery_encoder ←
        _encrypt_with_questions recovery_encoder_key recovery_questions (e_questions_wrap e);
      let password_hash := bcrypt_hashpw (encode password) (e_gensalt e) in
      let encrypted_recovery_answers := hash_recovery_answers 0 (e_answers e) recovery_questions in
      mret (master_key,
            {| master_password_hash := Some password_hash;
               encrypted_master_key := Some enc_master_key;
               encrypted_recovery_key := Some enc_recovery_key;
               encrypted_master_password_encoder := Some enc_master_password_encoder;
               encrypted_recovery_encoder := Some enc_recovery_encoder;
               created_at := Some timestamp;
               password_hint := Some password_hint;
               recovery_questions := Some encrypted_recovery_answers;
               security_version := Some "2.0"%string;
               user_id := Some (e_user_id e);
               last_password_change := None;
               recovery_setup_date := None |})
  end.

Definition verify_master_password (cfg : config) (password : string) : result bool :=
  match master_password_hash cfg with
  | None => Raise (RuntimeError "create the master password first")
  | Some stored_hash => mret (bcrypt_checkpw (encode password) stored_hash)
  end.

(** The [try] block of [get_master_key]. *)
Definition get_master_key_body (cfg : config) (password : string) : result bytes :=
  encrypted_master_password_encoder ←
    getitem "encrypted_master_password_encoder" (encrypted_master_password_encoder cfg);
  let salt := take 32 encrypted_master_password_encoder in
  let encrypted_data := drop 32 encrypted_master_password_encoder in
  let key := _derive_key_from_password password salt in
  master_password_encoder_key ← fernet_decrypt key encrypted_data;
  encrypted_master_key ← getitem "encrypted_master_key" (encrypted_master_key cfg);
  fernet_decrypt master_password_encoder_key encrypted_master_key.

Definition get_master_key (cfg : config) (password : string) : result bytes :=
  ok ← verify_master_password cfg password;
  if negb ok then Raise (ValueError "wrong master password")
  else
    match get_master_key_body cfg password with
    | Ok master_key => Ok master_key
    | Raise _ => Raise (ValueError "wrong password or corrupted data")
    end.

Definition change_master_password (cfg : config) (old_password new_password : string)
    (new_password_hint : string) (e : change_entropy) (timestamp : string)
  : result (bytes * config) :=
  master_key ← get_master_key cfg old_password;
  let new_master_password_encoder_key := Fernet_generate_key (c_encoder_key e) in
  new_encrypted_master_key ←
    fernet_encrypt new_master_password_encoder_key (c_iv e) master_key;
  encrypted_new_master_password_encoder ←
    _encrypt_with_password new_master_password_encoder_key new_password (c_wrap e);
  let new_password_hash := bcrypt_hashpw (encode new_password) (c_gensalt e) in
  mret (master_key,
        {| master_password_hash := Some new_password_hash;
           encrypted_master_key := Some new_encrypted_master_key;
           encrypted_recovery_key := encrypted_recovery_key cfg;
           encrypted_master_password_encoder := Some encrypted_new_master_password_encoder;
           encrypted_recovery_encoder := encrypted_recovery_encoder cfg;
           created_at := created_at cfg;
           password_hint := Some new_password_hint;
           recovery_questions := recovery_questions cfg;
           security_version := security_version cfg;
           user_id := user_id cfg;
           last_password_change := Some timestamp;
           recovery_setup_date := recovery_setup_date cfg |}).

Definition setup_recovery_questions (cfg : config) (password : string)
    (recovery_questions : list (string * string)) (e : questions_entropy) (timestamp : string)
  : result config :=
  master_key ← get_master_key cfg password;
  let new_recovery_encoder_key := Fernet_generate_key (q_encoder_key e) in
  new_encrypted_recovery_key ← fernet_encrypt new_recovery_encoder_key (q_iv e) master_key;
  encrypted_new_recovery_encoder ←
    _encrypt_with_questions new_recovery_encoder_key recovery_questions (q_wrap e);
  let encrypted_recovery_answers := hash_recovery_answers 0 (q_answers e) recovery_questions in
  mret {| master_password_hash := master_password_hash cfg;
          encrypted_master_key := encrypted_master_key cfg;
          encrypted_recovery_key := Some new_encrypted_recovery_key;
          encrypted_master_password_encoder := encrypted_master_password_encoder cfg;
          encrypted_recovery_encoder := Some encrypted_new_recovery_encoder;
          created_at := created_at cfg;
          password_hint := password_hint cfg;
          recovery_questions := Some encrypted_recovery_answers;
          security_version := security_version cfg;
          user_id := user_id cfg;
          last_password_change := last_password_change cfg;
          recovery_setup_date := Some timestamp |}.

(** The [try] block of [recover_master_key] up to the first point where it
    can leave: [inl] when the recovery path is not configured (the block
    records an attempt and raises), [inr] the result of the unwrap otherwise. *)
Definition recover_master_key_body (cfg : config) (answers : list string)
  : result (unit + bytes) :=
  encrypted_recovery_encoder ←
    getitem "encrypted_recovery_encoder" (encrypted_recovery_encoder cfg);
  if contains NO_RECOVERY_SETUP encrypted_recovery_encoder then mret (inl tt)
  else
    let salt := take 32 encrypted_recovery_encoder in
    let encrypted_data := drop 32 encrypted_recovery_encoder in
    let answers_string := String.concat "" answers in
    let key := _derive_strong_recovery_key answers_string salt in
    recovery_encoder_key ← fernet_decrypt key encrypted_data;
    encrypted_recovery_key ← getitem "encrypted_recovery_key" (encrypted_recovery_key cfg);
    master_key ← fernet_decrypt recovery_encoder_key encrypted_recovery_key;
    mret (inr master_key).

(** [time.sleep(floor - elapsed)] when [elapsed < floor]: the time at which
    the caller continues. *)
Definition sleep_until_floor (start_time now floor : Q) : Q :=
  let elapsed_time := (now - start_time)%Q in
  if Qltb elapsed_time floor then (now + (floor - elapsed_time))%Q else now.

Definition bad_answers : exn :=
  ValueError "wrong answers to the questions or recovery is not configured".

(** [recover_master_key] called at time [now]; the [try] block takes [work]
    seconds (key derivation and decryption), every other step is instantaneous. *)
Definition recover_master_key (cfg : config) (failed_attempts : gmap string (list Q))
    (answers : list string) (now work : Q) : outcome bytes :=
  let user_id := default "default"%string (user_id cfg) in
  if RecoveryProtection.is_locked_out failed_attempts user_id now then
    let remaining_time := RecoveryProtection.get_remaining_time failed_attempts user_id now in
    {| returned := Raise (LockedOut remaining_time);
       attempts_after := failed_attempts; finished_at := now |}
  else
    let start_time := now in
    match recover_master_key_body cfg answers with
    | Ok (inr master_key) =>
        {| returned := Ok master_key;
           attempts_after := RecoveryProtection.clear_attempts failed_attempts user_id;
           finished_at := (now + work)%Q |}
    | Ok (inl tt) =>
        (* not configured: one attempt recorded in the branch, one in the handler *)
        let fa1 := RecoveryProtection.record_attempt failed_attempts user_id now in
        let fa2 := RecoveryProtection.record_attempt fa1 user_id (now + work) in
        {| returned := Raise bad_answers; attempts_after := fa2;
           finished_at := sleep_until_floor start_time (now + work) 1 |}
    | Raise _ =>
        let fa1 := RecoveryProtection.record_attempt failed_attempts user_id (now + work) in
        {| returned := Raise bad_answers; attempts_after := fa1;
           finished_at := sleep_until_floor start_time (now + work) 1 |}
    end.

(** The [for] loop of [verify_recovery_answers]. *)
Fixpoint check_answers (answers : list (string * string)) (stored : list recovery_entry) : bool :=
  match answers, stored with
  | (_, answer) :: answers', stored_data :: stored' =>
      let answer_with_salt := encode (str_lower answer) ++ salt stored_data in
      if bcrypt_checkpw answer_with_salt (answer_hash stored_data)
      then check_answers answers' stored'
      else false
  | [], _ => true
  | _ :: _, [] => false
  end.

Definition verify_recovery_answers (cfg : config) (failed_attempts : gmap string (list Q))
    (answers : list (string * string)) (now work : Q) : outcome bool :=
  let stored_questions := default [] (recovery_questions cfg) in
  if negb (length answers =? length stored_questions)%nat then
    {| returned := Ok false; attempts_after := failed_attempts; finished_at := now |}
  else
    let user_id := default "default"%string (user_id cfg) in
    if RecoveryProtection.is_locked_out failed_attempts user_id now then
      {| returned := Ok false; attempts_after := failed_attempts; finished_at := now |}
    else
      let start_time := now in
      let result := check_answers answers stored_questions in
      let fa :=
        if result then failed_attempts
        else RecoveryProtection.record_attempt failed_attempts user_id (now + work) in
      {| returned := Ok result; attempts_after := fa;
         finished_at := sleep_until_floor start_time (now + work) (1 # 2) |}.

End SecureAuthManager.

(** ** The lockout state machine

    The calls that reach a [RecoveryProtection] object, as a trace. *)

Inductive lockout_event :=
| Record_attempt (user_id : string) (now : Q)
| Clear_attempts (user_id : string).

Definition lockout_step (failed_attempts : gmap string (list Q)) (ev : lockout_event)
  : gmap string (list Q) :=
  match ev with
  | Record_attempt user_id now => RecoveryProtection.record_attempt failed_attempts user_id now
  | Clear_attempts user_id => RecoveryProtection.clear_attempts failed_attempts user_id
  end.

(** The table after a trace, from the empty table of [__init__]. *)
Definition lockout_run (trace : list lockout_event) : gmap string (list Q) :=
  fold_left lockout_step trace ∅.

(** Every attempt recorded for [user_id] since its history was last cleared
    (what the table would hold if it were never truncated). *)
Definition recorded_step (user_id : string) (h : list Q) (ev : lockout_event) : list Q :=
  match ev with
  | Record_attempt u now => if bool_decide (u = user_id) then h ++ [now] else h
  | Clear_attempts u => if bool_decide (u = user_id) then [] else h
  end.

Definition recorded_attempts (user_id : string) (trace : list lockout_event) : list Q :=
  fold_left (recorded_step user_id) trace [].

(** The clock readings of a trace, in order. *)
Definition stamps (trace : list lockout_event) : list Q :=
  omap (fun ev => match ev with Record_attempt _ now => Some now | Clear_attempts _ => None end) trace.


(** ** The world the store acts on *)

(** A regular file: what [open(path, 'rb').read()] returns and [os.path.getmtime]. *)
Record file := { content : bytes; mtime : Q }.

(** [crypto.SecureKeyContainer]: the key (behind a [SecureString]) and its use count. *)
Record SecureKeyContainer := {
  _secure_key : option bytes;
  _key_usage_count : nat;
}.

Definition _max_usage_before_rekey : nat := 100.

(** [crypto.SecureCryptoManager]. *)
Record SecureCryptoManager := {
  _master_key_container : SecureKeyContainer;
  _active_keys : gmap string SecureKeyContainer;
}.

(** A [FileNode] of [self.filesystem['files']]. *)
Record file_node := {
  node_id : string;
  original_name : string;
  encrypted_name : string;
  vault_filename : string;
  folder_id : string;
  file_size : Z;
  added_at : string;
  file_type : string;
  hash : option bytes;
}.

(** A [FolderNode] of [self.filesystem['folders']] (the keys this module reads or writes). *)
Record folder_node := {
  folder_node_id : string;
  name : string;
  folder_encrypted_name : string;
  parent : option string;
  children : list string;
  folder_created_at : string;
  is_locked : bool;
}.

(** The dictionary [self.filesystem]; a key may be absent. *)
Record tree := {
  files : option (gmap string file_node);
  folders : option (gmap string folder_node);
  version : option string;
  tree_created_at : option string;
}.

(** The record [_save_filesystem] seals: the tree bytes, their SHA-256, a
    timestamp and the format version. *)
Record payload := {
  p_data : bytes;
  p_checksum : bytes;
  p_timestamp : string;
  p_version : string;
}.

(** The JSON values the code tells apart: a tree dictionary, the dictionary
    of a sealed record, or any other value (taken to be no dictionary).  The
    functions that update [self.filesystem] in place are modelled on trees;
    on another value they raise [TypeError]. *)
Inductive document :=
| Doc_tree (t : tree)
| Doc_payload (p : payload)
| Doc_other (value : bytes).

(** [json] and [mimetypes]. *)
Class JsonLib := {
  (** [json.dumps(value, ensure_ascii=False).encode()] *)
  json_dumps : document -> bytes;
  (** [json.loads(data.decode())]; [None] is [JSONDecodeError] or [UnicodeDecodeError]. *)
  json_loads : bytes -> option document;
  (** [mimetypes.guess_type(path)[0]] *)
  guess_type : string -> option string;
}.

Definition json_roundtrip (J : JsonLib) : Prop :=
  forall d, json_loads (json_dumps d) = Some d.

Record world := {
  disk : gmap string file;
  clock : Q;
  (** the entropy source and the number of draws made from it *)
  rng : nat -> bytes;
  drawn : nat;
  (** [self.crypto] *)
  manager : SecureCryptoManager;
  (** [self.folder_security_manager.unlocked_folders]: folder id to folder key *)
  unlocked_folders : gmap string bytes;
  (** [self.filesystem] *)
  filesystem : document;
}.

Definition set_disk (f : gmap string file -> gmap string file) (w : world) : world :=
  {| disk := f (disk w); clock := clock w; rng := rng w; drawn := drawn w;
     manager := manager w; unlocked_folders := unlocked_folders w;
     filesystem := filesystem w |}.

Definition set_drawn (n : nat) (w : world) : world :=
  {| disk := disk w; clock := clock w; rng := rng w; drawn := n;
     manager := manager w; unlocked_folders := unlocked_folders w;
     filesystem := filesystem w |}.

Definition set_manager (m : SecureCryptoManager) (w : world) : world :=
  {| disk := disk w; clock := clock w; rng := rng w; drawn := drawn w;
     manager := m; unlocked_folders := unlocked_folders w;
     filesystem := filesystem w |}.

Definition set_filesystem (d : document) (w : world) : world :=
  {| disk := disk w; clock := clock w; rng := rng w; drawn := drawn w;
     manager := manager w; unlocked_folders := unlocked_folders w;
     filesystem := d |}.

(** Computations that read and write the world and may raise. *)
Definition vault (A : Type) : Type := world -> result A * world.

#[global] Instance vault_ret : MRet vault := fun A a w => (Ok a, w).
#[global] Instance vault_bind : MBind vault := fun A B f m w =>
  match m w with
  | (Ok a, w') => f a w'
  | (Raise e, w') => (Raise e, w')
  end.

Definition raise {A} (e : exn) : vault A := fun w => (Raise e, w).
Definition lift {A} (r : result A) : vault A := fun w => (r, w).
Definition get_world : vault world := fun w => (Ok w, w).
Definition modify (f : world -> world) : vault unit := fun w => (Ok tt, f w).

(** [try: body except Exception as e: handler e] *)
Definition try_except {A} (body : vault A) (handler : exn -> vault A) : vault A :=
  fun w =>
    match body w with
    | (Ok a, w') => (Ok a, w')
    | (Raise e, w') => handler e w'
    end.

(** [if b: m] *)
Definition when_ (b : bool) (m : vault unit) : vault unit :=
  if b then m else mret tt.

(** One draw from the entropy source. *)
Definition draw : vault bytes :=
  fun w => (Ok (rng w (drawn w)), set_drawn (S (drawn w)) w).

(** [secrets.token_hex(n)], as text. *)
Definition token_hex (n : nat) : vault string :=
  e ← draw; mret (string_of_list_byte (token_bytes n e)).

(** *** Files *)

Definition path_exists (path : string) : vault bool :=
  w ← get_world; mret (bool_decide (is_Some (disk w !! path))).

Definition read_file (path : string) : vault bytes :=
  w ← get_world;
  match disk w !! path with
  | Some f => mret (content f)
  | None => raise (FileNotFoundError path)
  end.

(** [os.path.getsize(path)] *)
Definition getsize (path : string) : vault Z :=
  data ← read_file path; mret (Z.of_nat (length data)).

(** Writing a whole file (directly, or to a temporary file that is then
    renamed over [path]): the file gets the current time as [mtime]. *)
Definition write_file (path : string) (data : bytes) : vault unit :=
  modify (fun w => set_disk (insert path {| content := data; mtime := clock w |}) w).

(** [os.remove(path)] and the overwrite-then-unlink of [_secure_delete_file]. *)
Definition remove_file (path : string) : vault unit :=
  modify (set_disk (delete path)).

(** [shutil.copy2(src, dst)]: contents and modification time. *)
Definition copy2 (src dst : string) : vault unit :=
  w ← get_world;
  match disk w !! src with
  | Some f => modify (set_disk (insert dst f))
  | None => raise (FileNotFoundError src)
  end.

(** [os.replace(src, dst)] *)
Definition rename_file (src dst : string) : vault unit :=
  w ← get_world;
  match disk w !! src with
  | Some f => modify (set_disk (fun d => <[dst := f]> (delete src d)))
  | None => raise (FileNotFoundError src)
  end.

Fixpoint strip_prefix (p s : string) : option string :=
  match p, s with
  | EmptyString, _ => Some s
  | String a p', String b s' => if Ascii.eqb a b then strip_prefix p' s' else None
  | String _ _, EmptyString => None
  end.

(** [os.listdir(dir)]: the names [n] with a file at [dir/n]. *)
Definition listdir (dir : string) : vault (list string) :=
  w ← get_world;
  mret (omap (fun p => strip_prefix (dir +:+ "/") p.1) (map_to_list (disk w))).

Fixpoint basename_go (acc : string) (s : string) : string :=
  match s with
  | EmptyString => acc
  | String c r => if Ascii.eqb c "/" then basename_go r r else basename_go acc r
  end.

(** [os.path.basename(path)] *)
Definition basename (path : string) : string := basename_go path path.

(** [os.path.join(dir, name)] for a relative [name]. *)
Definition path_join (dir name : string) : string := dir +:+ "/" +:+ name.

(** [datetime.now().strftime("%Y%m%d_%H%M%S")]: a rendering of the current second. *)
Definition strftime_seconds (now : Q) : string := pretty (Qfloor now).

(** [datetime.now().strftime("%Y%m%d_%H%M%S_%f")]: of the current microsecond. *)
Definition strftime_micros (now : Q) : string := pretty (Qfloor (now * 1000000)).

(** [datetime.now().isoformat()] *)
Definition isoformat (now : Q) : string := pretty (Qfloor (now * 1000000)).

(** [n.to_bytes(4, 'big')]; [OverflowError] from 2^32 on. *)
Definition byte_of (n : Z) : byte := default x00 (Byte.of_N (Z.to_N (n mod 256))).

Definition to_bytes4 (n : Z) : result bytes :=
  if n <? 2 ^ 32
  then Ok [byte_of (n / 2 ^ 24); byte_of (n / 2 ^ 16); byte_of (n / 2 ^ 8); byte_of n]
  else Raise OverflowError.

(** [int.from_bytes(b, 'big')] *)
Definition from_bytes (b : bytes) : Z :=
  fold_left (fun acc x => acc * 256 + Z.of_N (Byte.to_N x)) b 0.

(** ** crypto.py *)

Definition container_new (key_data : bytes) : SecureKeyContainer :=
  {| _secure_key := Some key_data; _key_usage_count := 0 |}.

(** [SecureKeyContainer.retrieve]: a cleared or empty key is falsy. *)
Definition container_retrieve (c : SecureKeyContainer) : result bytes * SecureKeyContainer :=
  match _secure_key c with
  | Some (b :: key) =>
      (Ok (b :: key), {| _secure_key := _secure_key c; _key_usage_count := S (_key_usage_count c) |})
  | _ => (Raise (ValueError "the key is not loaded or was cleared"), c)
  end.

Definition needs_rekeying (c : SecureKeyContainer) : bool :=
  bool_decide (_max_usage_before_rekey <= _key_usage_count c)%nat.

Definition container_secure_clear (c : SecureKeyContainer) : SecureKeyContainer :=
  {| _secure_key := None; _key_usage_count := 0 |}.

(** [SecureCryptoManager(master_key)] *)
Definition new_manager (master_key : bytes) : SecureCryptoManager :=
  {| _master_key_container := container_new master_key; _active_keys := ∅ |}.

Definition _chunk_size : nat := Z.to_nat (64 * 1024).

Definition ten_MiB : Z := 10 * 1024 * 1024.

Section crypto.
Context `{L : CryptoLib}.

Definition _get_master_key : vault bytes :=
  fun w =>
    let m := manager w in
    if needs_rekeying (_master_key_container m) then (Raise SecurityError, w)
    else
      let '(r, c) := container_retrieve (_master_key_container m) in
      (r, set_manager {| _master_key_container := c; _active_keys := _active_keys m |} w).

(** [self._active_keys[key_id].retrieve()] *)
Definition retrieve_active_key (key_id : string) (c : SecureKeyContainer) : vault bytes :=
  fun w =>
    let m := manager w in
    let '(r, c') := container_retrieve c in
    (r, set_manager {| _master_key_container := _master_key_container m;
                       _active_keys := <[key_id := c']> (_active_keys m) |} w).

(** The key selection shared by [encrypt_data] and [decrypt_data]. *)
Definition select_key (key_id : option string) : vault bytes :=
  w ← get_world;
  match key_id with
  | Some kid =>
      match _active_keys (manager w) !! kid with
      | Some c => if bool_decide (kid = ""%string) then _get_master_key
                  else retrieve_active_key kid c
      | None => _get_master_key
      end
  | None => _get_master_key
  end.

Definition encrypt_data (data : bytes) (key_id : option string) : vault bytes :=
  encryption_key ← select_key key_id;
  iv ← draw;
  lift (fernet_encrypt encryption_key iv data).

Definition decrypt_data (encrypted_data : bytes) (key_id : option string) : vault bytes :=
  decryption_key ← select_key key_id;
  lift (fernet_decrypt decryption_key encrypted_data).

Definition encrypt_with_master_key (data : bytes) : vault bytes := encrypt_data data None.

Definition decrypt_with_master_key (encrypted_data : bytes) : vault bytes :=
  decrypt_data encrypted_data None.

Definition _secure_delete_file (file_path : string) : vault unit := remove_file file_path.

(** Wrapping the per-file key: under the folder key when one is given
    ([if folder_key:]), else under the master key. *)
Definition encrypt_file_key (folder_key : option bytes) (file_key : bytes) : vault bytes :=
  match folder_key with
  | Some (b :: k) => iv ← draw; lift (fernet_encrypt (b :: k) iv file_key)
  | _ => encrypt_data file_key None
  end.

Definition decrypt_file_key (folder_key : option bytes) (encrypted_file_key : bytes)
  : vault bytes :=
  match folder_key with
  | Some (b :: k) => lift (fernet_decrypt (b :: k) encrypted_file_key)
  | _ => decrypt_data encrypted_file_key None
  end.

Definition encrypted_files_path (file_id : string) : string :=
  "data/encrypted_files/" +:+ file_id +:+ ".myarc".

(** The [while] loop of [encrypt_large_file]: every chunk of [_chunk_size]
    bytes is sealed on its own and the tokens are written one after another.
    [fuel] bounds the number of chunks. *)
Fixpoint encrypt_chunks (fuel : nat) (file_fernet : bytes) (data : bytes) : vault bytes :=
  match fuel with
  | O => mret []
  | S fuel' =>
      match data with
      | [] => mret []
      | _ =>
          let chunk := take _chunk_size data in
          iv ← draw;
          let encrypted_chunk := Fernet_encrypt file_fernet iv chunk in
          rest ← encrypt_chunks fuel' file_fernet (drop _chunk_size data);
          mret (encrypted_chunk ++ rest)
      end
  end.

Definition encrypt_large_file (file_path : string) (folder_key : option bytes)
  : vault (string * string) :=
  e ← draw;
  let file_key := Fernet_generate_key e in
  file_fernet ← lift (Fernet file_key);
  file_id ← token_hex 16;
  let vault_filename := encrypted_files_path file_id in
  try_except
    (encrypted_file_key ← encrypt_file_key folder_key file_key;
     data ← read_file file_path;
     key_length ← lift (to_bytes4 (Z.of_nat (length encrypted_file_key)));
     let header := key_length ++ encrypted_file_key in
     body ← encrypt_chunks (length data) file_fernet data;
     write_file vault_filename (header ++ body);;
     mret (vault_filename, file_id))
    (fun e =>
       present ← path_exists vault_filename;
       when_ present (_secure_delete_file vault_filename);;
       raise e).

(** Up to the point where [vault_filename] is bound the [except] clause of
    [encrypt_file] only re-raises; [try_except] starts there. *)
Definition encrypt_file (file_path : string) (folder_key : option bytes)
  : vault (string * string) :=
  present ← path_exists file_path;
  if negb present then raise (FileNotFoundError file_path)
  else
    file_size ← getsize file_path;
    if ten_MiB <? file_size then encrypt_large_file file_path folder_key
    else
      e ← draw;
      let file_key := Fernet_generate_key e in
      file_fernet ← lift (Fernet file_key);
      file_data ← read_file file_path;
      iv ← draw;
      let encrypted_data := Fernet_encrypt file_fernet iv file_data in
      encrypted_file_key ← encrypt_file_key folder_key file_key;
      file_id ← token_hex 16;
      let vault_filename := encrypted_files_path file_id in
      try_except
        (key_length ← lift (to_bytes4 (Z.of_nat (length encrypted_file_key)));
         write_file vault_filename (key_length ++ encrypted_file_key ++ encrypted_data);;
         mret (vault_filename, file_id))
        (fun e =>
           present ← path_exists vault_filename;
           when_ present (_secure_delete_file vault_filename);;
           raise e).

(** The [while] loop of [decrypt_large_file]: reads of [_chunk_size + 100]
    bytes, each opened as one token.  [fuel] bounds the number of reads. *)
Fixpoint decrypt_chunks (fuel : nat) (file_fernet : bytes) (data : bytes) : result bytes :=
  match fuel with
  | O => Ok []
  | S fuel' =>
      match data with
      | [] => Ok []
      | _ =>
          let chunk := take (_chunk_size + 100) data in
          match Fernet_decrypt file_fernet chunk with
          | Some decrypted_chunk =>
              rest ← decrypt_chunks fuel' file_fernet (drop (_chunk_size + 100) data);
              mret (decrypted_chunk ++ rest)
          | None => Raise (ValueError "decryption error")
          end
      end
  end.

(** The cleanup of the decrypt functions' [except] clause. *)
Definition discard_output {A} (output_path : string) (e : exn) : vault A :=
  present ← path_exists output_path;
  when_ present (_secure_delete_file output_path);;
  raise e.

Definition decrypt_large_file (vault_file_path output_path : string)
    (folder_key : option bytes) : vault unit :=
  try_except
    (infile ← read_file vault_file_path;
     let key_length := from_bytes (take 4 infile) in
     let encrypted_file_key := take (Z.to_nat key_length) (drop 4 infile) in
     file_key ← decrypt_file_key folder_key encrypted_file_key;
     file_fernet ← lift (Fernet file_key);
     let rest := drop (Z.to_nat key_length) (drop 4 infile) in
     plaintext ← lift (decrypt_chunks (length rest) file_fernet rest);
     write_file output_path plaintext)
    (discard_output output_path).

Definition decrypt_file (vault_file_path output_path : string) (folder_key : option bytes)
  : vault unit :=
  present ← path_exists vault_file_path;
  if negb present then raise (FileNotFoundError vault_file_path)
  else
    file_size ← getsize vault_file_path;
    if ten_MiB <? file_size then decrypt_large_file vault_file_path output_path folder_key
    else
      try_except
        (f ← read_file vault_file_path;
         let key_length := from_bytes (take 4 f) in
         let encrypted_file_key := take (Z.to_nat key_length) (drop 4 f) in
         let encrypted_data := drop (Z.to_nat key_length) (drop 4 f) in
         file_key ← decrypt_file_key folder_key encrypted_file_key;
         decrypted_data ← lift (fernet_decrypt file_key encrypted_data);
         write_file output_path decrypted_data)
        (discard_output output_path).

(** [calculate_file_hash]: the SHA-256 digest, [None] when the file cannot be read. *)
Definition calculate_file_hash (file_path : string) : vault (option bytes) :=
  w ← get_world;
  mret (match disk w !! file_path with
        | Some f => Some (sha256 (content f))
        | None => None
        end).

(** [SecureCryptoManager] defines neither [_create_secure_temp_file] nor
    [_secure_delete]; looking either up raises [AttributeError]. *)
Definition _create_secure_temp_file : vault string :=
  raise (AttributeError "_create_secure_temp_file").

Definition _secure_delete (path : string) : vault unit :=
  raise (AttributeError "_secure_delete").

End crypto.

(** ** vault_core.py *)

Definition filesystem_path : string := "data/filesystem.json.enc".
Definition backups_dir : string := "data/backups".

(** The callbacks handed to [_atomic_file_operation]. *)
Inductive file_callback :=
| Read_operation
| Write_operation (produce : vault bytes).

(** Entries of a backup listing, [(os.path.getmtime(full_path), full_path)],
    in Python's tuple order; [backup_geb a b] is [a >= b]. *)
Definition backup_geb (a b : Q * string) : bool :=
  Qltb b.1 a.1 || (Qeq_bool a.1 b.1 && String.leb b.2 a.2).

Definition backup_ge (a b : Q * string) : Prop := backup_geb a b = true.

#[global] Instance backup_ge_dec a b : Decision (backup_ge a b) :=
  decide (backup_geb a b = true).

(** [backups.sort(reverse=True)] *)
Definition sort_reverse (backups : list (Q * string)) : list (Q * string) :=
  merge_sort backup_ge backups.

Definition default_tree (timestamp : string) : tree :=
  {| files := Some ∅;
     folders := Some {[ "root"%string :=
       {| folder_node_id := "root"; name := "Root folder";
          folder_encrypted_name := "Root folder";
          parent := None; children := [];
          folder_created_at := timestamp; is_locked := false |} ]};
     version := Some "2.0"%string;
     tree_created_at := Some timestamp |}.

(** [self.filesystem = {}] of [__init__]. *)
Definition empty_tree : tree :=
  {| files := None; folders := None; version := None; tree_created_at := None |}.

(** [os.path.splitext(path)[1]] *)
Definition splitext_ext (path : string) : string :=
  let fix go (ext : list ascii) (l : list ascii) : list ascii :=
    match l with
    | [] => []
    | c :: r =>
        if Ascii.eqb c "."
        then (if forallb (Ascii.eqb ".") r then [] else c :: ext)
        else go (c :: ext) r
    end in
  string_of_list_ascii (go [] (reverse (list_ascii_of_string (basename path)))).

Inductive tx_state := initialized | executing | rolling_back | committed | failed.

Inductive operation :=
| Add_file (op_id file_path folder_id : string)
| Create_folder (op_id name parent_id : string) (password hint recovery_password : option string)
| Delete_file (op_id file_id : string).

Definition op_id_of (op : operation) : string :=
  match op with
  | Add_file i _ _ | Create_folder i _ _ _ _ _ | Delete_file i _ => i
  end.

Record VaultTransaction := {
  operations : list operation;
  _state : tx_state;
  _backup_files : list string;
}.

Definition set_state (s : tx_state) (tx : VaultTransaction) : VaultTransaction :=
  {| operations := operations tx; _state := s; _backup_files := _backup_files tx |}.

(** [begin_transaction] *)
Definition begin_transaction : VaultTransaction :=
  {| operations := []; _state := initialized; _backup_files := [] |}.

(** What [verify_integrity] reports. *)
Inductive issue :=
| Ciphertext_missing (file_id : string)
| Hash_mismatch (file_id : string)
| Check_error (file_id : string) (e : exn)
| Parent_missing (folder_id : string).

Section vault_core.
Context `{L : CryptoLib} `{J : JsonLib}.

(** [_atomic_file_operation(filepath, operation_callback, mode)] makes a
    temporary file next to [filepath] and opens it with mode ['wb'] (or ['w'])
    whatever [mode] is.  The callback of [_load_filesystem] calls
    [temp_file.read()], which on a handle opened for writing raises
    [io.UnsupportedOperation]; the temporary file is then unlinked.  A callback
    that writes has its bytes renamed over [filepath]. *)
Definition _atomic_file_operation (filepath : string) (operation_callback : file_callback)
  : vault bytes :=
  match operation_callback with
  | Read_operation => raise UnsupportedOperation
  | Write_operation produce =>
      data ← produce;
      write_file filepath data;;
      mret []
  end.

(** The listing loop shared by [_create_filesystem_backup] and [_load_filesystem]. *)
Definition filesystem_backups : vault (list (Q * string)) :=
  names ← listdir backups_dir;
  w ← get_world;
  mret (omap (fun f =>
          if String.prefix "filesystem_backup_" f
          then (fun fl => (mtime fl, path_join backups_dir f)) <$> disk w !! path_join backups_dir f
          else None) names).

Definition remove_all (paths : list string) : vault unit :=
  modify (set_disk (fun d => foldr delete d paths)).

(** The body of [_create_filesystem_backup]; its [except Exception] only logs. *)
Definition _create_filesystem_backup : vault unit :=
  try_except
    (w ← get_world;
     let timestamp := strftime_seconds (clock w) in
     let backup_name := "filesystem_backup_" +:+ timestamp +:+ ".json.enc" in
     let backup_path := path_join backups_dir backup_name in
     present ← path_exists filesystem_path;
     when_ present (copy2 filesystem_path backup_path);;
     backups ← filesystem_backups;
     remove_all (map snd (drop 10 (sort_reverse backups))))
    (fun _ => mret tt).

Definition _save_filesystem : vault unit :=
  _atomic_file_operation filesystem_path
    (Write_operation
       (w ← get_world;
        let data := json_dumps (filesystem w) in
        let checksum := sha256 data in
        let payload :=
          {| p_data := data; p_checksum := checksum;
             p_timestamp := isoformat (clock w); p_version := "2.0" |} in
        let payload_data := json_dumps (Doc_payload payload) in
        encrypt_with_master_key payload_data));;
  _create_filesystem_backup.

(** [json.loads(data.decode())] *)
Definition loads (data : bytes) : vault document :=
  match json_loads data with
  | Some d => mret d
  | None => raise JSONDecodeError
  end.

Definition _restore_from_backup (backup_path : string) : vault unit :=
  present ← path_exists backup_path;
  if negb present then raise (FileNotFoundError backup_path)
  else
    encrypted_data ← read_file backup_path;
    decrypted_data ← decrypt_with_master_key encrypted_data;
    payload ← loads decrypted_data;
    match payload with
    | Doc_payload p =>
        let data := p_data p in
        let expected_checksum := p_checksum p in
        let actual_checksum := sha256 data in
        if bool_decide (actual_checksum = expected_checksum) then
          restored ← loads data;
          modify (set_filesystem restored);;
          _save_filesystem
        else raise (ValueError "checksum mismatch, the data is damaged")
    | Doc_tree _ => raise (KeyError "data")
    | Doc_other _ => raise TypeError
    end.

Definition _create_default_filesystem : vault unit :=
  w ← get_world;
  modify (set_filesystem (Doc_tree (default_tree (isoformat (clock w)))));;
  _save_filesystem.

(** The body of [_backup_corrupted_filesystem]; its [except Exception] only logs. *)
Definition _backup_corrupted_filesystem : vault unit :=
  try_except
    (w ← get_world;
     let timestamp := strftime_seconds (clock w) in
     let corrupted_name := "corrupted_filesystem_" +:+ timestamp +:+ ".bak" in
     let corrupted_path := path_join backups_dir corrupted_name in
     present ← path_exists filesystem_path;
     when_ present (copy2 filesystem_path corrupted_path))
    (fun _ => mret tt).

Definition validate_tree (t : tree) : tree :=
  let fs := default ∅ (files t) in
  let ds := default ∅ (folders t) in
  let fs' := (fun fd =>
      if negb (String.eqb (folder_id fd) "") && bool_decide (ds !! folder_id fd = None)
      then {| node_id := node_id fd; original_name := original_name fd;
              encrypted_name := encrypted_name fd; vault_filename := vault_filename fd;
              folder_id := "root"; file_size := file_size fd; added_at := added_at fd;
              file_type := file_type fd; hash := hash fd |}
      else fd) <$> fs in
  let ds' := (fun dd =>
      {| folder_node_id := folder_node_id dd; name := name dd;
         folder_encrypted_name := folder_encrypted_name dd; parent := parent dd;
         children := List.filter (fun c => bool_decide (is_Some (fs' !! c))
                                           || bool_decide (is_Some (ds !! c))) (children dd);
         folder_created_at := folder_created_at dd; is_locked := is_locked dd |}) <$> ds in
  {| files := Some fs'; folders := Some ds'; version := version t;
     tree_created_at := tree_created_at t |}.

Definition _validate_filesystem_integrity : vault unit :=
  w ← get_world;
  match filesystem w with
  | Doc_tree t => modify (set_filesystem (Doc_tree (validate_tree t)))
  | _ => raise TypeError
  end.

(** [SecureVaultCore] defines no [_optimize_filesystem_structure]. *)
Definition _optimize_filesystem_structure : vault unit :=
  raise (AttributeError "_optimize_filesystem_structure").

(** The inner [try] of [_load_filesystem]: parse the sealed record, check
    its version and checksum, fall back to the old format. *)
Definition parse_filesystem (decrypted_data : bytes) : vault unit :=
  try_except
    (payload ← loads decrypted_data;
     match payload with
     | Doc_payload p =>
         if negb (String.eqb (p_version p) "2.0")
         then raise (ValueError "incompatible file system version")
         else if bool_decide (sha256 (p_data p) = p_checksum p) then
           restored ← loads (p_data p);
           modify (set_filesystem restored)
         else raise (ValueError "checksum mismatch")
     | Doc_tree t =>
         if bool_decide (version t = Some "2.0"%string) then raise (KeyError "data")
         else raise (ValueError "incompatible file system version")
     | Doc_other _ => raise (AttributeError "get")
     end)
    (fun e =>
       match e with
       | JSONDecodeError => old ← loads decrypted_data; modify (set_filesystem old)
       | _ => raise e
       end).

Definition _load_filesystem : vault unit :=
  present ← path_exists filesystem_path;
  if negb present then _create_default_filesystem
  else
    try_except
      (file_size ← getsize filesystem_path;
       if file_size =? 0 then _create_default_filesystem
       else
         encrypted_data ← _atomic_file_operation filesystem_path Read_operation;
         decrypted_data ← decrypt_with_master_key encrypted_data;
         parse_filesystem decrypted_data;;
         _validate_filesystem_integrity;;
         _optimize_filesystem_structure)
      (fun e =>
         if is_ValueError e || is_KeyError e then
           _backup_corrupted_filesystem;;
           try_except
             (backups ← filesystem_backups;
              match sort_reverse backups with
              | latest :: _ => _restore_from_backup latest.2
              | [] => _create_default_filesystem
              end)
             (fun _ => _create_default_filesystem)
         else _create_default_filesystem).

(** [SecureVaultCore(auth, crypto, folder_security)] on a disk: the
    constructor ends with [_load_filesystem]. *)
Definition open_vault (master_key : bytes) (d : gmap string file) (now : Q)
    (entropy : nat -> bytes) : result unit * world :=
  _load_filesystem
    {| disk := d; clock := now; rng := entropy; drawn := 0;
       manager := new_manager master_key; unlocked_folders := ∅;
       filesystem := Doc_tree empty_tree |}.

Definition is_folder_unlocked (folder_id : string) : vault bool :=
  w ← get_world; mret (bool_decide (is_Some (unlocked_folders w !! folder_id))).

Definition get_folder_key (folder_id : string) : vault bytes :=
  w ← get_world;
  match unlocked_folders w !! folder_id with
  | Some k => mret k
  | None => raise (PermissionError "the folder is locked")
  end.

Definition _get_file_type (file_path : string) : string :=
  let by_extension :=
    let ext := str_lower (splitext_ext file_path) in
    if bool_decide (ext ∈ [".txt"; ".log"; ".md"; ".json"; ".xml"; ".html"; ".htm"]%string)
    then "text"%string
    else if bool_decide (ext ∈ [".zip"; ".rar"; ".7z"; ".tar"; ".gz"]%string)
    then "archive"%string
    else "binary"%string in
  match guess_type file_path with
  | Some mime_type =>
      if String.eqb mime_type "" then by_extension
      else if String.prefix "image/" mime_type then "image"%string
      else if String.prefix "video/" mime_type then "video"%string
      else if String.prefix "audio/" mime_type then "audio"%string
      else if bool_decide (mime_type ∈
                ["application/pdf"; "application/msword";
                 "application/vnd.openxmlformats-officedocument.wordprocessingml.document"]%string)
      then "document"%string
      else by_extension
  | None => by_extension
  end.

(** The dictionary updates of [_transactional_add_file]. *)
Definition add_file_node (fd : file_node) (t : tree) : tree :=
  let fs := <[node_id fd := fd]> (default ∅ (files t)) in
  let ds :=
    match folders t with
    | Some ds =>
        Some (alter (fun dd =>
          {| folder_node_id := folder_node_id dd; name := name dd;
             folder_encrypted_name := folder_encrypted_name dd; parent := parent dd;
             children := children dd ++ [node_id fd];
             folder_created_at := folder_created_at dd; is_locked := is_locked dd |})
          (folder_id fd) ds)
    | None => None
    end in
  {| files := Some fs; folders := ds; version := version t;
     tree_created_at := tree_created_at t |}.

Definition _transactional_add_file (file_path folder_id : string) : vault string :=
  unlocked ← is_folder_unlocked folder_id;
  if negb (String.eqb folder_id "root") && negb unlocked
  then raise (PermissionError "the folder must be unlocked to add files")
  else
    present ← path_exists file_path;
    if negb present then raise (FileNotFoundError file_path)
    else
      folder_key ← (if String.eqb folder_id "root" then mret None
                    else k ← get_folder_key folder_id; mret (Some k));
      file_size ← getsize file_path;
      '(vault_filename, file_id) ←
        (if ten_MiB <? file_size then encrypt_large_file file_path folder_key
         else encrypt_file file_path folder_key);
      try_except
        (w ← get_world;
         file_hash ← calculate_file_hash file_path;
         match filesystem w with
         | Doc_tree t =>
             let fd :=
               {| node_id := file_id; original_name := basename file_path;
                  encrypted_name := basename file_path; vault_filename := vault_filename;
                  folder_id := folder_id; file_size := file_size;
                  added_at := isoformat (clock w); file_type := _get_file_type file_path;
                  hash := file_hash |} in
             modify (set_filesystem (Doc_tree (add_file_node fd t)));;
             mret file_id
         | _ => raise TypeError
         end)
        (fun e =>
           present ← path_exists vault_filename;
           when_ present (_secure_delete vault_filename);;
           raise e).

Definition lookup_file (file_id : string) : vault (option file_node) :=
  w ← get_world;
  mret (match filesystem w with
        | Doc_tree t => default ∅ (files t) !! file_id
        | _ => None
        end).

Definition _transactional_extract_file (file_id output_dir : string) : vault string :=
  found ← lookup_file file_id;
  match found with
  | None => raise (FileNotFoundError file_id)
  | Some file_data =>
      let folder_id := folder_id file_data in
      unlocked ← is_folder_unlocked folder_id;
      if negb (String.eqb folder_id "root") && negb unlocked
      then raise (PermissionError "the folder must be unlocked to extract files")
      else
        folder_key ← (if String.eqb folder_id "root" then mret None
                      else k ← get_folder_key folder_id; mret (Some k));
        let vault_path := vault_filename file_data in
        let output_path := path_join output_dir (original_name file_data) in
        present ← path_exists vault_path;
        if negb present then raise (FileNotFoundError vault_path)
        else
          temp_output ← _create_secure_temp_file;
          try_except
            (decrypt_file vault_path temp_output folder_key;;
             extracted_hash ← calculate_file_hash temp_output;
             if bool_decide (extracted_hash = hash file_data) then
               rename_file temp_output output_path;;
               mret output_path
             else raise (ValueError "integrity violated: the hashes differ"))
            (fun e =>
               present ← path_exists temp_output;
               when_ present (_secure_delete temp_output);;
               raise e)
  end.

(** The per-file step of [verify_integrity]. *)
Definition verify_file (file_id : string) (file_data : file_node) : vault (list issue) :=
  let vault_path := vault_filename file_data in
  present ← path_exists vault_path;
  if String.eqb vault_path "" || negb present then mret [Ciphertext_missing file_id]
  else
    try_except
      (temp_file ← _create_secure_temp_file;
       decrypt_file vault_path temp_file None;;
       current_hash ← calculate_file_hash temp_file;
       let found := if bool_decide (current_hash = hash file_data) then []
                    else [Hash_mismatch file_id] in
       present ← path_exists temp_file;
       when_ present (_secure_delete temp_file);;
       mret found)
      (fun e => mret [Check_error file_id e]).

Fixpoint verify_files (l : list (string * file_node)) : vault (list issue) :=
  match l with
  | [] => mret []
  | (file_id, file_data) :: rest =>
      here ← verify_file file_id file_data;
      more ← verify_files rest;
      mret (here ++ more)
  end.

Definition verify_integrity : vault (list issue) :=
  w ← get_world;
  match filesystem w with
  | Doc_tree t =>
      file_issues ← verify_files (map_to_list (default ∅ (files t)));
      let folder_issues :=
        omap (fun '(folder_id, folder_data) =>
                if negb (String.eqb folder_id "root")
                   && negb (bool_decide (is_Some (parent folder_data)))
                then Some (Parent_missing folder_id) else None)
             (map_to_list (default ∅ (folders t))) in
      mret (file_issues ++ folder_issues)
  | Doc_payload _ => mret []
  | Doc_other _ => raise (AttributeError "get")
  end.

(** *** VaultTransaction *)

(** [transaction.add_file(file_path, folder_id)] *)
Definition stage_add_file (tx : VaultTransaction) (op_id file_path folder_id : string)
  : result VaultTransaction :=
  match _state tx with
  | initialized =>
      Ok {| operations := operations tx ++ [Add_file op_id file_path folder_id];
            _state := _state tx; _backup_files := _backup_files tx |}
  | _ => Raise (RuntimeError "the transaction was already run")
  end.

Definition _execute_operation (op : operation) : vault string :=
  match op with
  | Add_file _ file_path folder_id => _transactional_add_file file_path folder_id
  | Create_folder _ _ _ _ _ _ => raise (AttributeError "_transactional_create_folder")
  | Delete_file _ _ => raise (AttributeError "_transactional_delete_file")
  end.

(** [_create_backup]: the tree itself, sealed under the master key. *)
Definition _create_backup (tx : VaultTransaction) : vault VaultTransaction :=
  w ← get_world;
  let timestamp := strftime_micros (clock w) in
  suffix ← token_hex 4;
  let backup_name := "transaction_backup_" +:+ timestamp +:+ "_" +:+ suffix +:+ ".json.enc" in
  let backup_path := path_join backups_dir backup_name in
  let data := json_dumps (filesystem w) in
  encrypted_data ← encrypt_with_master_key data;
  write_file backup_path encrypted_data;;
  mret {| operations := operations tx; _state := _state tx;
          _backup_files := _backup_files tx ++ [backup_path] |}.

(** [_rollback]: its [except Exception] only logs. *)
Definition _rollback (tx : VaultTransaction) : vault unit :=
  try_except
    (match last (_backup_files tx) with
     | Some latest_backup => _restore_from_backup latest_backup
     | None => mret tt
     end;;
     remove_all (_backup_files tx))
    (fun _ => mret tt).

(** The [for] loop of [commit]. *)
Fixpoint run_operations (ops : list operation) (results : list (string * string))
    (tx : VaultTransaction) (w : world)
  : result (list (string * string)) * VaultTransaction * world :=
  match ops with
  | [] => (Ok results, set_state committed tx, w)
  | op :: rest =>
      match _execute_operation op w with
      | (Ok r, w') => run_operations rest (results ++ [(op_id_of op, r)]) tx w'
      | (Raise e, w') =>
          let tx1 := set_state rolling_back tx in
          let '(_, w'') := _rollback tx1 w' in
          (Raise (TransactionError e), set_state failed tx1, w'')
      end
  end.

Definition commit (tx : VaultTransaction) (w : world)
  : result (list (string * string)) * VaultTransaction * world :=
  match _state tx with
  | initialized =>
      let tx1 := set_state executing tx in
      match _create_backup tx1 w with
      | (Ok tx2, w') => run_operations (operations tx2) [] tx2 w'
      | (Raise e, w') => (Raise e, set_state failed tx1, w')
      end
  | _ => (Raise (RuntimeError "the transaction is not in its initial state"), tx, w)
  end.

End vault_core.

(** ** A reference implementation of the library interface

    Idealised primitives with the framing of the real ones: a token has the
    length of a Fernet token and starts with a self-delimiting header holding
    the plaintext length, so that no proper prefix of a token is accepted;
    hashes are collision-free. *)

Module RefLib.

Fixpoint enc_pos (p : positive) : bytes :=
  match p with
  | xH => [x03]
  | xO q => x00 :: enc_pos q
  | xI q => x01 :: enc_pos q
  end.

Definition enc_len (n : N) : bytes :=
  match n with
  | N0 => [x02]
  | Npos p => enc_pos p
  end.

Fixpoint dec_pos (l : bytes) : option (positive * bytes) :=
  match l with
  | x03 :: r => Some (xH, r)
  | x00 :: r => match dec_pos r with Some (p, r') => Some (xO p, r') | None => None end
  | x01 :: r => match dec_pos r with Some (p, r') => Some (xI p, r') | None => None end
  | _ => None
  end.

Definition dec_len (l : bytes) : option (N * bytes) :=
  match l with
  | x02 :: r => Some (N0, r)
  | _ => match dec_pos l with Some (p, r) => Some (Npos p, r) | None => None end
  end.

Definition key_ok (k : bytes) : bool := (length k =? 44)%nat.

Definition b64 (raw : bytes) : bytes := raw ++ replicate 12 x3d.

Definition generate_key (e : bytes) : bytes := b64 (token_bytes 32 e).

Definition encrypt (k r p : bytes) : bytes :=
  let n := length p in
  let body := enc_len (N.of_nat n) ++ k ++ p in
  body ++ replicate (Z.to_nat (fernet_token_len (Z.of_nat n)) - length body) x00.

Definition decrypt (k t : bytes) : option bytes :=
  match dec_len t with
  | Some (n, rest) =>
      if (Z.of_nat (length t) =? fernet_token_len (Z.of_N n)) && bool_decide (take 44 rest = k)
      then Some (take (N.to_nat n) (drop 44 rest))
      else None
  | None => None
  end.

Definition pbkdf2 (alg : hash_algorithm) (len : nat) (salt : bytes) (iterations : Z)
    (key_material : bytes) : bytes :=
  take len (key_material ++ salt ++ replicate len x00).

Definition hashpw (password gensalt : bytes) : bytes :=
  token_bytes 29 gensalt ++ password.

Definition checkpw (password hashed : bytes) : bool :=
  bool_decide (hashed = take 29 hashed ++ password) && (29 <=? length hashed)%nat.

Definition lib : CryptoLib :=
  {| Fernet_key_ok := key_ok;
     Fernet_generate_key := generate_key;
     Fernet_encrypt := encrypt;
     Fernet_decrypt := decrypt;
     PBKDF2HMAC := pbkdf2;
     urlsafe_b64encode := b64;
     sha384 := fun b => b;
     sha256 := fun b => b;
     bcrypt_hashpw := hashpw;
     bcrypt_checkpw := checkpw |}.

#[global] Instance byte_countable : Countable byte :=
  inj_countable Byte.to_N Byte.of_N Byte.of_to_N.

(** Documents as generic trees, which have a compact code. *)
Inductive leaf :=
| L_str (s : string)
| L_int (z : Z)
| L_bytes (b : bytes)
| L_bool (b : bool)
| L_none.

#[global] Instance leaf_eq_dec : EqDecision leaf.
Proof. solve_decision. Defined.

#[global] Instance leaf_countable : Countable leaf :=
  inj_countable'
    (fun l => match l with
              | L_str s => inl s
              | L_int z => inr (inl z)
              | L_bytes b => inr (inr (inl b))
              | L_bool b => inr (inr (inr (inl b)))
              | L_none => inr (inr (inr (inr tt)))
              end)
    (fun s => match s with
              | inl s => L_str s
              | inr (inl z) => L_int z
              | inr (inr (inl b)) => L_bytes b
              | inr (inr (inr (inl b))) => L_bool b
              | inr (inr (inr (inr _))) => L_none
              end)
    (fun l => match l with L_str _ | L_int _ | L_bytes _ | L_bool _ | L_none => eq_refl end).

Definition g_str (s : string) : gen_tree leaf := GenLeaf (L_str s).

Definition g_opt {A} (f : A -> gen_tree leaf) (o : option A) : gen_tree leaf :=
  match o with
  | Some a => GenNode 1 [f a]
  | None => GenLeaf L_none
  end.

Definition g_opt_inv {A} (f : gen_tree leaf -> option A) (g : gen_tree leaf)
  : option (option A) :=
  match g with
  | GenNode 1 [x] => Some <$> f x
  | GenLeaf L_none => Some None
  | _ => None
  end.

Definition g_str_inv (g : gen_tree leaf) : option string :=
  match g with GenLeaf (L_str s) => Some s | _ => None end.

Definition g_bytes_inv (g : gen_tree leaf) : option bytes :=
  match g with GenLeaf (L_bytes b) => Some b | _ => None end.

Definition g_list {A} (f : A -> gen_tree leaf) (l : list A) : gen_tree leaf :=
  GenNode 2 (map f l).

Definition g_list_inv {A} (f : gen_tree leaf -> option A) (g : gen_tree leaf)
  : option (list A) :=
  match g with
  | GenNode 2 l => mapM f l
  | _ => None
  end.

Definition g_map {A} (f : A -> gen_tree leaf) (m : gmap string A) : gen_tree leaf :=
  g_list (fun kv => GenNode 3 [g_str kv.1; f kv.2]) (map_to_list m).

Definition g_map_inv {A} (f : gen_tree leaf -> option A) (g : gen_tree leaf)
  : option (gmap string A) :=
  list_to_map <$>
    g_list_inv (fun e => match e with
                         | GenNode 3 [GenLeaf (L_str k); v] => pair k <$> f v
                         | _ => None
                         end) g.

Definition g_file_node (n : file_node) : gen_tree leaf :=
  GenNode 4 [g_str (node_id n); g_str (original_name n); g_str (encrypted_name n);
             g_str (vault_filename n); g_str (folder_id n); GenLeaf (L_int (file_size n));
             g_str (added_at n); g_str (file_type n);
             g_opt (fun b => GenLeaf (L_bytes b)) (hash n)].

Definition g_file_node_inv (g : gen_tree leaf) : option file_node :=
  match g with
  | GenNode 4 [GenLeaf (L_str a); GenLeaf (L_str b); GenLeaf (L_str c); GenLeaf (L_str d);
               GenLeaf (L_str e); GenLeaf (L_int f); GenLeaf (L_str g); GenLeaf (L_str h); i] =>
      i' ← g_opt_inv g_bytes_inv i;
      Some {| node_id := a; original_name := b; encrypted_name := c; vault_filename := d;
              folder_id := e; file_size := f; added_at := g; file_type := h; hash := i' |}
  | _ => None
  end.

Definition g_folder_node (n : folder_node) : gen_tree leaf :=
  GenNode 5 [g_str (folder_node_id n); g_str (name n); g_str (folder_encrypted_name n);
             g_opt g_str (parent n); g_list g_str (children n);
             g_str (folder_created_at n); GenLeaf (L_bool (is_locked n))].

Definition g_folder_node_inv (g : gen_tree leaf) : option folder_node :=
  match g with
  | GenNode 5 [GenLeaf (L_str a); GenLeaf (L_str b); GenLeaf (L_str c); d; e;
               GenLeaf (L_str f); GenLeaf (L_bool g)] =>
      d' ← g_opt_inv g_str_inv d;
      e' ← g_list_inv g_str_inv e;
      Some {| folder_node_id := a; name := b; folder_encrypted_name := c; parent := d';
              children := e'; folder_created_at := f; is_locked := g |}
  | _ => None
  end.

Definition g_tree (t : tree) : gen_tree leaf :=
  GenNode 6 [g_opt (g_map g_file_node) (files t); g_opt (g_map g_folder_node) (folders t);
             g_opt g_str (version t); g_opt g_str (tree_created_at t)].

Definition g_tree_inv (g : gen_tree leaf) : option tree :=
  match g with
  | GenNode 6 [a; b; c; d] =>
      a' ← g_opt_inv (g_map_inv g_file_node_inv) a;
      b' ← g_opt_inv (g_map_inv g_folder_node_inv) b;
      c' ← g_opt_inv g_str_inv c;
      d' ← g_opt_inv g_str_inv d;
      Some {| files := a'; folders := b'; version := c'; tree_created_at := d' |}
  | _ => None
  end.

Definition g_document (d : document) : gen_tree leaf :=
  match d with
  | Doc_tree t => GenNode 7 [g_tree t]
  | Doc_payload p =>
      GenNode 8 [GenLeaf (L_bytes (p_data p)); GenLeaf (L_bytes (p_checksum p));
                 g_str (p_timestamp p); g_str (p_version p)]
  | Doc_other v => GenNode 9 [GenLeaf (L_bytes v)]
  end.

Definition g_document_inv (g : gen_tree leaf) : option document :=
  match g with
  | GenNode 7 [t] => Doc_tree <$> g_tree_inv t
  | GenNode 8 [GenLeaf (L_bytes a); GenLeaf (L_bytes b); GenLeaf (L_str c); GenLeaf (L_str d)] =>
      Some (Doc_payload {| p_data := a; p_checksum := b; p_timestamp := c; p_version := d |})
  | GenNode 9 [GenLeaf (L_bytes v)] => Some (Doc_other v)
  | _ => None
  end.

(** An injective serialisation: the code of the document's tree, in binary. *)
Definition dumps (d : document) : bytes := enc_pos (countable.encode (g_document d)).

Definition loads (b : bytes) : option document :=
  match dec_pos b with
  | Some (p, []) => decode p ≫= g_document_inv
  | _ => None
  end.

Definition json : JsonLib :=
  {| json_dumps := dumps; json_loads := loads; guess_type := fun _ => None |}.

End RefLib.


(** * More of the code *)

(** ** [securestring.SecureString] *)

Module SecureString.

(** [_data_buffer] is a [ctypes] string buffer: the data followed by one
    NUL byte, or [None] once cleared. *)
Record t := {
  _length : nat;
  _data_buffer : option bytes;
}.

(** [SecureString(data)] for [bytes] or [bytearray] data. *)
Definition init (data : bytes) : t :=
  {| _length := length data; _data_buffer := Some (data ++ [x00]) |}.

(** [SecureString(data)] for [str] data. *)
Definition init_str (data : string) : t := init (encode data).

Definition retrieve (s : t) : result bytes :=
  match _data_buffer s with
  | None => Raise (ValueError "Data has been cleared")
  | Some raw => Ok (take (_length s) raw)
  end.

(** [secure_clear]: the buffer is overwritten three times with the random
    bytes [r1], [r2], [r3], zeroed, and dropped.  The last buffer contents
    are returned next to the new state, to speak about what stays in memory. *)
Definition overwrite (raw fill : bytes) (n : nat) : bytes :=
  take n fill ++ drop n raw.

Definition secure_clear (r1 r2 r3 : bytes) (s : t) : bytes * t :=
  match _data_buffer s with
  | Some raw =>
      let n := _length s in
      let raw1 := overwrite raw (token_bytes n r1) n in
      let raw2 := overwrite raw1 (token_bytes n r2) n in
      let raw3 := overwrite raw2 (token_bytes n r3) n in
      let zeroed := overwrite raw3 (replicate n x00) n in
      (zeroed, {| _length := 0; _data_buffer := None |})
  | None => ([], s)
  end.

(** [__len__] *)
Definition len (s : t) : nat := _length s.

(** [__bool__] *)
Definition bool (s : t) : bool :=
  match _data_buffer s with
  | Some _ => (0 <? _length s)%nat
  | None => false
  end.

End SecureString.

(** ** The key registry of [crypto.SecureCryptoManager] *)

Definition set_active_keys (f : gmap string SecureKeyContainer -> gmap string SecureKeyContainer)
    (w : world) : world :=
  set_manager {| _master_key_container := _master_key_container (manager w);
                 _active_keys := f (_active_keys (manager w)) |} w.

(** [register_key(key_id, key_data)]: a fresh container replaces any old one. *)
Definition register_key (key_id : string) (key_data : bytes) : vault unit :=
  modify (set_active_keys (insert key_id (container_new key_data))).

(** [unregister_key(key_id)] *)
Definition unregister_key (key_id : string) : vault unit :=
  modify (set_active_keys (delete key_id)).

(** [SecureCryptoManager.secure_clear] *)
Definition manager_secure_clear : vault unit :=
  modify (fun w =>
    set_manager {| _master_key_container :=
                     container_secure_clear (_master_key_container (manager w));
                   _active_keys := ∅ |} w).

(** ** The read-only accessors of [auth.SecureAuthManager] *)

Definition get_password_hint (cfg : config) : string := default ""%string (password_hint cfg).

(** [get_recovery_questions]: the questions, each with an empty answer. *)
Definition get_recovery_questions (cfg : config) : list (string * string) :=
  map (fun q => (question q, ""%string)) (default [] (recovery_questions cfg)).

Record recovery_status := {
  status_is_locked_out : bool;
  status_remaining_time : Z;
  status_recovery_configured : bool;
}.

Definition get_recovery_status (cfg : config) (failed_attempts : gmap string (list Q))
    (now : Q) : recovery_status :=
  let user_id := default "default"%string (user_id cfg) in
  {| status_is_locked_out := RecoveryProtection.is_locked_out failed_attempts user_id now;
     status_remaining_time := RecoveryProtection.get_remaining_time failed_attempts user_id now;
     status_recovery_configured :=
       (0 <? length (default [] (recovery_questions cfg)))%nat |}.

(** ** [folder_security.SecureFolderSecurityManager]: brute-force protection *)

Module FolderSecurity.

Definition max_attempts : nat := 5.
Definition lockout_time : Q := 300.
Definition base_delay : Z := 2.

Definition recent_attempts (now : Q) (attempts : list Q) : list Q :=
  List.filter (fun t => Qltb (now - t) lockout_time) attempts.

(** [_apply_rate_limiting]: the delay it sleeps and returns. *)
Definition _apply_rate_limiting (failed_attempts : gmap string (list Q))
    (folder_id : string) (now : Q) : Z :=
  match failed_attempts !! folder_id with
  | None => 0
  | Some attempts =>
      let n := length (recent_attempts now attempts) in
      if (3 <=? n)%nat then Z.min (base_delay * 2 ^ (Z.of_nat n - 3)) 30 else 0
  end.

(** [_is_folder_locked_out]: the answer, and the table with the history of
    the folder cut down to the recent attempts. *)
Definition _is_folder_locked_out (failed_attempts : gmap string (list Q))
    (folder_id : string) (now : Q) : bool * gmap string (list Q) :=
  match failed_attempts !! folder_id with
  | None => (false, failed_attempts)
  | Some attempts =>
      let recent := recent_attempts now attempts in
      (bool_decide (max_attempts <= length recent)%nat, <[folder_id := recent]> failed_attempts)
  end.

Definition _record_failed_attempt (failed_attempts : gmap string (list Q))
    (folder_id : string) (now : Q) : gmap string (list Q) :=
  let l := default [] (failed_attempts !! folder_id) ++ [now] in
  if bool_decide (max_attempts * 2 < length l)%nat
  then <[folder_id := drop (length l - max_attempts) l]> failed_attempts
  else <[folder_id := l]> failed_attempts.

Definition _get_remaining_lockout_time (failed_attempts : gmap string (list Q))
    (folder_id : string) (now : Q) : Z :=
  match failed_attempts !! folder_id with
  | None => 0
  | Some [] => 0
  | Some (a :: l) =>
      let oldest_recent_attempt := list_min a l in
      let elapsed := (now - oldest_recent_attempt)%Q in
      let remaining := (lockout_time - elapsed)%Q in
      Z.max 0 (Qtrunc remaining)
  end.

(** The value of a byte, as [zip] hands it to [x ^ y]. *)
Definition byte_value (b : byte) : Z := Z.of_N (Byte.to_N b).

(** [_constant_time_compare(a, b)] *)
Definition _constant_time_compare (a b : bytes) : bool :=
  if negb (length a =? length b)%nat then false
  else
    let result :=
      fold_left (fun result xy => Z.lor result (Z.lxor (byte_value xy.1) (byte_value xy.2)))
                (zip a b) 0 in
    result =? 0.

End FolderSecurity.

(** [lock_folder(folder_id)], without its timer. *)
Definition lock_folder (folder_id : string) : vault unit :=
  modify (fun w =>
    {| disk := disk w; clock := clock w; rng := rng w; drawn := drawn w;
       manager := manager w; unlocked_folders := delete folder_id (unlocked_folders w);
       filesystem := filesystem w |}).

(** ** Staging the other operations of [vault_core.VaultTransaction] *)

(** [transaction.create_folder(name, parent_id, password, hint, recovery_password)] *)
Definition stage_create_folder (tx : VaultTransaction) (op_id name parent_id : string)
    (password hint recovery_password : option string) : result VaultTransaction :=
  match _state tx with
  | initialized =>
      Ok {| operations := operations tx ++
              [Create_folder op_id name parent_id password hint recovery_password];
            _state := _state tx; _backup_files := _backup_files tx |}
  | _ => Raise (RuntimeError "the transaction was already run")
  end.

(** [transaction.delete_file(file_id)] *)
Definition stage_delete_file (tx : VaultTransaction) (op_id file_id : string)
  : result VaultTransaction :=
  match _state tx with
  | initialized =>
      Ok {| operations := operations tx ++ [Delete_file op_id file_id];
            _state := _state tx; _backup_files := _backup_files tx |}
  | _ => Raise (RuntimeError "the transaction was already run")
  end.

(** ** Vocabulary of the statements *)

(** The credential identifier a configuration is rate-limited under. *)
Definition uid_of (cfg : config) : string := default "default"%string (user_id cfg).

(** The attempt at [t] lies in the lockout window at [now]. *)
Definition in_window (now t : Q) : bool := Qltb (now - t) RecoveryProtection.lockout_time.


(** Every retained attempt of [uid] satisfies [P]. *)
Definition all_attempts (P : Q -> Prop) (fa : gmap string (list Q)) (uid : string) : Prop :=
  Forall P (default [] (fa !! uid)).


(** What the table retains is a suffix of what was recorded, and once
    something was dropped at least [max_attempts] entries remain. *)
Definition retained_inv (uid : string) (trace : list lockout_event) : Prop :=
  let r := default [] (lockout_run trace !! uid) in
  exists pre, recorded_attempts uid trace = pre ++ r /\
    (pre = [] \/ RecoveryProtection.max_attempts <= length r)%nat /\
    (length r <= RecoveryProtection.max_attempts * 2)%nat.

(** The recovery questions [qs] are the ones [cfg] was set up with, and [mk]
    is the master key they protect: [cfg] comes from [create_master_password]
    or from [setup_recovery_questions]. *)
Definition configured_with `{L : CryptoLib} (cfg : config) (qs : list (string * string))
    (mk : bytes) : Prop :=
  (exists password hint e timestamp,
      create_master_password password hint qs e timestamp = Ok (mk, cfg)) \/
  (exists cfg0 password e timestamp,
      get_master_key cfg0 password = Ok mk /\
      setup_recovery_questions cfg0 password qs e timestamp = Ok cfg).

(** The stored recovery blob does not spell the not-configured marker. *)
Definition marker_free (cfg : config) : Prop :=
  forall blob, encrypted_recovery_encoder cfg = Some blob ->
    contains NO_RECOVERY_SETUP blob = false.

(** The number of file entries of the in-memory tree. *)
Definition file_count (d : document) : nat :=
  match d with
  | Doc_tree t => size (default ∅ (files t))
  | _ => 0
  end.

(** The paths on disk below [dir], in the order of the listing. *)
Definition paths_below (dir : string) (w : world) : list string :=
  List.filter (String.prefix (dir +:+ "/")) (map fst (map_to_list (disk w))).

(** [w'] differs from [w] at most in the number of draws made. *)
Definition drew (w w' : world) : Prop :=
  disk w' = disk w /\ clock w' = clock w /\ rng w' = rng w /\
  manager w' = manager w /\ unlocked_folders w' = unlocked_folders w /\
  filesystem w' = filesystem w.

(** The master key container holds [mk] and has handed it out [uses] times. *)
Definition key_loaded (w : world) (mk : bytes) (uses : nat) : Prop :=
  _master_key_container (manager w) = {| _secure_key := Some mk; _key_usage_count := uses |}.

(** The exception of a call to a method [SecureCryptoManager] does not have. *)
Definition missing_helper : exn := AttributeError "_create_secure_temp_file".

(** What [verify_file] reports for one entry: never nothing. *)
Definition verify_file_report (w : world) (entry : string * file_node) : list issue :=
  if String.eqb (vault_filename entry.2) "" || negb (bool_decide (is_Some (disk w !! vault_filename entry.2)))
  then [Ciphertext_missing entry.1]
  else [Check_error entry.1 missing_helper].

(** The backups a listing of [data/backups] finds on a disk. *)
Definition backup_listing (d : gmap string file) : list (Q * string) :=
  omap (fun f =>
          if String.prefix "filesystem_backup_" f
          then (fun fl => (mtime fl, path_join backups_dir f)) <$> d !! path_join backups_dir f
          else None)
       (omap (fun p => strip_prefix (backups_dir +:+ "/") p.1) (map_to_list d)).

(** Where [_backup_corrupted_filesystem] puts its copy at time [now]. *)
Definition quarantine_path (now : Q) : string :=
  path_join backups_dir ("corrupted_filesystem_" +:+ strftime_seconds now +:+ ".bak").

(** The backups of the tree file. *)
Definition is_backup_path (p : string) : Prop :=
  exists name, String.prefix "filesystem_backup_" name = true /\ p = path_join backups_dir name.

(** The paths a save may write or prune: the tree file and its backups. *)
Definition save_touches (p : string) : Prop :=
  p = filesystem_path \/ is_backup_path p.

(** [w'] is [w] after a backup round: only backups were written or pruned. *)
Definition backed_up (w w' : world) : Prop :=
  filesystem w' = filesystem w /\ clock w' = clock w /\ manager w' = manager w /\
  forall p, ~ is_backup_path p -> disk w' !! p = disk w !! p.

(** [w'] is [w] after saves: same tree, clock and entropy, and the same
    files outside the tree file and its backups. *)
Definition saved (w w' : world) : Prop :=
  filesystem w' = filesystem w /\ clock w' = clock w /\
  forall p, ~ save_touches p -> disk w' !! p = disk w !! p.

(** The document sealed in a backup, if the backup is usable under [mk]. *)
Definition sealed_tree `{L : CryptoLib} `{J : JsonLib} (mk blob : bytes) : option document :=
  match Fernet_decrypt mk blob with
  | Some decrypted =>
      match json_loads decrypted with
      | Some (Doc_payload p) =>
          if bool_decide (sha256 (p_data p) = p_checksum p) then json_loads (p_data p) else None
      | _ => None
      end
  | None => None
  end.

(** What a reload recovers on disk [d] at time [now]: the document of the
    most recent backup when that one is usable, a fresh tree otherwise. *)
Definition recovered_tree `{L : CryptoLib} `{J : JsonLib} (mk : bytes) (d : gmap string file) (now : Q) : document :=
  let fresh := Doc_tree (default_tree (isoformat now)) in
  match sort_reverse (backup_listing d) with
  | latest :: _ =>
      match d !! latest.2 with
      | Some fl => default fresh (sealed_tree mk (content fl))
      | None => fresh
      end
  | [] => fresh
  end.

(** ** More vocabulary *)

(** A line feed, as a one-character string. *)
Definition newline : string := String (ascii_of_nat 10) EmptyString.

(** The character class of the [latin_only] pattern. *)
Definition allowed_character (c : ascii) : bool := is_alnum c || is_special c.

(** The operations [_execute_operation] has no method of the vault for. *)
Definition unsupported (op : operation) : bool :=
  match op with
  | Add_file _ _ _ => false
  | _ => true
  end.

(** [m] leaves the disk and the tree in memory as they are, whatever it
    returns. *)
Definition keeps_disk {A} (m : vault A) : Prop :=
  forall w r w', m w = (r, w') -> disk w' = disk w /\ filesystem w' = filesystem w.

(** [w'] has the tree of [w], and its files outside [P]. *)
Definition wrote_only (P : string -> bool) (w w' : world) : Prop :=
  filesystem w' = filesystem w /\ forall p, P p = false -> disk w' !! p = disk w !! p.

(** [m] leaves the tree in memory as it is and changes the disk at most at
    paths that satisfy [P]. *)
Definition writes_only (P : string -> bool) {A} (m : vault A) : Prop :=
  forall w r w', m w = (r, w') -> wrote_only P w w'.

(** The folder of the ciphertext files. *)
Definition in_vault_storage (p : string) : bool := String.prefix "data/encrypted_files/" p.

(** The record a save seals for the tree of [w]. *)
Definition sealed_record `{L : CryptoLib} `{J : JsonLib} (mk : bytes) (w : world) : file :=
  {| content := Fernet_encrypt mk (rng w (drawn w))
       (json_dumps (Doc_payload
          {| p_data := json_dumps (filesystem w);
             p_checksum := sha256 (json_dumps (filesystem w));
             p_timestamp := isoformat (clock w); p_version := "2.0" |}));
     mtime := clock w |}.

(** Where [_create_filesystem_backup] puts its copy at time [now]. *)
Definition backup_path_at (now : Q) : string :=
  path_join backups_dir ("filesystem_backup_" +:+ strftime_seconds now +:+ ".json.enc").

(** ** Sample runs on the reference library *)

Module Sample.

Definition wrap (a b : string) : wrap_entropy := {| w_salt := encode a; w_iv := encode b |}.

Definition entropy : create_entropy :=
  {| e_master_key := encode "master"; e_master_password_encoder_key := encode "pwenc";
     e_recovery_encoder_key := encode "recenc"; e_iv_master := encode "iv1";
     e_iv_recovery := encode "iv2";
     e_password_wrap := wrap "salt1" "iv3"; e_questions_wrap := wrap "salt2" "iv4";
     e_gensalt := encode "gs";
     e_answers := fun i => {| a_salt := encode "as"; a_gensalt := encode "ag" |};
     e_user_id := "5f2c"%string |}.

Definition password : string := "Str0ng!Passw0rd123".
Definition questions : list (string * string) := [("Pet?"%string, "Rex"%string)].
Definition timestamp : string := "2024-01-01T00:00:00".

(** A credential record with one recovery question. *)
Definition created : result (bytes * config) :=
  create_master_password (L := RefLib.lib) password "hint" questions entropy timestamp.

Definition master_key : bytes :=
  match created with Ok (mk, _) => mk | Raise _ => [] end.

Definition cfg : config :=
  match created with Ok (_, c) => c | Raise _ => empty_config end.



(** A credential record whose recovery salt happens to spell the marker. *)
Definition unlucky_entropy : create_entropy :=
  {| e_master_key := e_master_key entropy;
     e_master_password_encoder_key := e_master_password_encoder_key entropy;
     e_recovery_encoder_key := e_recovery_encoder_key entropy;
     e_iv_master := e_iv_master entropy; e_iv_recovery := e_iv_recovery entropy;
     e_password_wrap := e_password_wrap entropy;
     e_questions_wrap := wrap "NO_RECOVERY_SETUP" "iv4";
     e_gensalt := e_gensalt entropy; e_answers := e_answers entropy;
     e_user_id := e_user_id entropy |}.

Definition cfg_unlucky : config :=
  match create_master_password (L := RefLib.lib) password "hint" questions unlucky_entropy
          timestamp with
  | Ok (_, c) => c
  | Raise _ => empty_config
  end.



Definition new_entropy : change_entropy :=
  {| c_encoder_key := encode "pwenc2"; c_iv := encode "iv5";
     c_wrap := wrap "salt3" "iv6"; c_gensalt := encode "gs2" |}.

Definition questions_entropy' : questions_entropy :=
  {| q_encoder_key := encode "recenc2"; q_iv := encode "iv7";
     q_wrap := wrap "salt4" "iv8";
     q_answers := fun i => {| a_salt := encode "as2"; a_gensalt := encode "ag2" |} |}.


Definition new_password : string := "An0ther!Passw0rd456".

Definition changed : result (bytes * config) :=
  change_master_password (L := RefLib.lib) cfg password new_password "hint2" new_entropy timestamp.

Definition cfg_changed : config :=
  match changed with Ok (_, c) => c | Raise _ => empty_config end.

(** The password changed to itself. *)
Definition changed_same : result (bytes * config) :=
  change_master_password (L := RefLib.lib) cfg password password "hint2" new_entropy timestamp.

Definition cfg_changed_same : config :=
  match changed_same with Ok (_, c) => c | Raise _ => empty_config end.

(** The recovery questions set again through [setup_recovery_questions]. *)
Definition reconfigured : result config :=
  setup_recovery_questions (L := RefLib.lib) cfg password
    [("City?"%string, "Paris"%string)] questions_entropy' timestamp.

Definition cfg_reconfigured : config :=
  match reconfigured with Ok c => c | Raise _ => empty_config end.

End Sample.

Module SampleVault.

Definition master_key : bytes :=
  Fernet_generate_key (CryptoLib := RefLib.lib) (encode "master").

Definition entropy : nat -> bytes := fun i => encode (pretty i).

(** A vault opened on an empty disk at time 1000, and a plaintext next to it. *)
Definition opened : world :=
  (open_vault (L := RefLib.lib) (J := RefLib.json) master_key ∅ 1000 entropy).2.

Definition before_commit : world :=
  set_disk (insert "a.txt"%string {| content := encode "hello"; mtime := 5 |}) opened.

Definition stage (tx : result VaultTransaction) (op_id file_path : string)
  : result VaultTransaction :=
  tx ← tx; stage_add_file tx op_id file_path "root".

(** Three staged adds, the second of a file that does not exist. *)
Definition staged : VaultTransaction :=
  match stage (stage (stage (Ok begin_transaction) "op1" "a.txt") "op2" "missing.txt")
          "op3" "a.txt" with
  | Ok tx => tx
  | Raise _ => begin_transaction
  end.

Definition committed_run : result (list (string * string)) * VaultTransaction * world :=
  commit (L := RefLib.lib) (J := RefLib.json) staged before_commit.

End SampleVault.

Module SampleFiles.

(** One byte more than 10 MiB of zeros. *)
Definition big : file :=
  {| content := replicate (Z.to_nat (ten_MiB + 1)) x00; mtime := 5 |}.

(** A fresh crypto manager next to that file. *)
Definition world_with_big_file : world :=
  {| disk := {[ "big.bin"%string := big ]}; clock := 1000; rng := SampleVault.entropy;
     drawn := 0; manager := new_manager SampleVault.master_key; unlocked_folders := ∅;
     filesystem := Doc_tree (default_tree "2024-01-01T00:00:00") |}.

(** Eight MiB of zeros: at most 10 MiB, with a ciphertext above 10 MiB. *)
Definition mid : file :=
  {| content := replicate (Z.to_nat (8 * 1024 * 1024)) x00; mtime := 5 |}.

Definition world_with_mid_file : world :=
  {| disk := {[ "mid.bin"%string := mid ]}; clock := 1000; rng := SampleVault.entropy;
     drawn := 0; manager := new_manager SampleVault.master_key; unlocked_folders := ∅;
     filesystem := Doc_tree (default_tree "2024-01-01T00:00:00") |}.

Definition world_with_small_files : world :=
  {| disk := {[ "a.txt"%string := {| content := encode "hello"; mtime := 5 |};
                "empty.txt"%string := {| content := []; mtime := 6 |} ]};
     clock := 1000; rng := SampleVault.entropy;
     drawn := 0; manager := new_manager SampleVault.master_key; unlocked_folders := ∅;
     filesystem := Doc_tree (default_tree "2024-01-01T00:00:00") |}.

End SampleFiles.

Module SampleReload.

Definition at_time (now : Q) (w : world) : world :=
  {| disk := disk w; clock := now; rng := rng w; drawn := drawn w; manager := manager w;
     unlocked_folders := unlocked_folders w; filesystem := filesystem w |}.

(** The sample vault with one file added, saved at time 1500. *)
Definition saved_with_one_file : world :=
  let added := (_transactional_add_file (L := RefLib.lib) (J := RefLib.json)
                  "a.txt" "root" SampleVault.before_commit).2 in
  (_save_filesystem (L := RefLib.lib) (J := RefLib.json) (at_time 1500 added)).2.

Definition garbage : file := {| content := encode "garbage"; mtime := 1600 |}.

(** The tree file overwritten with garbage. *)
Definition disk_garbled : gmap string file :=
  <[filesystem_path := garbage]> (disk saved_with_one_file).


(** Garbage in the tree file and in a backup newer than the good ones. *)
Definition disk_garbled_twice : gmap string file :=
  <[path_join backups_dir "filesystem_backup_1700.json.enc" :=
      {| content := encode "garbage"; mtime := 1700 |}]> disk_garbled.

Definition reopen (d : gmap string file) : result unit * world :=
  open_vault (L := RefLib.lib) (J := RefLib.json) SampleVault.master_key d 2000
    SampleVault.entropy.

End SampleReload.

Module SampleKeys.

(** A folder key, and the sample world with that key registered. *)
Definition folder_key : bytes :=
  Fernet_generate_key (CryptoLib := RefLib.lib) (encode "folder").

Definition registered : world :=
  (register_key "folder1" folder_key SampleFiles.world_with_small_files).2.

(** A ciphertext file that holds junk, next to an older output file. *)
Definition world_with_junk : world :=
  {| disk := {[ "junk.myarc"%string :=
                  {| content := [x00; x00; x00; x02] ++ encode "junk"; mtime := 5 |};
                "out.txt"%string := {| content := encode "old"; mtime := 4 |} ]};
     clock := 1000; rng := SampleVault.entropy;
     drawn := 0; manager := new_manager SampleVault.master_key; unlocked_folders := ∅;
     filesystem := Doc_tree (default_tree "2024-01-01T00:00:00") |}.

End SampleKeys.

Module SampleTree.

(** A tree with a file in a folder that does not exist and a root folder
    that lists a child that does not exist. *)
Definition broken : tree :=
  {| files := Some {[ "f1"%string :=
       {| node_id := "f1"; original_name := "a.txt"; encrypted_name := "a.txt";
          vault_filename := encrypted_files_path "f1"; folder_id := "gone";
          file_size := 5; added_at := "2024-01-01T00:00:00"; file_type := "text";
          hash := None |} ]};
     folders := Some {[ "root"%string :=
       {| folder_node_id := "root"; name := "Root folder";
          folder_encrypted_name := "Root folder"; parent := None;
          children := ["f1"; "ghost"]%string;
          folder_created_at := "2024-01-01T00:00:00"; is_locked := false |} ]};
     version := Some "2.0"%string;
     tree_created_at := Some "2024-01-01T00:00:00"%string |}.

Definition world : world :=
  set_filesystem (Doc_tree broken) SampleFiles.world_with_small_files.

End SampleTree.

Module SampleTx.

(** A transaction that stages one file deletion. *)
Definition with_delete : VaultTransaction :=
  match stage_delete_file begin_transaction "op1" "f1" with
  | Ok tx => tx
  | Raise _ => begin_transaction
  end.

(** A transaction that stages one add of a file that exists. *)
Definition with_add : VaultTransaction :=
  match stage_add_file begin_transaction "op1" "a.txt" "root" with
  | Ok tx => tx
  | Raise _ => begin_transaction
  end.

End SampleTx.

(** * Proofs *)

Import RecoveryProtection.

Lemma result_bind_inv {A B} (m : result A) (f : A -> result B) (b : B) :
  m ≫= f = Ok b -> exists a, m = Ok a /\ f a = Ok b.
Proof. destruct m as [a|e]; simpl; [eauto|done]. Qed.

(** ** Time and the lockout table *)

Lemma Qltb_true a b : Qltb a b = true <-> (a < b)%Q.
Proof.
  unfold Qltb. rewrite negb_true_iff. split.
  - intros H. apply Qnot_le_lt. intros Hle. apply Qle_bool_iff in Hle. congruence.
  - intros H. destruct (Qle_bool b a) eqn:E; [|done].
    apply Qle_bool_iff in E. exfalso. apply (Qlt_not_le _ _ H E).
Qed.

Lemma Qltb_false a b : Qltb a b = false <-> (b <= a)%Q.
Proof. unfold Qltb. rewrite negb_false_iff. apply Qle_bool_iff. Qed.




Lemma recent_none now l :
  Forall (fun t => in_window now t = false) l -> recent_attempts now l = [].
Proof.
  induction 1 as [|t l Ht _ IH]; simpl; [done|].
  unfold in_window in Ht. by rewrite Ht.
Qed.


Lemma lockout_run_snoc trace ev :
  lockout_run (trace ++ [ev]) = lockout_step (lockout_run trace) ev.
Proof. unfold lockout_run. by rewrite fold_left_app. Qed.

Lemma recorded_attempts_snoc uid trace ev :
  recorded_attempts uid (trace ++ [ev]) = recorded_step uid (recorded_attempts uid trace) ev.
Proof. unfold recorded_attempts. by rewrite fold_left_app. Qed.

Lemma stamps_snoc_record trace u t :
  stamps (trace ++ [Record_attempt u t]) = stamps trace ++ [t].
Proof. unfold stamps. by rewrite omap_app. Qed.

Lemma stamps_snoc_clear trace u :
  stamps (trace ++ [Clear_attempts u]) = stamps trace.
Proof. unfold stamps. rewrite omap_app. simpl. by rewrite app_nil_r. Qed.

Lemma record_attempt_lookup fa u t :
  record_attempt fa u t !! u =
    Some (let l := default [] (fa !! u) ++ [t] in
          if bool_decide (max_attempts * 2 < length l)%nat then last_attempts l else l).
Proof.
  unfold record_attempt. simpl. case_bool_decide; by rewrite lookup_insert_eq.
Qed.

Lemma record_attempt_lookup_ne fa u u' t :
  u ≠ u' -> record_attempt fa u t !! u' = fa !! u'.
Proof.
  intros. unfold record_attempt. simpl. case_bool_decide; by rewrite lookup_insert_ne.
Qed.

(** The timestamps recorded for one identifier are among the clock readings. *)
Lemma recorded_attempts_stamps uid trace :
  recorded_attempts uid trace ⊆ stamps trace.
Proof.
  induction trace as [|ev trace IH] using rev_ind; [done|].
  rewrite recorded_attempts_snoc. destruct ev as [u t | u]; simpl.
  - rewrite stamps_snoc_record. case_bool_decide; set_solver.
  - rewrite stamps_snoc_clear. case_bool_decide; set_solver.
Qed.


Lemma retained_invariant uid trace : retained_inv uid trace.
Proof.
  unfold retained_inv.
  induction trace as [|ev trace IH] using rev_ind.
  - exists []. unfold lockout_run, recorded_attempts. simpl. rewrite lookup_empty.
    simpl. split_and!; [done|by left|lia].
  - destruct IH as (pre & Hh & Hpre & Hlen).
    rewrite lockout_run_snoc, recorded_attempts_snoc.
    destruct ev as [u t | u]; simpl.
    + case_bool_decide as Hu.
      * subst u. rewrite record_attempt_lookup. cbn zeta.
        set (r := default [] (lockout_run trace !! uid)) in *.
        case_bool_decide as Hlong; simpl.
        -- unfold last_attempts.
           exists (pre ++ take (length (r ++ [t]) - max_attempts) (r ++ [t])).
           rewrite Hh, <- !app_assoc. rewrite take_drop.
           assert (Hd : length (drop (length (r ++ [t]) - max_attempts) (r ++ [t])) = max_attempts).
           { rewrite length_drop. unfold max_attempts in *. lia. }
           rewrite Hd. split_and!; [done|by right|unfold max_attempts; lia].
        -- exists pre. rewrite Hh, app_assoc. split_and!; [done| |].
           ++ destruct Hpre as [->|]; [by left|right]. rewrite length_app. lia.
           ++ unfold max_attempts in *. lia.
      * rewrite record_attempt_lookup_ne by done. eauto.
    + unfold clear_attempts. case_bool_decide as Hu.
      * subst u. rewrite lookup_delete_eq. exists []. simpl. split_and!; [done|by left|lia].
      * rewrite lookup_delete_ne by done. eauto.
Qed.












Lemma not_locked_when_expired fa uid now :
  all_attempts (fun t => (lockout_time <= now - t)%Q) fa uid ->
  is_locked_out fa uid now = false.
Proof.
  unfold all_attempts, is_locked_out. intros Ha.
  destruct (fa !! uid) as [l|]; [|done]. simpl in Ha.
  rewrite recent_none; [done|].
  eapply Forall_impl; [exact Ha|]. simpl. intros t Ht.
  unfold in_window. by apply Qltb_false.
Qed.

Lemma Qtrunc_le x (n : Z) : 0 <= n -> (x <= inject_Z n)%Q -> Qtrunc x <= n.
Proof.
  destruct x as [p q]. unfold Qle, Qtrunc. simpl. intros Hn H.
  destruct (Z_lt_le_dec p 0) as [Hp | Hp].
  - assert (H0 : 0 <= Z.quot (- p) (Z.pos q)) by (apply Z.quot_pos; lia).
    rewrite Z.quot_opp_l in H0 by lia. lia.
  - rewrite Z.quot_div_nonneg by lia. apply Z.div_le_upper_bound; lia.
Qed.


Lemma list_min_in a l : list_min a l ∈ a :: l.
Proof.
  unfold list_min. revert a. induction l as [|b l IH]; intros a; simpl; [set_solver|].
  destruct (Qltb b a).
  - pose proof (IH b). set_solver.
  - pose proof (IH a). set_solver.
Qed.



Lemma sleep_until_floor_ge start elapsed_at floor :
  (start + floor <= sleep_until_floor start elapsed_at floor)%Q.
Proof.
  unfold sleep_until_floor. destruct (Qltb _ _) eqn:E.
  - lra.
  - apply Qltb_false in E. lra.
Qed.

(** ** recover_master_key, case by case *)

Section Recover.
Context `{L : CryptoLib}.


Lemma recover_failed cfg fa answers now work :
  returned (recover_master_key cfg fa answers now work) = Raise bad_answers ->
  is_locked_out fa (uid_of cfg) now = false /\
  (attempts_after (recover_master_key cfg fa answers now work)
     = record_attempt fa (uid_of cfg) (now + work) \/
   attempts_after (recover_master_key cfg fa answers now work)
     = record_attempt (record_attempt fa (uid_of cfg) now) (uid_of cfg) (now + work)) /\
  finished_at (recover_master_key cfg fa answers now work)
     = sleep_until_floor now (now + work) 1.
Proof.
  unfold recover_master_key. fold (uid_of cfg).
  destruct (is_locked_out fa (uid_of cfg) now); [done|].
  destruct (recover_master_key_body cfg answers) as [[[]|mk]|e]; simpl; try done; eauto.
Qed.

Lemma recover_succeeded cfg fa answers now work mk :
  returned (recover_master_key cfg fa answers now work) = Ok mk ->
  is_locked_out fa (uid_of cfg) now = false /\
  recover_master_key_body cfg answers = Ok (inr mk) /\
  attempts_after (recover_master_key cfg fa answers now work) = clear_attempts fa (uid_of cfg) /\
  finished_at (recover_master_key cfg fa answers now work) = (now + work)%Q.
Proof.
  unfold recover_master_key. fold (uid_of cfg).
  destruct (is_locked_out fa (uid_of cfg) now); [done|].
  destruct (recover_master_key_body cfg answers) as [[[]|mk']|e]; simpl; try done.
  by intros [= ->].
Qed.

Lemma recover_refused cfg fa answers now work remaining :
  returned (recover_master_key cfg fa answers now work) = Raise (LockedOut remaining) ->
  is_locked_out fa (uid_of cfg) now = true /\
  attempts_after (recover_master_key cfg fa answers now work) = fa /\
  finished_at (recover_master_key cfg fa answers now work) = now.
Proof.
  unfold recover_master_key. fold (uid_of cfg).
  destruct (is_locked_out fa (uid_of cfg) now); [done|].
  destruct (recover_master_key_body cfg answers) as [[[]|mk']|e]; simpl; done.
Qed.

Lemma recover_unlocked_ok cfg fa answers now work mk :
  is_locked_out fa (uid_of cfg) now = false ->
  recover_master_key_body cfg answers = Ok (inr mk) ->
  recover_master_key cfg fa answers now work =
    {| returned := Ok mk; attempts_after := clear_attempts fa (uid_of cfg);
       finished_at := (now + work)%Q |}.
Proof. intros Hl Hb. unfold recover_master_key. fold (uid_of cfg). by rewrite Hl, Hb. Qed.

Lemma recover_unconfigured cfg fa answers now work blob :
  encrypted_recovery_encoder cfg = Some blob ->
  contains NO_RECOVERY_SETUP blob = true ->
  is_locked_out fa (uid_of cfg) now = false ->
  recover_master_key cfg fa answers now work =
    {| returned := Raise bad_answers;
       attempts_after :=
         record_attempt (record_attempt fa (uid_of cfg) now) (uid_of cfg) (now + work);
       finished_at := sleep_until_floor now (now + work) 1 |}.
Proof.
  intros Hb Hm Hl. unfold recover_master_key. fold (uid_of cfg). rewrite Hl.
  unfold recover_master_key_body. rewrite Hb. simpl. by rewrite Hm.
Qed.



End Recover.

(** ** Wrapping and unwrapping keys *)

Lemma token_bytes_length n e : length (token_bytes n e) = n.
Proof.
  unfold token_bytes. rewrite length_take, length_app, length_replicate. lia.
Qed.

Lemma encode_inj s1 s2 : encode s1 = encode s2 -> s1 = s2.
Proof.
  unfold encode. intros H.
  rewrite <- (string_of_list_byte_of_string s1), <- (string_of_list_byte_of_string s2).
  by rewrite H.
Qed.

Lemma contains_suffix needle pre : contains needle (pre ++ needle) = true.
Proof.
  assert (Hp : forall l, is_prefix_of l l = true).
  { induction l as [|a l IH]; simpl; [done|]. by rewrite bool_decide_eq_true_2, IH. }
  induction pre as [|a pre IH]; simpl.
  - destruct needle; simpl; [done|]. by rewrite bool_decide_eq_true_2, Hp.
  - rewrite IH. apply orb_true_r.
Qed.

Section Wrap.
Context `{L : CryptoLib}.
Hypothesis Hcorrect : Fernet_correct L.
Hypothesis Hkeys : Fernet_keys_ok L.

Lemma fernet_encrypt_ok k r d :
  Fernet_key_ok k = true -> fernet_encrypt k r d = Ok (Fernet_encrypt k r d).
Proof. intros H. unfold fernet_encrypt, Fernet. by rewrite H. Qed.

Lemma fernet_decrypt_encrypt k r d :
  Fernet_key_ok k = true -> fernet_decrypt k (Fernet_encrypt k r d) = Ok d.
Proof.
  intros H. unfold fernet_decrypt, Fernet, Fernet_decrypt_or_raise. rewrite H. simpl.
  by rewrite Hcorrect.
Qed.

Lemma generated_key_ok r : Fernet_key_ok (Fernet_generate_key r) = true.
Proof. apply Hkeys. Qed.

Lemma password_key_ok pw s : Fernet_key_ok (_derive_key_from_password pw s) = true.
Proof. apply Hkeys. Qed.

Lemma recovery_key_ok a s : Fernet_key_ok (_derive_strong_recovery_key a s) = true.
Proof. apply Hkeys. Qed.

Lemma encrypt_with_password_ok data pw e :
  _encrypt_with_password data pw e =
    Ok (token_bytes 32 (w_salt e) ++
        Fernet_encrypt (_derive_key_from_password pw (token_bytes 32 (w_salt e))) (w_iv e) data).
Proof.
  unfold _encrypt_with_password. by rewrite fernet_encrypt_ok by apply password_key_ok.
Qed.

Lemma encrypt_with_questions_ok data (qs : list (string * string)) e :
  qs ≠ [] ->
  _encrypt_with_questions data qs e =
    Ok (token_bytes 32 (w_salt e) ++
        Fernet_encrypt (_derive_strong_recovery_key (String.concat "" (map snd qs))
                          (token_bytes 32 (w_salt e))) (w_iv e) data).
Proof.
  intros Hq. unfold _encrypt_with_questions. destruct qs; [done|].
  by rewrite fernet_encrypt_ok by apply recovery_key_ok.
Qed.

(** The password path unwraps what [_encrypt_with_password] wrapped. *)
Lemma password_path_unwraps cfg pw e ek iv mk :
  Fernet_key_ok ek = true ->
  encrypted_master_password_encoder cfg =
    Some (token_bytes 32 (w_salt e) ++
          Fernet_encrypt (_derive_key_from_password pw (token_bytes 32 (w_salt e))) (w_iv e) ek) ->
  encrypted_master_key cfg = Some (Fernet_encrypt ek iv mk) ->
  get_master_key_body cfg pw = Ok mk.
Proof.
  intros Hek He Hm. unfold get_master_key_body. rewrite He, Hm. simpl.
  rewrite take_app_length', drop_app_length' by (by rewrite token_bytes_length).
  rewrite fernet_decrypt_encrypt by apply password_key_ok. simpl.
  by rewrite fernet_decrypt_encrypt.
Qed.

(** The recovery path unwraps what [_encrypt_with_questions] wrapped, unless
    the stored salt and token spell the not-configured marker. *)
Lemma recovery_path_unwraps cfg (qs : list (string * string)) e ek iv mk :
  Fernet_key_ok ek = true ->
  qs ≠ [] ->
  Ok <$> encrypted_recovery_encoder cfg = Some (_encrypt_with_questions ek qs e) ->
  marker_free cfg ->
  encrypted_recovery_key cfg = Some (Fernet_encrypt ek iv mk) ->
  recover_master_key_body cfg (map snd qs) = Ok (inr mk).
Proof.
  intros Hek Hq He Hn Hm. rewrite encrypt_with_questions_ok in He by done.
  destruct (encrypted_recovery_encoder cfg) as [blob|] eqn:Hb; [|done].
  injection He as He. specialize (Hn blob Hb). subst blob.
  unfold recover_master_key_body. rewrite Hb, Hm. simpl. rewrite Hn.
  rewrite take_app_length', drop_app_length' by (by rewrite token_bytes_length).
  rewrite fernet_decrypt_encrypt by apply recovery_key_ok. simpl.
  by rewrite fernet_decrypt_encrypt.
Qed.

Lemma create_master_password_inv pw hint qs e ts mk cfg :
  create_master_password pw hint qs e ts = Ok (mk, cfg) ->
  let ek := Fernet_generate_key (e_master_password_encoder_key e) in
  let rk := Fernet_generate_key (e_recovery_encoder_key e) in
  mk = Fernet_generate_key (e_master_key e) /\
  master_password_hash cfg = Some (bcrypt_hashpw (encode pw) (e_gensalt e)) /\
  encrypted_master_key cfg = Some (Fernet_encrypt ek (e_iv_master e) mk) /\
  encrypted_recovery_key cfg = Some (Fernet_encrypt rk (e_iv_recovery e) mk) /\
  encrypted_master_password_encoder cfg =
    Some (token_bytes 32 (w_salt (e_password_wrap e)) ++
          Fernet_encrypt (_derive_key_from_password pw (token_bytes 32 (w_salt (e_password_wrap e))))
            (w_iv (e_password_wrap e)) ek) /\
  Ok <$> encrypted_recovery_encoder cfg = Some (_encrypt_with_questions rk qs (e_questions_wrap e)) /\
  recovery_questions cfg = Some (hash_recovery_answers 0 (e_answers e) qs) /\
  user_id cfg = Some (e_user_id e).
Proof.
  unfold create_master_password. destruct (_validate_password_strength pw); [done|].
  rewrite !fernet_encrypt_ok by apply generated_key_ok. simpl.
  rewrite encrypt_with_password_ok. simpl.
  destruct (_encrypt_with_questions _ qs _) as [blob|] eqn:E; simpl; [|done].
  intros [= <- <-]. simpl. split_and!; done.
Qed.

Lemma get_master_key_inv cfg pw mk :
  get_master_key cfg pw = Ok mk ->
  exists h, master_password_hash cfg = Some h /\
    bcrypt_checkpw (encode pw) h = true /\ get_master_key_body cfg pw = Ok mk.
Proof.
  unfold get_master_key, verify_master_password.
  destruct (master_password_hash cfg) as [h|]; simpl; [|done].
  destruct (bcrypt_checkpw (encode pw) h) eqn:Hc; simpl; [|done].
  destruct (get_master_key_body cfg pw) as [mk'|]; [|done].
  intros [= ->]. eauto.
Qed.

Lemma setup_recovery_questions_inv cfg0 pw qs e ts cfg :
  setup_recovery_questions cfg0 pw qs e ts = Ok cfg ->
  let rk := Fernet_generate_key (q_encoder_key e) in
  exists mk, get_master_key cfg0 pw = Ok mk /\
  encrypted_recovery_key cfg = Some (Fernet_encrypt rk (q_iv e) mk) /\
  Ok <$> encrypted_recovery_encoder cfg = Some (_encrypt_with_questions rk qs (q_wrap e)) /\
  recovery_questions cfg = Some (hash_recovery_answers 0 (q_answers e) qs) /\
  user_id cfg = user_id cfg0.
Proof.
  unfold setup_recovery_questions.
  destruct (get_master_key cfg0 pw) as [mk|]; simpl; [|done].
  rewrite fernet_encrypt_ok by apply generated_key_ok. simpl.
  destruct (_encrypt_with_questions _ qs _) as [blob|] eqn:E; simpl; [|done].
  intros [= <-]. simpl. exists mk. split_and!; done.
Qed.

(** Correct answers unwrap the recovery path of a record set up with them. *)
Lemma configured_recovery_unwraps cfg qs mk :
  configured_with cfg qs mk -> qs ≠ [] -> marker_free cfg ->
  recover_master_key_body cfg (map snd qs) = Ok (inr mk).
Proof.
  intros [(pw & hint & e & ts & Hc) | (cfg0 & pw & e & ts & Hg & Hs)] Hq Hm.
  - apply create_master_password_inv in Hc as (-> & _ & _ & Hrk & _ & Hre & _).
    eapply recovery_path_unwraps; [apply generated_key_ok|done|exact Hre|done|exact Hrk].
  - apply setup_recovery_questions_inv in Hs as (mk' & Hg' & Hrk & Hre & _).
    rewrite Hg in Hg'. injection Hg' as <-.
    eapply recovery_path_unwraps; [apply generated_key_ok|done|exact Hre|done|exact Hrk].
Qed.
End Wrap.

(** ** The reference library satisfies the contracts *)

Module RefLibFacts.
Import RefLib.

Lemma dec_pos_enc_pos p rest : dec_pos (enc_pos p ++ rest) = Some (p, rest).
Proof. induction p as [p IH|p IH|]; simpl; by rewrite ?IH. Qed.

Lemma dec_len_enc_len n rest : dec_len (enc_len n ++ rest) = Some (n, rest).
Proof.
  destruct n as [|p]; simpl; [done|].
  unfold dec_len. rewrite dec_pos_enc_pos.
  destruct p; simpl; done.
Qed.

Lemma dec_pos_truncated p (n : nat) :
  (n < length (enc_pos p))%nat -> dec_pos (take n (enc_pos p)) = None.
Proof.
  revert n. induction p as [p IH|p IH|]; intros [|n] Hn; simpl in *; try done; try lia.
  - rewrite IH by lia. done.
  - rewrite IH by lia. done.
Qed.

Lemma dec_len_truncated m (n : nat) :
  (n < length (enc_len m))%nat -> dec_len (take n (enc_len m)) = None.
Proof.
  destruct m as [|p]; simpl.
  - intros Hn. assert (n = 0%nat) as -> by lia. done.
  - intros Hn. unfold dec_len. rewrite dec_pos_truncated by done.
    destruct n as [|n]; [done|]. destruct p; simpl; done.
Qed.

Lemma enc_pos_length p : (3 * length (enc_pos p) <= Pos.to_nat p + 6)%nat.
Proof.
  induction p as [p IH|p IH|]; simpl length; [| |simpl; lia].
  - rewrite Pos2Nat.inj_xI. pose proof (Pos2Nat.is_pos p).
    destruct p as [q|q|]; [| |simpl; lia].
    + rewrite Pos2Nat.inj_xI in *. lia.
    + rewrite Pos2Nat.inj_xO in *. pose proof (Pos2Nat.is_pos q). lia.
  - rewrite Pos2Nat.inj_xO. pose proof (Pos2Nat.is_pos p).
    destruct p as [q|q|]; [| |simpl; lia].
    + rewrite Pos2Nat.inj_xI in *. lia.
    + rewrite Pos2Nat.inj_xO in *. pose proof (Pos2Nat.is_pos q).
      destruct q; simpl in *; lia.
Qed.

Lemma enc_len_length n : (3 * length (enc_len (N.of_nat n)) <= n + 6)%nat.
Proof.
  destruct n as [|n]; [simpl; lia|].
  simpl. pose proof (enc_pos_length (Pos.of_succ_nat n)). lia.
Qed.

Lemma token_len_lower n : 0 <= n -> 4 * n + 232 <= 3 * fernet_token_len n.
Proof.
  intros Hn. unfold fernet_token_len.
  pose proof (Z.div_mod n 16 ltac:(lia)).
  pose proof (Z.mod_pos_bound n 16 ltac:(lia)).
  pose proof (Z.div_mod (73 + 16 * (n / 16) + 2) 3 ltac:(lia)).
  pose proof (Z.mod_pos_bound (73 + 16 * (n / 16) + 2) 3 ltac:(lia)).
  lia.
Qed.

Lemma encrypt_length k r p :
  key_ok k = true ->
  Z.of_nat (length (encrypt k r p)) = fernet_token_len (Z.of_nat (length p)).
Proof.
  unfold key_ok, encrypt. intros Hk%Nat.eqb_eq.
  rewrite !length_app, length_replicate, ?length_app.
  pose proof (enc_len_length (length p)).
  pose proof (token_len_lower (Z.of_nat (length p)) ltac:(lia)).
  lia.
Qed.

Lemma decrypt_encrypt k r p : key_ok k = true -> decrypt k (encrypt k r p) = Some p.
Proof.
  intros Hk. unfold decrypt.
  pose proof (encrypt_length k r p Hk) as Hlen.
  unfold encrypt in *. rewrite <- !app_assoc. rewrite dec_len_enc_len.
  rewrite <- !app_assoc in Hlen. rewrite Hlen, nat_N_Z, Z.eqb_refl. simpl.
  apply Nat.eqb_eq in Hk.
  rewrite take_app_length' by done. rewrite bool_decide_eq_true_2 by done.
  rewrite drop_app_length' by done. rewrite Nat2N.id.
  by rewrite take_app_length' by done.
Qed.

Lemma decrypt_truncated k k' r p (n : nat) :
  key_ok k = true -> (n < length (encrypt k r p))%nat ->
  decrypt k' (take n (encrypt k r p)) = None.
Proof.
  intros Hk Hn. pose proof (encrypt_length k r p Hk) as Hlen.
  unfold decrypt. unfold encrypt in *. rewrite <- !app_assoc in *.
  set (hdr := enc_len (N.of_nat (length p))) in *.
  set (rest := k ++ p ++ replicate _ x00) in *.
  destruct (decide (n < length hdr)%nat) as [Hh | Hh].
  - rewrite take_app_le by lia. subst hdr. by rewrite dec_len_truncated.
  - rewrite take_app_ge by lia. subst hdr. rewrite dec_len_enc_len.
    rewrite nat_N_Z, <- Hlen.
    rewrite (proj2 (Z.eqb_neq _ _)); [done|].
    rewrite length_app, length_take, length_app in *. lia.
Qed.

Lemma b64_length raw : length (b64 raw) = (length raw + 12)%nat.
Proof. unfold b64. by rewrite length_app, length_replicate. Qed.

Lemma pbkdf2_length alg len salt it km : length (pbkdf2 alg len salt it km) = len.
Proof.
  unfold pbkdf2. rewrite length_take, !length_app, length_replicate. lia.
Qed.

Lemma Fernet_correct_ref : Fernet_correct lib.
Proof. intros k r p Hk. by apply decrypt_encrypt. Qed.

Lemma Fernet_keys_ok_ref : Fernet_keys_ok lib.
Proof.
  split; simpl.
  - intros r. unfold key_ok, generate_key. rewrite b64_length, token_bytes_length. done.
  - intros alg salt it s. unfold key_ok. rewrite b64_length, pbkdf2_length. done.
Qed.

Lemma Fernet_framing_ref : Fernet_framing lib.
Proof. intros k r p Hk. by apply encrypt_length. Qed.

Lemma Fernet_rejects_truncation_ref : Fernet_rejects_truncation lib.
Proof. intros k k' r p n Hk Hn. by apply decrypt_truncated. Qed.

Lemma bcrypt_complete_ref : bcrypt_complete lib.
Proof.
  intros p s. cbn [bcrypt_checkpw bcrypt_hashpw lib]. unfold checkpw, hashpw.
  rewrite take_app_length' by (by rewrite token_bytes_length).
  apply andb_true_iff. split; [by apply bool_decide_eq_true_2|].
  apply Nat.leb_le. rewrite length_app, token_bytes_length. lia.
Qed.

Lemma bcrypt_binding_ref : bcrypt_binding lib.
Proof.
  intros p p' s. cbn [bcrypt_checkpw bcrypt_hashpw lib]. unfold checkpw, hashpw.
  rewrite take_app_length' by (by rewrite token_bytes_length).
  intros [H _]%andb_true_iff. apply bool_decide_eq_true in H.
  by apply app_inv_head in H.
Qed.
Lemma Fernet_key_length_ref : Fernet_key_length lib.
Proof. intros k Hk. cbn in Hk. unfold key_ok in Hk. by apply Nat.eqb_eq in Hk. Qed.

End RefLibFacts.

Module RefJsonFacts.
Import RefLib.

Lemma g_opt_roundtrip {A} (f : A -> gen_tree leaf) f_inv (o : option A) :
  (forall a, f_inv (f a) = Some a) -> g_opt_inv f_inv (g_opt f o) = Some o.
Proof. intros H. destruct o as [a|]; simpl; [by rewrite H|done]. Qed.

Lemma g_list_roundtrip {A} (f : A -> gen_tree leaf) f_inv (l : list A) :
  (forall a, f_inv (f a) = Some a) -> g_list_inv f_inv (g_list f l) = Some l.
Proof.
  intros H. unfold g_list_inv, g_list. apply mapM_Some.
  induction l as [|a l IH]; simpl; constructor; [apply H|apply IH].
Qed.

Lemma g_map_roundtrip {A} (f : A -> gen_tree leaf) f_inv (m : gmap string A) :
  (forall a, f_inv (f a) = Some a) -> g_map_inv f_inv (g_map f m) = Some m.
Proof.
  intros H. unfold g_map_inv, g_map. rewrite g_list_roundtrip.
  - simpl. by rewrite list_to_map_to_list.
  - intros [k v]. simpl. by rewrite H.
Qed.

Lemma g_file_node_roundtrip n : g_file_node_inv (g_file_node n) = Some n.
Proof.
  destruct n. unfold g_file_node, g_file_node_inv. cbn -[g_opt g_opt_inv g_list g_list_inv].
  rewrite (g_opt_roundtrip _ g_bytes_inv) by done. done.
Qed.

Lemma g_folder_node_roundtrip n : g_folder_node_inv (g_folder_node n) = Some n.
Proof.
  destruct n. unfold g_folder_node, g_folder_node_inv. cbn -[g_opt g_opt_inv g_list g_list_inv].
  rewrite (g_opt_roundtrip _ g_str_inv) by done. cbn -[g_list g_list_inv].
  rewrite (g_list_roundtrip _ g_str_inv) by done. done.
Qed.

Lemma g_tree_roundtrip t : g_tree_inv (g_tree t) = Some t.
Proof.
  destruct t. unfold g_tree, g_tree_inv. cbn -[g_opt g_opt_inv g_map g_map_inv].
  rewrite (g_opt_roundtrip _ (g_map_inv g_file_node_inv))
    by (intros; apply g_map_roundtrip, g_file_node_roundtrip).
  cbn -[g_opt g_opt_inv g_map g_map_inv].
  rewrite (g_opt_roundtrip _ (g_map_inv g_folder_node_inv))
    by (intros; apply g_map_roundtrip, g_folder_node_roundtrip).
  cbn -[g_opt g_opt_inv g_map g_map_inv].
  rewrite !(g_opt_roundtrip _ g_str_inv) by done. done.
Qed.

Lemma g_document_roundtrip d : g_document_inv (g_document d) = Some d.
Proof.
  destruct d as [t|[]|v]; [|done..].
  unfold g_document, g_document_inv. by rewrite g_tree_roundtrip.
Qed.

Lemma json_roundtrip_ref : json_roundtrip json.
Proof.
  intros d. cbn [json_loads json_dumps json]. unfold loads, dumps.
  rewrite <- (app_nil_r (enc_pos _)), RefLibFacts.dec_pos_enc_pos.
  rewrite decode_encode. simpl. apply g_document_roundtrip.
Qed.
End RefJsonFacts.

(** ** Running the vault monad *)

Lemma drew_refl w : drew w w.
Proof. by repeat split. Qed.

Lemma drew_draw w w' : drew (set_drawn (S (drawn w)) w) w' -> drew w w'.
Proof. unfold drew. simpl. tauto. Qed.

Lemma bind_ok {A B} (m : vault A) (f : A -> vault B) w a w' :
  m w = (Ok a, w') -> (m ≫= f) w = f a w'.
Proof. intros H. unfold mbind, vault_bind. by rewrite H. Qed.

Lemma bind_raise {A B} (m : vault A) (f : A -> vault B) w e w' :
  m w = (Raise e, w') -> (m ≫= f) w = (Raise e, w').
Proof. intros H. unfold mbind, vault_bind. by rewrite H. Qed.

Lemma try_except_ok {A} (body : vault A) handler w a w' :
  body w = (Ok a, w') -> try_except body handler w = (Ok a, w').
Proof. intros H. unfold try_except. by rewrite H. Qed.

Lemma try_except_raise {A} (body : vault A) handler w e w' :
  body w = (Raise e, w') -> try_except body handler w = handler e w'.
Proof. intros H. unfold try_except. by rewrite H. Qed.

Section Chunks.
Context `{L : CryptoLib}.
Hypothesis Hframing : Fernet_framing L.

Lemma token_not_shorter k r p :
  Fernet_key_ok k = true -> (length p <= length (Fernet_encrypt k r p))%nat.
Proof.
  intros Hk. pose proof (Hframing k r p Hk) as Hf.
  pose proof (RefLibFacts.token_len_lower (Z.of_nat (length p))). lia.
Qed.

Lemma encrypt_chunks_cons fuel fk b data :
  encrypt_chunks (S fuel) fk (b :: data) =
    (iv ← draw;
     rest ← encrypt_chunks fuel fk (drop _chunk_size (b :: data));
     mret (Fernet_encrypt fk iv (take _chunk_size (b :: data)) ++ rest)).
Proof. reflexivity. Qed.

Lemma chunk_size_pos : (0 < _chunk_size)%nat.
Proof. unfold _chunk_size. lia. Qed.

Lemma encrypt_chunks_spec fuel fk data w :
  Fernet_key_ok fk = true -> (length data <= fuel)%nat ->
  exists body w', encrypt_chunks fuel fk data w = (Ok body, w') /\ drew w w' /\
    (length data <= length body)%nat /\
    (data ≠ [] -> exists rest,
        body = Fernet_encrypt fk (rng w (drawn w)) (take _chunk_size data) ++ rest).
Proof.
  intros Hk. revert data w. induction fuel as [|fuel IH]; intros data w Hlen.
  - destruct data; [|simpl in Hlen; lia]. exists [], w.
    split_and!; [done|apply drew_refl|done|done].
  - destruct data as [|b data].
    + exists [], w. split_and!; [done|apply drew_refl|done|done].
    + rewrite encrypt_chunks_cons.
      pose proof chunk_size_pos as Hpos.
      destruct (IH (drop _chunk_size (b :: data)) (set_drawn (S (drawn w)) w))
        as (rest & w' & Hrest & Hdrew & Hlrest & _).
      { rewrite length_drop. cbn [length] in *. lia. }
      exists (Fernet_encrypt fk (rng w (drawn w)) (take _chunk_size (b :: data)) ++ rest), w'.
      split_and!.
      * erewrite bind_ok; [|reflexivity]. erewrite bind_ok; [|exact Hrest]. done.
      * by apply drew_draw.
      * rewrite length_app.
        pose proof (token_not_shorter fk (rng w (drawn w)) (take _chunk_size (b :: data)) Hk).
        rewrite <- (take_drop _chunk_size (b :: data)) at 1. rewrite length_app. lia.
      * intros _. eauto.
Qed.
End Chunks.

Lemma chunk_size_Z : Z.of_nat _chunk_size = 65536.
Proof. unfold _chunk_size. lia. Qed.

Opaque _chunk_size.

Section Files.
Context `{L : CryptoLib}.
Hypothesis Hcorrect : Fernet_correct L.
Hypothesis Hkeys : Fernet_keys_ok L.
Hypothesis Hlength : Fernet_key_length L.
Hypothesis Hframing : Fernet_framing L.
Hypothesis Htrunc : Fernet_rejects_truncation L.

Lemma key_nonempty k : Fernet_key_ok k = true -> exists b k', k = b :: k'.
Proof. intros Hk. apply Hlength in Hk. destruct k; [done|eauto]. Qed.

Lemma get_master_key_ok w mk uses :
  key_loaded w mk uses -> Fernet_key_ok mk = true -> (S uses <= _max_usage_before_rekey)%nat ->
  _get_master_key w =
    (Ok mk, set_manager {| _master_key_container :=
                             {| _secure_key := Some mk; _key_usage_count := S uses |};
                           _active_keys := _active_keys (manager w) |} w).
Proof.
  intros Hl Hk Hu. unfold _get_master_key, needs_rekeying, container_retrieve.
  rewrite Hl. simpl. rewrite bool_decide_eq_false_2 by lia.
  destruct (key_nonempty mk Hk) as (b & k' & ->). done.
Qed.

Lemma encrypt_data_ok w mk uses data :
  key_loaded w mk uses -> Fernet_key_ok mk = true -> (S uses <= _max_usage_before_rekey)%nat ->
  encrypt_data data None w =
    (Ok (Fernet_encrypt mk (rng w (drawn w)) data),
     set_drawn (S (drawn w))
       (set_manager {| _master_key_container :=
                         {| _secure_key := Some mk; _key_usage_count := S uses |};
                       _active_keys := _active_keys (manager w) |} w)).
Proof.
  intros Hl Hk Hu. unfold encrypt_data, select_key.
  erewrite bind_ok; [|erewrite bind_ok; [|reflexivity]; by apply get_master_key_ok].
  erewrite bind_ok; [|reflexivity]. unfold lift, fernet_encrypt, Fernet. rewrite Hk. done.
Qed.

Lemma decrypt_data_ok w mk uses r data :
  key_loaded w mk uses -> Fernet_key_ok mk = true -> (S uses <= _max_usage_before_rekey)%nat ->
  decrypt_data (Fernet_encrypt mk r data) None w =
    (Ok data,
     set_manager {| _master_key_container :=
                      {| _secure_key := Some mk; _key_usage_count := S uses |};
                    _active_keys := _active_keys (manager w) |} w).
Proof.
  intros Hl Hk Hu. unfold decrypt_data, select_key.
  erewrite bind_ok; [|erewrite bind_ok; [|reflexivity]; by apply get_master_key_ok].
  unfold lift, fernet_decrypt, Fernet, Fernet_decrypt_or_raise. rewrite Hk. simpl.
  by rewrite Hcorrect.
Qed.

Lemma to_bytes4_140 : to_bytes4 140 = Ok [x00; x00; x00; x8c].
Proof. reflexivity. Qed.

Lemma from_bytes_140 : from_bytes [x00; x00; x00; x8c] = 140.
Proof. reflexivity. Qed.

Lemma wrapped_key_length k r e :
  Fernet_key_ok k = true -> length (Fernet_encrypt k r (Fernet_generate_key e)) = 140%nat.
Proof.
  intros Hk. pose proof (Hframing k r (Fernet_generate_key e) Hk) as Hf.
  rewrite (Hlength (Fernet_generate_key e)) in Hf by apply Hkeys.
  change (fernet_token_len (Z.of_nat 44)) with 140 in Hf. lia.
Qed.

Lemma encrypt_large_file_spec w file_path f mk uses :
  disk w !! file_path = Some f ->
  key_loaded w mk uses -> Fernet_key_ok mk = true -> (S uses <= _max_usage_before_rekey)%nat ->
  content f ≠ [] ->
  let file_key := Fernet_generate_key (rng w (drawn w)) in
  let file_id := string_of_list_byte (token_bytes 16 (rng w (S (drawn w)))) in
  let wrapped := Fernet_encrypt mk (rng w (S (S (drawn w)))) file_key in
  let first := Fernet_encrypt file_key (rng w (S (S (S (drawn w))))) (take _chunk_size (content f)) in
  exists rest w',
    encrypt_large_file file_path None w = (Ok (encrypted_files_path file_id, file_id), w') /\
    disk w' = <[encrypted_files_path file_id :=
                  {| content := [x00; x00; x00; x8c] ++ wrapped ++ first ++ rest;
                     mtime := clock w |}]> (disk w) /\
    key_loaded w' mk (S uses) /\
    filesystem w' = filesystem w /\
    unlocked_folders w' = unlocked_folders w /\
    clock w' = clock w /\
    (length (content f) <= length (first ++ rest))%nat.
Proof.
  intros Hf Hl Hk Hu Hne file_key file_id wrapped first.
  unfold encrypt_large_file.
  erewrite bind_ok; [|reflexivity].
  erewrite bind_ok; [|unfold lift, Fernet; rewrite (proj1 Hkeys); reflexivity].
  erewrite bind_ok; [|reflexivity].
  set (w2 := set_drawn _ (set_drawn _ w)).
  change (rng (set_drawn (S (drawn w)) w) (drawn (set_drawn (S (drawn w)) w)))
    with (rng w (S (drawn w))).
  fold file_key file_id.
  set (w3 := set_drawn (S (drawn w2))
       (set_manager {| _master_key_container :=
                         {| _secure_key := Some mk; _key_usage_count := S uses |};
                       _active_keys := _active_keys (manager w2) |} w2)).
  destruct (encrypt_chunks_spec Hframing (length (content f)) file_key (content f) w3)
    as (body & w4 & Hbody & Hdrew & Hlen & Hfirst); [apply Hkeys|done|].
  destruct (Hfirst Hne) as [rest ->].
  destruct Hdrew as (Hd & Hc & Hr & Hm & Hun & Hfs).
  exists rest. eexists. split.
  { apply try_except_ok.
    erewrite bind_ok; [|by apply (encrypt_data_ok w2 mk uses)].
    fold w3. change (rng w2 (drawn w2)) with (rng w (S (S (drawn w)))). fold wrapped.
    erewrite bind_ok; [|unfold read_file; erewrite bind_ok; [|reflexivity];
                        change (disk w3) with (disk w); rewrite Hf; reflexivity].
    replace (length wrapped) with 140%nat by (symmetry; by apply wrapped_key_length).
    change (Z.of_nat 140) with 140. rewrite to_bytes4_140.
    erewrite bind_ok; [|reflexivity].
    erewrite bind_ok; [|exact Hbody].
    erewrite bind_ok; [|reflexivity]. reflexivity. }
  unfold key_loaded in *. subst w3 w2. simpl in Hd, Hc, Hm, Hun, Hfs. simpl.
  rewrite Hd, Hc, Hfs, Hun, Hm.
  split_and!; try done.
Qed.

Lemma decrypt_chunks_cons fuel fk b data :
  decrypt_chunks (S fuel) fk (b :: data) =
    match Fernet_decrypt fk (take (_chunk_size + 100) (b :: data)) with
    | Some decrypted_chunk =>
        rest ← decrypt_chunks fuel fk (drop (_chunk_size + 100) (b :: data));
        mret (decrypted_chunk ++ rest)
    | None => Raise (ValueError "decryption error")
    end.
Proof. reflexivity. Qed.

(** A full chunk seals to a token longer than one read of the decrypt loop. *)
Lemma full_chunk_token_length k r p :
  Fernet_key_ok k = true -> length p = _chunk_size ->
  Z.of_nat (length (Fernet_encrypt k r p)) = 87480.
Proof.
  intros Hk Hp. rewrite Hframing by done. rewrite Hp, chunk_size_Z. reflexivity.
Qed.

Lemma decrypt_chunks_first_read k k' r p rest :
  Fernet_key_ok k = true ->
  (_chunk_size + 100 < length (Fernet_encrypt k r p))%nat ->
  decrypt_chunks (length (Fernet_encrypt k r p ++ rest)) k' (Fernet_encrypt k r p ++ rest)
    = Raise (ValueError "decryption error").
Proof.
  intros Hk Hlen.
  destruct (Fernet_encrypt k r p ++ rest) as [|b l] eqn:E.
  { apply (f_equal length) in E. rewrite length_app in E. simpl in E. lia. }
  cbn [length]. rewrite decrypt_chunks_cons, <- E.
  rewrite take_app_le by lia. by rewrite Htrunc.
Qed.

Lemma discard_output_spec {A} output_path e w :
  exists w', discard_output (A := A) output_path e w = (Raise e, w') /\
    disk w' = delete output_path (disk w) /\
    manager w' = manager w /\ filesystem w' = filesystem w.
Proof.
  unfold discard_output. erewrite bind_ok; [|reflexivity].
  destruct (disk w !! output_path) as [fl|] eqn:E.
  - rewrite bool_decide_eq_true_2 by eauto.
    eexists. split; [reflexivity|]. done.
  - rewrite bool_decide_eq_false_2 by (by intros [? ?]).
    eexists. split; [reflexivity|]. simpl. by rewrite delete_id.
Qed.

Lemma decrypt_large_file_rejects w vault_path output_path fl mk uses r1 e r2 p rest :
  disk w !! vault_path = Some fl ->
  content fl = [x00; x00; x00; x8c] ++ Fernet_encrypt mk r1 (Fernet_generate_key e)
                 ++ Fernet_encrypt (Fernet_generate_key e) r2 p ++ rest ->
  (_chunk_size + 100 < length (Fernet_encrypt (Fernet_generate_key e) r2 p))%nat ->
  key_loaded w mk uses -> Fernet_key_ok mk = true -> (S uses <= _max_usage_before_rekey)%nat ->
  exists w', decrypt_large_file vault_path output_path None w
               = (Raise (ValueError "decryption error"), w') /\
    disk w' = delete output_path (disk w) /\
    key_loaded w' mk (S uses) /\ filesystem w' = filesystem w.
Proof.
  intros Hf Hc Hp Hl Hk Hu. unfold decrypt_large_file.
  set (w1 := set_manager {| _master_key_container :=
                              {| _secure_key := Some mk; _key_usage_count := S uses |};
                            _active_keys := _active_keys (manager w) |} w).
  destruct (discard_output_spec (A := unit) output_path (ValueError "decryption error") w1)
    as (w' & Hd & Hdisk & Hman & Hfs).
  exists w'. split; [|by rewrite Hdisk, Hfs; unfold key_loaded; rewrite Hman].
  erewrite try_except_raise; [exact Hd|].
  erewrite bind_ok; [|unfold read_file; erewrite bind_ok; [|reflexivity]; rewrite Hf; reflexivity].
  rewrite Hc. cbn [app take drop]. rewrite !take_0, !drop_0. rewrite from_bytes_140. change (Z.to_nat 140) with 140%nat.
  pose proof (wrapped_key_length mk r1 e Hk) as Hw.
  rewrite take_app_length', drop_app_length' by done.
  erewrite bind_ok; [|by apply (decrypt_data_ok w mk uses)].
  fold w1.
  erewrite bind_ok; [|unfold lift, Fernet; rewrite (proj1 Hkeys); reflexivity].
  apply bind_raise. unfold lift.
  rewrite decrypt_chunks_first_read; [done|apply Hkeys|done].
Qed.

Lemma full_chunk_token_too_long k r p :
  Fernet_key_ok k = true -> length p = _chunk_size ->
  (_chunk_size + 100 < length (Fernet_encrypt k r p))%nat.
Proof.
  intros Hk Hp. pose proof (full_chunk_token_length k r p Hk Hp). pose proof chunk_size_Z. lia.
Qed.

End Files.

Section SingleShot.
Context `{L : CryptoLib}.
Hypothesis Hcorrect : Fernet_correct L.
Hypothesis Hkeys : Fernet_keys_ok L.
Hypothesis Hlength : Fernet_key_length L.
Hypothesis Hframing : Fernet_framing L.

Lemma encrypt_file_single_shot w file_path f mk uses :
  disk w !! file_path = Some f ->
  Z.of_nat (length (content f)) <= ten_MiB ->
  key_loaded w mk uses -> Fernet_key_ok mk = true -> (S uses <= _max_usage_before_rekey)%nat ->
  let file_key := Fernet_generate_key (rng w (drawn w)) in
  let sealed := Fernet_encrypt file_key (rng w (S (drawn w))) (content f) in
  let wrapped := Fernet_encrypt mk (rng w (S (S (drawn w)))) file_key in
  let file_id := string_of_list_byte (token_bytes 16 (rng w (S (S (S (drawn w)))))) in
  exists w',
    encrypt_file file_path None w = (Ok (encrypted_files_path file_id, file_id), w') /\
    disk w' = <[encrypted_files_path file_id :=
                  {| content := [x00; x00; x00; x8c] ++ wrapped ++ sealed;
                     mtime := clock w |}]> (disk w) /\
    key_loaded w' mk (S uses) /\
    filesystem w' = filesystem w /\ clock w' = clock w.
Proof.
  intros Hf Hsmall Hl Hk Hu file_key sealed wrapped file_id.
  eexists. split.
  { unfold encrypt_file.
    erewrite bind_ok; [|reflexivity]. rewrite Hf, bool_decide_eq_true_2 by eauto. cbn [negb].
    erewrite bind_ok; [|unfold getsize; erewrite bind_ok; [reflexivity|]; unfold read_file;
                        erewrite bind_ok; [|reflexivity]; rewrite Hf; reflexivity].
    replace (ten_MiB <? Z.of_nat (length (content f))) with false
      by (symmetry; apply Z.ltb_ge; lia).
    erewrite bind_ok; [|reflexivity].
    erewrite bind_ok; [|unfold lift, Fernet; rewrite (proj1 Hkeys); reflexivity].
    erewrite bind_ok; [|unfold read_file; erewrite bind_ok; [|reflexivity];
                        cbn [disk set_drawn]; rewrite Hf; reflexivity].
    erewrite bind_ok; [|reflexivity].
    erewrite bind_ok; [|by apply (encrypt_data_ok Hlength _ mk uses)].
    erewrite bind_ok; [|reflexivity].
    apply try_except_ok. cbn [rng drawn set_drawn set_manager].
    rewrite (wrapped_key_length Hkeys Hlength Hframing) by done.
    change (Z.of_nat 140) with 140. rewrite to_bytes4_140.
    erewrite bind_ok; [|reflexivity].
    erewrite bind_ok; [|reflexivity]. reflexivity. }
  cbn. done.
Qed.

Lemma decrypt_file_single_shot w vault_path output_path fl mk uses r1 e r2 p :
  disk w !! vault_path = Some fl ->
  content fl = [x00; x00; x00; x8c] ++ Fernet_encrypt mk r1 (Fernet_generate_key e)
                 ++ Fernet_encrypt (Fernet_generate_key e) r2 p ->
  Z.of_nat (length (content fl)) <= ten_MiB ->
  key_loaded w mk uses -> Fernet_key_ok mk = true -> (S uses <= _max_usage_before_rekey)%nat ->
  exists w', decrypt_file vault_path output_path None w = (Ok tt, w') /\
    disk w' = <[output_path := {| content := p; mtime := clock w |}]> (disk w) /\
    key_loaded w' mk (S uses) /\ filesystem w' = filesystem w.
Proof.
  intros Hf Hc Hsmall Hl Hk Hu.
  eexists. split.
  { unfold decrypt_file.
    erewrite bind_ok; [|reflexivity]. rewrite Hf, bool_decide_eq_true_2 by eauto. cbn [negb].
    erewrite bind_ok; [|unfold getsize; erewrite bind_ok; [reflexivity|]; unfold read_file;
                        erewrite bind_ok; [|reflexivity]; rewrite Hf; reflexivity].
    replace (ten_MiB <? Z.of_nat (length (content fl))) with false
      by (symmetry; apply Z.ltb_ge; lia).
    apply try_except_ok.
    erewrite bind_ok; [|unfold read_file; erewrite bind_ok; [|reflexivity]; rewrite Hf; reflexivity].
    rewrite Hc. cbn [app take drop]. rewrite !take_0, !drop_0. rewrite from_bytes_140.
    change (Z.to_nat 140) with 140%nat.
    pose proof (wrapped_key_length Hkeys Hlength Hframing mk r1 e Hk) as Hw.
    rewrite take_app_length', drop_app_length' by done.
    erewrite bind_ok; [|by apply (decrypt_data_ok Hcorrect Hlength w mk uses)].
    erewrite bind_ok.
    2:{ unfold lift, fernet_decrypt, Fernet, Fernet_decrypt_or_raise.
        rewrite (proj1 Hkeys). simpl. rewrite Hcorrect by apply Hkeys. reflexivity. }
    reflexivity. }
  cbn. done.
Qed.
End SingleShot.


(** ** Extraction and verification *)

Section Extract.
Context `{L : CryptoLib} `{J : JsonLib}.

Lemma verify_file_spec w file_id file_data :
  verify_file file_id file_data w = (Ok (verify_file_report w (file_id, file_data)), w).
Proof.
  unfold verify_file, verify_file_report. simpl.
  erewrite bind_ok; [|reflexivity].
  destruct (_ || _); [done|].
  erewrite try_except_raise; [reflexivity|]. by apply bind_raise.
Qed.

Lemma verify_files_spec w l :
  verify_files l w = (Ok (l ≫= verify_file_report w), w).
Proof.
  induction l as [|[file_id file_data] l IH]; [done|].
  cbn [verify_files]. erewrite bind_ok; [|apply verify_file_spec].
  erewrite bind_ok; [|exact IH]. done.
Qed.

Lemma extract_needs_missing_helper w file_id output_dir file_data (t : tree) :
  filesystem w = Doc_tree t ->
  default ∅ (files t) !! file_id = Some file_data ->
  folder_id file_data = "root"%string ->
  is_Some (disk w !! vault_filename file_data) ->
  _transactional_extract_file file_id output_dir w = (Raise missing_helper, w).
Proof.
  intros Hfs Hfile Hroot Hpresent. unfold _transactional_extract_file.
  erewrite bind_ok; [|unfold lookup_file; erewrite bind_ok; [|reflexivity]; reflexivity].
  rewrite Hfs, Hfile, Hroot.
  erewrite bind_ok; [|reflexivity]. cbn [String.eqb Ascii.eqb Bool.eqb negb andb].
  erewrite bind_ok; [|reflexivity].
  erewrite bind_ok; [|reflexivity]. rewrite bool_decide_eq_true_2 by done.
  cbn [negb]. by apply bind_raise.
Qed.

(** Every way through [_transactional_extract_file] raises. *)
Lemma extract_never_returns w file_id output_dir :
  exists e w', _transactional_extract_file file_id output_dir w = (Raise e, w').
Proof.
  unfold _transactional_extract_file.
  erewrite bind_ok; [|unfold lookup_file; erewrite bind_ok; [|reflexivity]; reflexivity].
  destruct (match filesystem w with Doc_tree t => _ | _ => None end) as [file_data|];
    [|by eexists _, _].
  erewrite bind_ok; [|reflexivity].
  destruct (_ && _); [by eexists _, _|].
  destruct (String.eqb (folder_id file_data) "root").
  - erewrite bind_ok; [|reflexivity]. erewrite bind_ok; [|reflexivity].
    destruct (negb _); by eexists _, _.
  - unfold get_folder_key. 
    destruct (unlocked_folders w !! folder_id file_data) as [k|] eqn:E.
    + erewrite bind_ok; [|erewrite bind_ok; [|erewrite bind_ok; [|reflexivity]; rewrite E; reflexivity]; reflexivity].
      erewrite bind_ok; [|reflexivity].
      destruct (negb _); by eexists _, _.
    + eexists _, _. apply bind_raise. apply bind_raise.
      erewrite bind_ok; [|reflexivity]. rewrite E. reflexivity.
Qed.

Lemma verify_integrity_spec w (t : tree) :
  filesystem w = Doc_tree t ->
  exists folder_issues,
    verify_integrity w =
      (Ok ((map_to_list (default ∅ (files t)) ≫= verify_file_report w) ++ folder_issues), w).
Proof.
  intros Hfs. unfold verify_integrity. erewrite bind_ok; [|reflexivity]. rewrite Hfs.
  erewrite bind_ok; [|apply verify_files_spec]. eexists. reflexivity.
Qed.
End Extract.

Lemma files_add_file_node fd t :
  default ∅ (files (add_file_node fd t)) !! node_id fd = Some fd.
Proof. unfold add_file_node. simpl. apply lookup_insert_eq. Qed.


(** ** Saving and loading the tree *)

Section Load.
Context `{L : CryptoLib} `{J : JsonLib}.

Lemma filesystem_backups_spec w : filesystem_backups w = (Ok (backup_listing (disk w)), w).
Proof. reflexivity. Qed.

Lemma backup_listing_paths d x :
  x ∈ backup_listing d -> is_backup_path x.2 /\ exists fl, d !! x.2 = Some fl.
Proof.
  unfold backup_listing. intros (name & _ & Hx)%list_elem_of_omap.
  destruct (String.prefix "filesystem_backup_" name) eqn:Hp; [|done].
  destruct (d !! path_join backups_dir name) as [fl|] eqn:E; [|done].
  injection Hx as <-. simpl. split; [unfold is_backup_path; eauto|eauto].
Qed.

Lemma quarantine_untouched now : ~ save_touches (quarantine_path now).
Proof.
  intros [H | (name & Hp & H)].
  - discriminate H.
  - unfold quarantine_path, path_join, backups_dir in H. simpl in H.
    injection H as H. change ("" +:+ name)%string with name in H. rewrite <- H in Hp. discriminate Hp.
Qed.

Lemma tree_file_is_no_backup : ~ is_backup_path filesystem_path.
Proof. intros (name & _ & H). discriminate H. Qed.

Lemma lookup_foldr_delete (d : gmap string file) paths p :
  p ∉ paths -> foldr delete d paths !! p = d !! p.
Proof.
  induction paths as [|q paths IH]; simpl; [done|].
  intros [Hq Hp]%not_elem_of_cons. rewrite lookup_delete_ne by done. by apply IH.
Qed.

Lemma prefix_append p s : String.prefix p (p +:+ s) = true.
Proof.
  induction p as [|a p IH]; [by destruct s|].
  change (String a p +:+ s)%string with (String a (p +:+ s)). simpl.
  destruct (ascii_dec a a); [done|congruence].
Qed.

Lemma backup_path_is_backup s :
  is_backup_path (path_join backups_dir ("filesystem_backup_" +:+ s)).
Proof. eexists. split; [|reflexivity]. apply prefix_append. Qed.

Lemma disk_after_pruning (d : gmap string file) listing p :
  (forall x, x ∈ listing -> is_backup_path x.2) -> ~ is_backup_path p ->
  foldr delete d (map snd (drop 10 (sort_reverse listing))) !! p = d !! p.
Proof.
  intros Hl Hp. apply lookup_foldr_delete.
  intros (x & -> & Hx)%list_elem_of_fmap. apply Hp, Hl.
  apply subseteq_drop in Hx. unfold sort_reverse in Hx.
  by rewrite merge_sort_Permutation in Hx.
Qed.

Lemma create_filesystem_backup_spec w :
  exists w', _create_filesystem_backup w = (Ok tt, w') /\ backed_up w w'.
Proof.
  unfold _create_filesystem_backup.
  destruct (disk w !! filesystem_path) as [fl|] eqn:E.
  - eexists. split.
    + apply try_except_ok. erewrite bind_ok; [|reflexivity].
      erewrite bind_ok; [|reflexivity]. rewrite E, bool_decide_eq_true_2 by eauto.
      erewrite bind_ok; [|unfold when_, copy2; erewrite bind_ok; [|reflexivity];
                          rewrite E; reflexivity].
      erewrite bind_ok; [|apply filesystem_backups_spec]. reflexivity.
    + split_and!; [done..|]. intros p Hp. cbn [disk set_disk].
      rewrite disk_after_pruning; [|intros x [Hx _]%backup_listing_paths; exact Hx|done].
      apply lookup_insert_ne. intros <-. apply Hp, backup_path_is_backup.
  - eexists. split.
    + apply try_except_ok. erewrite bind_ok; [|reflexivity].
      erewrite bind_ok; [|reflexivity]. rewrite E, bool_decide_eq_false_2 by (by intros [? ?]).
      erewrite bind_ok; [|reflexivity].
      erewrite bind_ok; [|apply filesystem_backups_spec]. reflexivity.
    + split_and!; [done..|]. intros p Hp. cbn [disk set_disk].
      rewrite disk_after_pruning; [done|intros x [Hx _]%backup_listing_paths; exact Hx|done].
Qed.

Section WithKey.
Hypothesis Hlength : Fernet_key_length L.
Variable mk : bytes.
Hypothesis Hk : Fernet_key_ok mk = true.

(** The sealed record [_save_filesystem] writes for the tree of [w]. *)
Lemma save_filesystem_spec w uses :
  key_loaded w mk uses -> (S uses <= _max_usage_before_rekey)%nat ->
  exists w', _save_filesystem w = (Ok tt, w') /\ saved w w' /\ key_loaded w' mk (S uses) /\
    disk w' !! filesystem_path =
      Some {| content := Fernet_encrypt mk (rng w (drawn w))
                (json_dumps (Doc_payload
                   {| p_data := json_dumps (filesystem w);
                      p_checksum := sha256 (json_dumps (filesystem w));
                      p_timestamp := isoformat (clock w); p_version := "2.0" |}));
              mtime := clock w |}.
Proof.
  intros Hl Hu. unfold _save_filesystem.
  set (w1 := set_drawn (S (drawn w))
       (set_manager {| _master_key_container :=
                         {| _secure_key := Some mk; _key_usage_count := S uses |};
                       _active_keys := _active_keys (manager w) |} w)).
  set (sealed := Fernet_encrypt mk (rng w (drawn w))
        (json_dumps (Doc_payload
           {| p_data := json_dumps (filesystem w);
              p_checksum := sha256 (json_dumps (filesystem w));
              p_timestamp := isoformat (clock w); p_version := "2.0" |}))).
  set (w2 := set_disk (insert filesystem_path {| content := sealed; mtime := clock w1 |}) w1).
  destruct (create_filesystem_backup_spec w2) as (w' & Hb & Hfs & Hc & Hm & Hd).
  exists w'. split_and!.
  - erewrite bind_ok; [exact Hb|]. unfold _atomic_file_operation.
    erewrite bind_ok; [|erewrite bind_ok; [|reflexivity];
                        by apply (encrypt_data_ok Hlength w mk uses)].
    erewrite bind_ok; [|reflexivity]. reflexivity.
  - split_and!; [done..|]. intros p Hp. rewrite Hd by (intros Hb'; apply Hp; by right).
    cbn [disk set_disk w2 w1].
    apply lookup_insert_ne. intros <-. apply Hp. by left.
  - unfold key_loaded. by rewrite Hm.
  - rewrite Hd by apply tree_file_is_no_backup. apply lookup_insert_eq.
Qed.

Lemma create_default_filesystem_spec w uses :
  key_loaded w mk uses -> (S uses <= _max_usage_before_rekey)%nat ->
  exists w', _create_default_filesystem w = (Ok tt, w') /\
    saved (set_filesystem (Doc_tree (default_tree (isoformat (clock w)))) w) w' /\
    key_loaded w' mk (S uses).
Proof.
  intros Hl Hu. unfold _create_default_filesystem.
  destruct (save_filesystem_spec
              (set_filesystem (Doc_tree (default_tree (isoformat (clock w)))) w) uses Hl Hu)
    as (w' & Hs & Hsaved & Hl' & _).
  exists w'. split_and!; [|done..].
  erewrite bind_ok; [|reflexivity]. erewrite bind_ok; [|reflexivity]. exact Hs.
Qed.

Lemma backup_corrupted_filesystem_spec w fl :
  disk w !! filesystem_path = Some fl ->
  _backup_corrupted_filesystem w
    = (Ok tt, set_disk (insert (quarantine_path (clock w)) fl) w).
Proof.
  intros E. unfold _backup_corrupted_filesystem.
  apply try_except_ok. erewrite bind_ok; [|reflexivity].
  erewrite bind_ok; [|reflexivity]. rewrite E, bool_decide_eq_true_2 by eauto.
  unfold when_, copy2. erewrite bind_ok; [|reflexivity]. rewrite E. reflexivity.
Qed.

(** Restoring a usable backup installs its document and saves it. *)
Lemma restore_usable_backup w uses backup_path fl doc :
  key_loaded w mk uses -> (S (S uses) <= _max_usage_before_rekey)%nat ->
  disk w !! backup_path = Some fl ->
  sealed_tree mk (content fl) = Some doc ->
  exists w', _restore_from_backup backup_path w = (Ok tt, w') /\
    saved (set_filesystem doc w) w' /\ key_loaded w' mk (S (S uses)).
Proof.
  intros Hl Hu Hf Hs. unfold sealed_tree in Hs.
  destruct (Fernet_decrypt mk (content fl)) as [decrypted|] eqn:Hdec; [|done].
  destruct (json_loads decrypted) as [[t|p|o]|] eqn:Hload; try done.
  case_bool_decide as Hsum; [|done].
  set (w1 := set_manager {| _master_key_container :=
                              {| _secure_key := Some mk; _key_usage_count := S uses |};
                            _active_keys := _active_keys (manager w) |} w).
  destruct (save_filesystem_spec (set_filesystem doc w1) (S uses) eq_refl Hu)
    as (w' & Hsave & (Hfs & Hc & Hd) & Hl' & _).
  exists w'. split_and!; [|split_and!; done|done].
  unfold _restore_from_backup.
  erewrite bind_ok; [|reflexivity]. rewrite Hf, bool_decide_eq_true_2 by eauto. cbn [negb].
  erewrite bind_ok; [|unfold read_file; erewrite bind_ok; [|reflexivity]; rewrite Hf; reflexivity].
  erewrite bind_ok.
  2:{ unfold decrypt_with_master_key, decrypt_data, select_key.
      erewrite bind_ok; [|erewrite bind_ok; [|reflexivity];
                          apply (get_master_key_ok Hlength w mk uses); [done|done|lia]].
      unfold lift, fernet_decrypt, Fernet, Fernet_decrypt_or_raise. rewrite Hk. simpl.
      rewrite Hdec. reflexivity. }
  fold w1. erewrite bind_ok; [|unfold loads; rewrite Hload; reflexivity].
  cbv beta iota zeta. rewrite bool_decide_eq_true_2 by done.
  erewrite bind_ok; [|unfold loads; rewrite Hs; reflexivity].
  erewrite bind_ok; [|reflexivity]. exact Hsave.
Qed.

(** Restoring an unusable backup raises and changes neither tree nor disk. *)
Lemma restore_unusable_backup w uses backup_path fl :
  key_loaded w mk uses -> (S uses <= _max_usage_before_rekey)%nat ->
  disk w !! backup_path = Some fl ->
  sealed_tree mk (content fl) = None ->
  exists e w', _restore_from_backup backup_path w = (Raise e, w') /\
    filesystem w' = filesystem w /\ disk w' = disk w /\ clock w' = clock w /\
    key_loaded w' mk (S uses).
Proof.
  intros Hl Hu Hf Hs. unfold sealed_tree in Hs.
  set (w1 := set_manager {| _master_key_container :=
                              {| _secure_key := Some mk; _key_usage_count := S uses |};
                            _active_keys := _active_keys (manager w) |} w).
  unfold _restore_from_backup.
  erewrite bind_ok; [|reflexivity]. rewrite Hf, bool_decide_eq_true_2 by eauto. cbn [negb].
  erewrite bind_ok; [|unfold read_file; erewrite bind_ok; [|reflexivity]; rewrite Hf; reflexivity].
  assert (Hget : _get_master_key w = (Ok mk, w1))
    by (apply (get_master_key_ok Hlength w mk uses); done).
  destruct (Fernet_decrypt mk (content fl)) as [decrypted|] eqn:Hdec.
  - erewrite bind_ok.
    2:{ unfold decrypt_with_master_key, decrypt_data, select_key.
        erewrite bind_ok; [|erewrite bind_ok; [|reflexivity]; exact Hget].
        unfold lift, fernet_decrypt, Fernet, Fernet_decrypt_or_raise. rewrite Hk. simpl.
        rewrite Hdec. reflexivity. }
    destruct (json_loads decrypted) as [[t|p|o]|] eqn:Hload.
    + erewrite bind_ok; [|unfold loads; rewrite Hload; reflexivity]. by eexists _, w1.
    + erewrite bind_ok; [|unfold loads; rewrite Hload; reflexivity].
      cbv beta iota zeta. case_bool_decide; [|by eexists _, w1].
      eexists _, w1. split; [|done].
      apply bind_raise. unfold loads. rewrite Hs. reflexivity.
    + erewrite bind_ok; [|unfold loads; rewrite Hload; reflexivity]. by eexists _, w1.
    + eexists _, w1. split; [|done]. apply bind_raise. unfold loads. rewrite Hload. reflexivity.
  - eexists _, w1. split; [|done]. apply bind_raise.
    unfold decrypt_with_master_key, decrypt_data, select_key.
    erewrite bind_ok; [|erewrite bind_ok; [|reflexivity]; exact Hget].
    unfold lift, fernet_decrypt, Fernet, Fernet_decrypt_or_raise. rewrite Hk. simpl.
    rewrite Hdec. reflexivity.
Qed.

Lemma load_filesystem_nonempty w uses fl :
  key_loaded w mk uses -> (S (S uses) <= _max_usage_before_rekey)%nat ->
  disk w !! filesystem_path = Some fl -> content fl ≠ [] ->
  exists w', _load_filesystem w = (Ok tt, w') /\
    disk w' !! quarantine_path (clock w) = Some fl /\
    filesystem w' = recovered_tree mk (<[quarantine_path (clock w) := fl]> (disk w)) (clock w).
Proof.
  intros Hl Hu Hf Hne.
  assert (Hu1 : (S uses <= _max_usage_before_rekey)%nat) by lia.
  set (q := quarantine_path (clock w)).
  set (w1 := set_disk (insert q fl) w).
  assert (Hq : disk w1 !! q = Some fl) by apply lookup_insert_eq.
  assert (Hstart : forall w',
    (try_except
       (backups ← filesystem_backups;
        match sort_reverse backups with
        | latest :: _ => _restore_from_backup latest.2
        | [] => _create_default_filesystem
        end)
       (fun _ => _create_default_filesystem)) w1 = (Ok tt, w') ->
    _load_filesystem w = (Ok tt, w')).
  { intros w' Hrest. unfold _load_filesystem.
    erewrite bind_ok; [|reflexivity]. rewrite Hf, bool_decide_eq_true_2 by eauto. cbn [negb].
    erewrite try_except_raise.
    2:{ erewrite bind_ok; [|unfold getsize; erewrite bind_ok; [reflexivity|]; unfold read_file;
                            erewrite bind_ok; [|reflexivity]; rewrite Hf; reflexivity].
        destruct (content fl) as [|b l]; [done|]. cbn [length].
        replace (Z.of_nat (S (length l)) =? 0) with false by (symmetry; apply Z.eqb_neq; lia).
        apply bind_raise. reflexivity. }
    cbn [is_ValueError orb].
    erewrite bind_ok; [|by apply backup_corrupted_filesystem_spec]. exact Hrest. }
  unfold recovered_tree. fold q. change (<[q:=fl]> (disk w)) with (disk w1).
  destruct (sort_reverse (backup_listing (disk w1))) as [|latest rest] eqn:Hsort.
  - destruct (create_default_filesystem_spec w1 uses Hl Hu1)
      as (w' & Hdef & (Hfs & Hc & Hd) & _).
    exists w'. split_and!.
    + apply Hstart. apply try_except_ok.
      erewrite bind_ok; [|apply filesystem_backups_spec]. rewrite Hsort. exact Hdef.
    + rewrite Hd by apply quarantine_untouched. exact Hq.
    + exact Hfs.
  - assert (Hin : latest ∈ backup_listing (disk w1)).
    { unfold sort_reverse in Hsort. rewrite <- (merge_sort_Permutation backup_ge), Hsort.
      apply list_elem_of_here. }
    apply backup_listing_paths in Hin as [_ [bf Hbf]]. rewrite Hbf.
    destruct (sealed_tree mk (content bf)) as [doc|] eqn:Hsealed.
    + destruct (restore_usable_backup w1 uses latest.2 bf doc Hl Hu Hbf Hsealed)
        as (w' & Hres & (Hfs & Hc & Hd) & _).
      exists w'. split_and!.
      * apply Hstart. apply try_except_ok.
        erewrite bind_ok; [|apply filesystem_backups_spec]. rewrite Hsort. exact Hres.
      * rewrite Hd by apply quarantine_untouched. exact Hq.
      * exact Hfs.
    + destruct (restore_unusable_backup w1 uses latest.2 bf Hl Hu1 Hbf Hsealed)
        as (e & w2 & Hres & Hfs2 & Hd2 & Hc2 & Hl2).
      destruct (create_default_filesystem_spec w2 (S uses) Hl2 Hu)
        as (w' & Hdef & (Hfs & Hc & Hd) & _).
      exists w'. split_and!.
      * apply Hstart. erewrite try_except_raise; [exact Hdef|].
        erewrite bind_ok; [|apply filesystem_backups_spec]. rewrite Hsort. exact Hres.
      * rewrite Hd by apply quarantine_untouched. cbn [disk set_filesystem].
        rewrite Hd2. exact Hq.
      * rewrite Hfs. cbn [filesystem set_filesystem]. by rewrite Hc2.
Qed.

End WithKey.

End Load.

(** * Lemmas for the rest of the code *)

(** ** The password policy *)

Lemma some_character_class c s :
  re_search is_lower (String c s) || re_search is_upper (String c s)
  || re_search is_digit (String c s)
  || re_search (fun c => negb (is_alnum c)) (String c s) = true.
Proof.
  unfold re_search. cbn [list_ascii_of_string existsb]. unfold is_alnum.
  destruct (is_lower c), (is_upper c), (is_digit c); cbn [orb negb];
    rewrite ?orb_true_r; reflexivity.
Qed.

Lemma entropy_of_long_password password :
  (12 <= String.length password)%nat -> 48 <= _calculate_password_entropy_x10 password.
Proof.
  intros Hlen. destruct password as [|c s]; [simpl in Hlen; lia|].
  pose proof (some_character_class c s) as Hc.
  unfold _calculate_password_entropy_x10.
  destruct (re_search is_lower (String c s)), (re_search is_upper (String c s)),
    (re_search is_digit (String c s)), (re_search (fun c => negb (is_alnum c)) (String c s));
    try discriminate Hc;
    match goal with
    | |- context [bit_length ?n] =>
        let v := eval vm_compute in (bit_length n) in
        change (bit_length n) with v
    end;
    match goal with
    | |- context [0 <? ?n] =>
        let v := eval vm_compute in (0 <? n) in
        change (0 <? n) with v
    end; cbv iota; lia.
Qed.

Lemma string_app_cons a (s t : string) : (String a s +:+ t)%string = String a (s +:+ t).
Proof. reflexivity. Qed.

Lemma string_app_nil (t : string) : (EmptyString +:+ t)%string = t.
Proof. reflexivity. Qed.

Lemma list_ascii_of_string_app (s t : string) :
  list_ascii_of_string (s +:+ t) = list_ascii_of_string s ++ list_ascii_of_string t.
Proof.
  induction s as [|a s IH]; [done|].
  rewrite string_app_cons. cbn [list_ascii_of_string app]. by rewrite IH.
Qed.

Lemma string_length_app (s t : string) :
  String.length (s +:+ t) = (String.length s + String.length t)%nat.
Proof.
  induction s as [|a s IH]; [done|].
  rewrite string_app_cons. cbn [String.length]. by rewrite IH.
Qed.

Lemma encode_app (s t : string) : encode (s +:+ t) = encode s ++ encode t.
Proof.
  unfold encode, list_byte_of_string. by rewrite list_ascii_of_string_app, map_app.
Qed.

Lemma str_lower_app (s t : string) : str_lower (s +:+ t) = (str_lower s +:+ str_lower t)%string.
Proof.
  induction s as [|a s IH]; [done|].
  rewrite string_app_cons. cbn [str_lower]. by rewrite IH, string_app_cons.
Qed.

Lemma re_search_app cls (s t : string) :
  re_search cls s = true -> re_search cls (s +:+ t) = true.
Proof.
  unfold re_search. rewrite list_ascii_of_string_app, existsb_app. by intros ->.
Qed.

Lemma is_prefix_of_snoc (p l : bytes) c :
  c ∉ p -> is_prefix_of p (l ++ [c]) = is_prefix_of p l.
Proof.
  revert l. induction p as [|a p IH]; intros l Hc; [by destruct l|].
  apply not_elem_of_cons in Hc as [Hne Hc].
  destruct l as [|b l]; cbn [app is_prefix_of].
  - rewrite bool_decide_eq_false_2 by congruence. done.
  - by rewrite IH.
Qed.

Lemma contains_snoc (p l : bytes) c :
  p ≠ [] -> c ∉ p -> contains p (l ++ [c]) = contains p l.
Proof.
  intros Hp Hc. induction l as [|b l IH].
  - pose proof (is_prefix_of_snoc p [] c Hc) as H0. cbn [app] in *.
    cbn [contains]. rewrite H0. destruct p; [done|]. reflexivity.
  - pose proof (is_prefix_of_snoc p (b :: l) c Hc) as H0. cbn [app] in *.
    cbn [contains]. by rewrite IH, H0.
Qed.

Lemma has_run4_snoc_newline l :
  has_run4 (l ++ [ascii_of_nat 10]) = has_run4 l.
Proof.
  induction l as [|a l IH]; [done|].
  destruct l as [|b [|c [|d l]]]; try reflexivity.
  - cbn [app has_run4].
    destruct (Ascii.eqb a (ascii_of_nat 10)), (Ascii.eqb a b), (Ascii.eqb a c); done.
  - change ((a :: b :: c :: d :: l) ++ [ascii_of_nat 10])
      with (a :: ((b :: c :: d :: l) ++ [ascii_of_nat 10])).
    change (has_run4 (a :: (b :: c :: d :: l) ++ [ascii_of_nat 10]))
      with ((negb (Ascii.eqb a (ascii_of_nat 10)) && Ascii.eqb a b && Ascii.eqb a c
             && Ascii.eqb a d) || has_run4 ((b :: c :: d :: l) ++ [ascii_of_nat 10])).
    rewrite IH. reflexivity.
Qed.

Lemma pattern_without_newline :
  Forall (fun p => encode p ≠ [] /\ x0a ∉ encode p) (common_patterns ++ sequences).
Proof.
  repeat constructor; try discriminate;
    (intros Hin; vm_compute in Hin; repeat (apply elem_of_cons in Hin as [Hin|Hin]; [discriminate|]);
     by apply elem_of_nil in Hin).
Qed.

Lemma existsb_patterns_snoc (l : bytes) (ps : list string) :
  Forall (fun p => encode p ≠ [] /\ x0a ∉ encode p) ps ->
  existsb (fun p => contains (encode p) (l ++ [x0a])) ps
    = existsb (fun p => contains (encode p) l) ps.
Proof.
  induction 1 as [|p ps [Hne Hnl] _ IH]; [done|].
  cbn [existsb]. by rewrite IH, contains_snoc.
Qed.

Lemma check_common_patterns_newline password :
  _check_common_patterns (password +:+ newline) = _check_common_patterns password.
Proof.
  pose proof pattern_without_newline as [Hc Hs]%Forall_app.
  unfold _check_common_patterns. cbv zeta.
  rewrite str_lower_app, encode_app, list_ascii_of_string_app.
  change (encode (str_lower newline)) with [x0a].
  change (list_ascii_of_string (str_lower newline)) with [ascii_of_nat 10].
  by rewrite !existsb_patterns_snoc, has_run4_snoc_newline.
Qed.

Lemma latin_only_newline password :
  password ≠ EmptyString ->
  forallb allowed_character (list_ascii_of_string password) = true ->
  latin_only (password +:+ newline) = true.
Proof.
  intros Hne Hall. unfold latin_only. cbv zeta.
  rewrite list_ascii_of_string_app.
  change (list_ascii_of_string newline) with [ascii_of_nat 10].
  rewrite reverse_app.
  change (reverse [ascii_of_nat 10]) with [ascii_of_nat 10]. cbn [app].
  rewrite Ascii.eqb_refl, reverse_involutive.
  rewrite bool_decide_eq_false_2; [exact Hall|].
  destruct password; [done|discriminate].
Qed.


Lemma is_prefix_of_app_l (p l r : bytes) :
  is_prefix_of p l = true -> is_prefix_of p (l ++ r) = true.
Proof.
  revert l. induction p as [|a p IH]; intros l; [by destruct l|].
  destruct l as [|b l]; cbn [app is_prefix_of]; [done|].
  intros [-> Hp]%andb_true_iff. by rewrite IH.
Qed.

Lemma contains_app_l (p l r : bytes) : contains p l = true -> contains p (l ++ r) = true.
Proof.
  induction l as [|b l IH]; cbn [app contains].
  - intros Hp. destruct p; [|done]. by destruct r.
  - intros [Hp|Hc]%orb_true_iff.
    + change (b :: l ++ r) with ((b :: l) ++ r). by rewrite is_prefix_of_app_l.
    + rewrite IH by done. apply orb_true_r.
Qed.

(** ** The attempt table and the credential record *)

Lemma retained_among_stamps uid trace :
  default [] (lockout_run trace !! uid) ⊆ stamps trace.
Proof.
  destruct (retained_invariant uid trace) as (pre & Hh & _).
  pose proof (recorded_attempts_stamps uid trace) as Hs. rewrite Hh in Hs.
  intros x Hx. apply Hs. set_solver.
Qed.

Section Refusals.
Context `{L : CryptoLib}.

Lemma created_password_hash pw hint qs e ts mk cfg :
  create_master_password pw hint qs e ts = Ok (mk, cfg) ->
  master_password_hash cfg = Some (bcrypt_hashpw (encode pw) (e_gensalt e)) /\
  password_hint cfg = Some hint /\
  recovery_questions cfg = Some (hash_recovery_answers 0 (e_answers e) qs).
Proof.
  unfold create_master_password. destruct (_validate_password_strength pw); [done|].
  intros Hc. do 4 apply result_bind_inv in Hc as (? & _ & Hc). by injection Hc as _ <-.
Qed.
End Refusals.


(** ** The key registry *)

Section Registry.
Context `{L : CryptoLib}.

Lemma retrieve_registered_key w kid k n :
  k <> [] ->
  retrieve_active_key kid {| _secure_key := Some k; _key_usage_count := n |} w
  = (Ok k, set_active_keys (insert kid {| _secure_key := Some k; _key_usage_count := S n |}) w).
Proof. intros Hk. unfold retrieve_active_key, container_retrieve. destruct k; done. Qed.

Lemma select_registered_key w kid k n :
  kid <> ""%string -> k <> [] ->
  _active_keys (manager w) !! kid = Some {| _secure_key := Some k; _key_usage_count := n |} ->
  select_key (Some kid) w
  = (Ok k, set_active_keys (insert kid {| _secure_key := Some k; _key_usage_count := S n |}) w).
Proof.
  intros Hkid Hk Hreg. unfold select_key. erewrite bind_ok; [|reflexivity].
  rewrite Hreg, bool_decide_eq_false_2 by done. by apply retrieve_registered_key.
Qed.

Lemma select_unknown_key w kid :
  kid = ""%string \/ _active_keys (manager w) !! kid = None ->
  select_key (Some kid) w = select_key None w.
Proof.
  intros H. unfold select_key. rewrite !(bind_ok get_world _ w w w) by reflexivity.
  destruct (_active_keys (manager w) !! kid) eqn:E; [|done].
  destruct H as [-> | H]; [|congruence]. done.
Qed.

Lemma decrypt_file_key_disk fk efk w r w' :
  decrypt_file_key fk efk w = (r, w') -> disk w' = disk w.
Proof.
  unfold decrypt_file_key, decrypt_data, select_key, _get_master_key, lift.
  unfold mbind, vault_bind, get_world.
  destruct fk as [[|b k]|]; intros H;
    repeat (simplify_eq/=; try done; case_match).
Qed.

End Registry.


(** ** Validation of the tree *)

Lemma validate_tree_files t :
  files (validate_tree t) = Some ((fun fd =>
      if negb (String.eqb (folder_id fd) "") && bool_decide (default ∅ (folders t) !! folder_id fd = None)
      then {| node_id := node_id fd; original_name := original_name fd;
              encrypted_name := encrypted_name fd; vault_filename := vault_filename fd;
              folder_id := "root"; file_size := file_size fd; added_at := added_at fd;
              file_type := file_type fd; hash := hash fd |}
      else fd) <$> default ∅ (files t)).
Proof. reflexivity. Qed.

Lemma validate_tree_file_keys t c :
  is_Some (default ∅ (files (validate_tree t)) !! c) <-> is_Some (default ∅ (files t) !! c).
Proof. rewrite validate_tree_files. cbn [from_option id]. rewrite lookup_fmap. apply fmap_is_Some. Qed.

Lemma validate_tree_folder_keys t c :
  is_Some (default ∅ (folders (validate_tree t)) !! c) <-> is_Some (default ∅ (folders t) !! c).
Proof. unfold validate_tree. cbn [folders from_option id]. rewrite lookup_fmap. apply fmap_is_Some. Qed.

Lemma validate_tree_folders t :
  folders (validate_tree t) = Some ((fun dd =>
      {| folder_node_id := folder_node_id dd; name := name dd;
         folder_encrypted_name := folder_encrypted_name dd; parent := parent dd;
         children := List.filter (fun c => bool_decide (is_Some (default ∅ (files (validate_tree t)) !! c))
                                           || bool_decide (is_Some (default ∅ (folders t) !! c)))
                                 (children dd);
         folder_created_at := folder_created_at dd; is_locked := is_locked dd |})
    <$> default ∅ (folders t)).
Proof. reflexivity. Qed.

Lemma tree_ext (t1 t2 : tree) :
  files t1 = files t2 -> folders t1 = folders t2 -> version t1 = version t2 ->
  tree_created_at t1 = tree_created_at t2 -> t1 = t2.
Proof. destruct t1, t2. cbn. by intros -> -> -> ->. Qed.

Lemma filter_filter_same {A} (p q : A -> bool) (l : list A) :
  (forall x, p x = q x) -> List.filter p (List.filter q l) = List.filter q l.
Proof.
  intros Hpq. induction l as [|a l IH]; [done|]. cbn.
  destruct (q a) eqn:E; [|done]. cbn. by rewrite Hpq, E, IH.
Qed.

Lemma validate_tree_idempotent t : validate_tree (validate_tree t) = validate_tree t.
Proof.
  assert (Hkeys : forall x, default ∅ (folders (validate_tree t)) !! x = None
                            <-> default ∅ (folders t) !! x = None).
  { intros x. rewrite !eq_None_not_Some. by rewrite validate_tree_folder_keys. }
  apply tree_ext; [| |done|done].
  - rewrite (validate_tree_files (validate_tree t)).
    rewrite (validate_tree_files t). cbn [from_option id]. f_equal.
    apply map_eq. intros i. rewrite !lookup_fmap.
    destruct (default ∅ (files t) !! i) as [fd|]; cbn [fmap option_fmap option_map]; [|done]. f_equal.
    destruct (negb (String.eqb (folder_id fd) "") && bool_decide (default ∅ (folders t) !! folder_id fd = None)) eqn:E.
    + cbn. match goal with |- (if ?b then _ else _) = _ => by destruct b end.
    + apply andb_false_iff in E.
      destruct (negb (String.eqb (folder_id fd) "")); cbn [andb]; [|done].
      destruct E as [E|E]; [done|]. apply bool_decide_eq_false in E.
      rewrite bool_decide_eq_false_2; [done|]. by rewrite Hkeys.
  - rewrite (validate_tree_folders (validate_tree t)).
    rewrite (validate_tree_folders t). cbn [from_option id]. f_equal.
    apply map_eq. intros i. rewrite !lookup_fmap.
    destruct (default ∅ (folders t) !! i) as [dd|]; cbn [fmap option_fmap option_map]; [|done].
    f_equal. cbn [folder_node_id name folder_encrypted_name parent children folder_created_at is_locked].
    f_equal. apply filter_filter_same. intros c.
    f_equal.
    + apply bool_decide_ext. rewrite (validate_tree_file_keys (validate_tree t)). done.
    + apply bool_decide_ext. rewrite <- (validate_tree_folder_keys t c).
      rewrite validate_tree_folders. done.
Qed.


(** ** Backup listings *)

Lemma strip_prefix_app p s : strip_prefix p (p +:+ s) = Some s.
Proof.
  induction p as [|a p IH]; [by destruct s|].
  change (String a p +:+ s)%string with (String a (p +:+ s)). cbn [strip_prefix].
  by rewrite Ascii.eqb_refl.
Qed.

Lemma strip_prefix_inv p s r : strip_prefix p s = Some r -> s = (p +:+ r)%string.
Proof.
  revert s. induction p as [|a p IH]; intros s H.
  - cbn in H. by injection H as ->.
  - destruct s as [|b s]; [done|]. cbn [strip_prefix] in H.
    destruct (Ascii.eqb_spec a b) as [->|]; [|done].
    apply IH in H as ->. done.
Qed.

Lemma NoDup_omap_inj {A B} (f : A -> option B) (l : list A) :
  (forall x y z, f x = Some z -> f y = Some z -> x = y) -> NoDup l -> NoDup (omap f l).
Proof.
  intros Hinj. induction 1 as [|a l Ha Hl IH]; [constructor|].
  cbn. destruct (f a) as [b|] eqn:E; [|done].
  constructor; [|done]. intros (y & Hy & Hfy)%list_elem_of_omap.
  apply Ha. by rewrite (Hinj a y b E Hfy).
Qed.

Lemma omap_fst_pairs {A B C} (f : A -> option C) (l : list (A * B)) :
  omap (fun p => f p.1) l = omap f (map fst l).
Proof. induction l as [|[a b] l IH]; [done|]. cbn. by rewrite IH. Qed.

Lemma path_join_inj dir a b : path_join dir a = path_join dir b -> a = b.
Proof.
  unfold path_join. induction dir as [|c dir IH].
  - intros H. by injection H.
  - intros H. apply IH. by injection H.
Qed.

Lemma path_join_prefix dir name : path_join dir name = ((dir +:+ "/") +:+ name)%string.
Proof.
  unfold path_join. induction dir as [|c dir IH]; [done|].
  change (String c dir +:+ ?s)%string with (String c (dir +:+ s)). by rewrite IH.
Qed.

Lemma backup_listing_elem d x :
  x ∈ backup_listing d <->
  exists name fl, String.prefix "filesystem_backup_" name = true /\
    d !! path_join backups_dir name = Some fl /\ x = (mtime fl, path_join backups_dir name).
Proof.
  unfold backup_listing. rewrite list_elem_of_omap. split.
  - intros (name & _ & Hx).
    destruct (String.prefix "filesystem_backup_" name) eqn:Hp; [|done].
    destruct (d !! path_join backups_dir name) as [fl|] eqn:E; [|done].
    injection Hx as <-. eauto.
  - intros (name & fl & Hp & Hd & ->). exists name. split.
    + apply list_elem_of_omap. exists (path_join backups_dir name, fl). split.
      * by apply elem_of_map_to_list.
      * cbn [fst]. rewrite path_join_prefix. apply strip_prefix_app.
    + by rewrite Hp, Hd.
Qed.

Lemma backup_listing_NoDup d : NoDup (backup_listing d).
Proof.
  unfold backup_listing. apply NoDup_omap_inj.
  - intros a b z Ha Hb.
    destruct (String.prefix _ a); [|done]. destruct (String.prefix _ b); [|done].
    destruct (d !! path_join backups_dir a); [|done].
    destruct (d !! path_join backups_dir b); [|done].
    cbn [fmap option_fmap option_map] in Ha, Hb. injection Ha as <-. injection Hb as _ Hb. change (b = a) in Hb. done.
  - rewrite omap_fst_pairs. apply NoDup_omap_inj.
    + intros a b z Ha%strip_prefix_inv Hb%strip_prefix_inv. congruence.
    + apply NoDup_fst_map_to_list.
Qed.

Section Retention.
Context `{L : CryptoLib} `{J : JsonLib}.

Lemma pruned_listing (d : gmap string file) :
  let kept := foldr delete d (map snd (drop 10 (sort_reverse (backup_listing d)))) in
  (length (backup_listing kept) <= 10)%nat /\
  (forall x, x ∈ take 10 (sort_reverse (backup_listing d)) -> x ∈ backup_listing kept).
Proof.
  intros kept. set (sorted := sort_reverse (backup_listing d)).
  assert (Hperm : sorted ≡ₚ backup_listing d) by apply merge_sort_Permutation.
  assert (Hnd : NoDup sorted) by (rewrite Hperm; apply backup_listing_NoDup).
  rewrite <- (take_drop 10 sorted) in Hnd. apply NoDup_app in Hnd as (_ & Hdisj & _).
  split.
  - transitivity (length (take 10 sorted)); [|rewrite length_take; lia].
    apply submseteq_length, NoDup_submseteq; [apply backup_listing_NoDup|].
    intros x (name & fl & Hp & Hk & ->)%backup_listing_elem.
    destruct (decide (path_join backups_dir name ∈ map snd (drop 10 sorted))) as [Hin|Hout].
    + exfalso. clear -Hk Hin. subst kept. fold sorted in Hk.
      induction (map snd (drop 10 sorted)) as [|q l IH]; [by apply elem_of_nil in Hin|].
      cbn in Hk. apply elem_of_cons in Hin as [<-|Hin].
      * by rewrite lookup_delete_eq in Hk.
      * destruct (decide (q = path_join backups_dir name)) as [->|Hne].
        -- by rewrite lookup_delete_eq in Hk.
        -- rewrite lookup_delete_ne in Hk by done. by apply IH.
    + subst kept. fold sorted in Hk. rewrite lookup_foldr_delete in Hk by done.
      assert (Hx : (mtime fl, path_join backups_dir name) ∈ sorted).
      { rewrite Hperm. apply backup_listing_elem. eauto. }
      rewrite <- (take_drop 10 sorted) in Hx. apply elem_of_app in Hx as [Hx|Hx]; [done|].
      exfalso. apply Hout. apply list_elem_of_fmap. by exists (mtime fl, path_join backups_dir name).
  - intros x Hx.
    assert (Hin : x ∈ backup_listing d).
    { rewrite <- Hperm. rewrite <- (take_drop 10 sorted). apply elem_of_app. by left. }
    apply backup_listing_elem in Hin as (name & fl & Hp & Hd & ->).
    apply backup_listing_elem. exists name, fl. split_and!; [done| |done].
    subst kept. fold sorted. rewrite lookup_foldr_delete; [done|].
    intros (y & Hy & Hyin)%list_elem_of_fmap.
    assert (Hyd : y ∈ backup_listing d).
    { rewrite <- Hperm. rewrite <- (take_drop 10 sorted). apply elem_of_app. by right. }
    apply backup_listing_elem in Hyd as (name' & fl' & _ & Hd' & ->).
    cbn in Hy. apply path_join_inj in Hy as <-.
    rewrite Hd in Hd'. injection Hd' as <-.
    by apply (Hdisj (mtime fl, path_join backups_dir name)).
Qed.

End Retention.


(** ** Saving and reopening *)

#[local] Instance Q_eq_dec : EqDecision Q.
Proof. solve_decision. Defined.

#[local] Instance backup_ge_total : Total backup_ge.
Proof.
  intros a b. unfold backup_ge, backup_geb.
  destruct (Qltb b.1 a.1) eqn:E1; [by left|].
  destruct (Qltb a.1 b.1) eqn:E2; [by right|].
  apply Qltb_false in E1, E2.
  assert (Heq : (a.1 == b.1)%Q) by lra.
  rewrite (Qeq_eq_bool _ _ Heq), (Qeq_eq_bool b.1 a.1) by (symmetry; exact Heq).
  cbn [orb andb]. destruct (String.leb_total a.2 b.2); auto.
Qed.

Lemma backup_ge_stamp a b : backup_ge a b -> (b.1 <= a.1)%Q.
Proof.
  unfold backup_ge, backup_geb. intros [H|H]%orb_true_iff.
  - apply Qltb_true in H. lra.
  - apply andb_true_iff in H as [H _]. apply Qeq_bool_eq in H. lra.
Qed.

Lemma sorted_head_stamp (l : list (Q * string)) h :
  Sorted backup_ge (h :: l) -> Forall (fun y => (y.1 <= h.1)%Q) l.
Proof.
  revert h. induction l as [|a l IH]; intros h Hs; [constructor|].
  apply Sorted_inv in Hs as [Hs Hh]. apply HdRel_inv in Hh.
  apply backup_ge_stamp in Hh. constructor; [done|].
  eapply Forall_impl; [apply IH, Hs|]. cbn. intros y Hy. lra.
Qed.

(** The newest entry of a listing comes first when it is strictly newer
    than every other one. *)
Lemma sort_reverse_head (l : list (Q * string)) x :
  x ∈ l -> (forall y, y ∈ l -> y <> x -> (y.1 < x.1)%Q) ->
  exists rest, sort_reverse l = x :: rest.
Proof.
  intros Hx Hmax. unfold sort_reverse.
  pose proof (Sorted_merge_sort backup_ge l) as Hs.
  pose proof (merge_sort_Permutation backup_ge l) as Hp.
  destruct (merge_sort backup_ge l) as [|h rest].
  - rewrite <- Hp in Hx. by apply elem_of_nil in Hx.
  - exists rest. f_equal. destruct (decide (h = x)) as [|Hne]; [done|exfalso].
    assert (Hh : h ∈ l) by (rewrite <- Hp; apply list_elem_of_here).
    pose proof (Hmax h Hh Hne) as Hlt.
    rewrite <- Hp in Hx. apply elem_of_cons in Hx as [->|Hx]; [done|].
    apply sorted_head_stamp in Hs. rewrite Forall_forall in Hs. apply Hs in Hx. lra.
Qed.

Lemma lookup_foldr_delete_Some (d : gmap string file) paths p v :
  foldr delete d paths !! p = Some v -> d !! p = Some v.
Proof.
  induction paths as [|q l IH]; [done|]. cbn [foldr].
  destruct (decide (q = p)) as [->|Hne].
  - by rewrite lookup_delete_eq.
  - rewrite lookup_delete_ne by done. exact IH.
Qed.

Section Reopen.
Context `{L : CryptoLib} `{J : JsonLib}.
Hypothesis Hcorrect : Fernet_correct L.
Hypothesis Hlength : Fernet_key_length L.
Hypothesis Hframing : Fernet_framing L.
Hypothesis Hjson : json_roundtrip J.

Lemma backup_path_at_prefix now :
  exists name, String.prefix "filesystem_backup_" name = true /\
               backup_path_at now = path_join backups_dir name.
Proof. eexists. split; [|reflexivity]. apply prefix_append. Qed.

Lemma save_filesystem_disk w mk uses :
  key_loaded w mk uses -> Fernet_key_ok mk = true -> (S uses <= _max_usage_before_rekey)%nat ->
  let d1 := <[backup_path_at (clock w) := sealed_record mk w]>
              (<[filesystem_path := sealed_record mk w]> (disk w)) in
  exists w', _save_filesystem w = (Ok tt, w') /\
    filesystem w' = filesystem w /\
    disk w' = foldr delete d1 (map snd (drop 10 (sort_reverse (backup_listing d1)))).
Proof.
  intros Hl Hk Hu d1. unfold _save_filesystem.
  eexists. split_and!.
  - erewrite bind_ok.
    2:{ unfold _atomic_file_operation.
        erewrite bind_ok; [|erewrite bind_ok; [|reflexivity];
                            by apply (encrypt_data_ok Hlength w mk uses)].
        erewrite bind_ok; [|reflexivity]. reflexivity. }
    unfold _create_filesystem_backup.
    apply try_except_ok. erewrite bind_ok; [|reflexivity].
    erewrite bind_ok; [|reflexivity].
    cbn [disk set_disk set_drawn set_manager clock].
    rewrite lookup_insert_eq, bool_decide_eq_true_2 by eauto.
    erewrite bind_ok.
    2:{ unfold when_, copy2. erewrite bind_ok; [|reflexivity].
        cbn [disk set_disk set_drawn set_manager clock]. rewrite lookup_insert_eq. reflexivity. }
    erewrite bind_ok; [|apply filesystem_backups_spec]. reflexivity.
  - done.
  - done.
Qed.

Lemma sealed_record_opens mk w :
  Fernet_key_ok mk = true ->
  sealed_tree mk (content (sealed_record mk w)) = Some (filesystem w).
Proof.
  intros Hk. unfold sealed_tree, sealed_record. cbn [content].
  rewrite Hcorrect by done. rewrite Hjson. cbn [p_data p_checksum].
  rewrite bool_decide_eq_true_2 by done. apply Hjson.
Qed.

Lemma sealed_record_nonempty mk w :
  Fernet_key_ok mk = true -> content (sealed_record mk w) <> [].
Proof.
  intros Hk He. unfold sealed_record in He. cbn [content] in He.
  pose proof (Hframing mk (rng w (drawn w))
    (json_dumps (Doc_payload
          {| p_data := json_dumps (filesystem w);
             p_checksum := sha256 (json_dumps (filesystem w));
             p_timestamp := isoformat (clock w); p_version := "2.0" |})) Hk) as Hf.
  rewrite He in Hf. cbn [length] in Hf.
  pose proof (RefLibFacts.token_len_lower (Z.of_nat (length (json_dumps (Doc_payload
          {| p_data := json_dumps (filesystem w);
             p_checksum := sha256 (json_dumps (filesystem w));
             p_timestamp := isoformat (clock w); p_version := "2.0" |}))))). lia.
Qed.

End Reopen.


(** ** What the vault writes *)

Section Frames.
Context `{L : CryptoLib} `{J : JsonLib}.

Lemma wrote_only_refl P w : wrote_only P w w.
Proof. by split. Qed.

Lemma wrote_only_trans P w1 w2 w3 : wrote_only P w1 w2 -> wrote_only P w2 w3 -> wrote_only P w1 w3.
Proof.
  intros [Hf1 Hd1] [Hf2 Hd2]. split; [congruence|].
  intros p Hp. by rewrite Hd2, Hd1.
Qed.

Lemma keeps_writes P {A} (m : vault A) : keeps_disk m -> writes_only P m.
Proof. intros H w r w' Hm. destruct (H w r w' Hm) as [Hd Hf]. split; [done|]. intros p _. by rewrite Hd. Qed.

Lemma keeps_bind {A B} (m : vault A) (f : A -> vault B) :
  keeps_disk m -> (forall a, keeps_disk (f a)) -> keeps_disk (m ≫= f).
Proof.
  intros Hm Hf w r w'. unfold mbind, vault_bind.
  destruct (m w) as [[a|e] w1] eqn:E; intros H.
  - destruct (Hf a w1 r w' H) as [-> ->]. exact (Hm w _ w1 E).
  - injection H as <- <-. exact (Hm w _ w1 E).
Qed.

Lemma writes_bind P {A B} (m : vault A) (f : A -> vault B) :
  writes_only P m -> (forall a, writes_only P (f a)) -> writes_only P (m ≫= f).
Proof.
  intros Hm Hf w r w'. unfold mbind, vault_bind.
  destruct (m w) as [[a|e] w1] eqn:E; intros H.
  - eapply wrote_only_trans; [exact (Hm w _ w1 E)|exact (Hf a w1 r w' H)].
  - injection H as <- <-. exact (Hm w _ w1 E).
Qed.

Lemma writes_try P {A} (body : vault A) handler :
  writes_only P body -> (forall e, writes_only P (handler e)) ->
  writes_only P (try_except body handler).
Proof.
  intros Hm Hf w r w'. unfold try_except.
  destruct (body w) as [[a|e] w1] eqn:E; intros H.
  - injection H as <- <-. exact (Hm w _ w1 E).
  - eapply wrote_only_trans; [exact (Hm w _ w1 E)|exact (Hf e w1 r w' H)].
Qed.

Lemma keeps_ret {A} (a : A) : keeps_disk (mret a).
Proof. intros w r w' H. by injection H as <- <-. Qed.

Lemma keeps_raise {A} e : keeps_disk (raise (A := A) e).
Proof. intros w r w' H. by injection H as <- <-. Qed.

Lemma keeps_lift {A} (x : result A) : keeps_disk (lift x).
Proof. intros w r w' H. by injection H as <- <-. Qed.

Lemma keeps_get_world : keeps_disk get_world.
Proof. intros w r w' H. by injection H as <- <-. Qed.

Lemma keeps_draw : keeps_disk draw.
Proof. intros w r w' H. by injection H as <- <-. Qed.

Lemma keeps_get_master_key : keeps_disk _get_master_key.
Proof.
  intros w r w'. unfold _get_master_key.
  destruct (needs_rekeying _); [by intros [= <- <-]|].
  destruct (container_retrieve _). by intros [= <- <-].
Qed.

Lemma keeps_retrieve_active_key kid c : keeps_disk (retrieve_active_key kid c).
Proof.
  intros w r w'. unfold retrieve_active_key.
  destruct (container_retrieve _). by intros [= <- <-].
Qed.

Lemma writes_write_file P path data : P path = true -> writes_only P (write_file path data).
Proof.
  intros HP w r w' H. injection H as <- <-. split; [done|]. intros p Hp. cbn.
  apply lookup_insert_ne. intros ->. congruence.
Qed.

Lemma writes_remove_file P path : P path = true -> writes_only P (remove_file path).
Proof.
  intros HP w r w' H. injection H as <- <-. split; [done|]. intros p Hp. cbn.
  apply lookup_delete_ne. intros ->. congruence.
Qed.

Create HintDb frame.
#[local] Hint Resolve keeps_ret keeps_raise keeps_lift keeps_get_world keeps_draw
  keeps_get_master_key keeps_retrieve_active_key : frame.

Ltac keeps :=
  repeat first
    [ apply keeps_bind; [|intros ?]
    | solve [eauto with frame]
    | progress case_match ].

Lemma keeps_token_hex n : keeps_disk (token_hex n).
Proof. unfold token_hex. keeps. Qed.

Lemma keeps_path_exists p : keeps_disk (path_exists p).
Proof. unfold path_exists. keeps. Qed.

Lemma keeps_read_file p : keeps_disk (read_file p).
Proof. unfold read_file. keeps. Qed.

#[local] Hint Resolve keeps_token_hex keeps_path_exists keeps_read_file : frame.

Lemma keeps_getsize p : keeps_disk (getsize p).
Proof. unfold getsize. keeps. Qed.

Lemma keeps_calculate_file_hash p : keeps_disk (calculate_file_hash p).
Proof. unfold calculate_file_hash. keeps. Qed.

Lemma keeps_select_key kid : keeps_disk (select_key kid).
Proof. unfold select_key. keeps. Qed.

#[local] Hint Resolve keeps_getsize keeps_calculate_file_hash keeps_select_key : frame.

Lemma keeps_encrypt_data data kid : keeps_disk (encrypt_data data kid).
Proof. unfold encrypt_data. keeps. Qed.

#[local] Hint Resolve keeps_encrypt_data : frame.

Lemma keeps_encrypt_file_key fk k : keeps_disk (encrypt_file_key fk k).
Proof. unfold encrypt_file_key. keeps. Qed.

Lemma keeps_encrypt_chunks fuel ff data : keeps_disk (encrypt_chunks fuel ff data).
Proof.
  revert data. induction fuel as [|fuel IH]; intros data; [apply keeps_ret|].
  destruct data as [|b data]; [apply keeps_ret|].
  rewrite encrypt_chunks_cons. keeps.
Qed.

Lemma keeps_is_folder_unlocked fid : keeps_disk (is_folder_unlocked fid).
Proof. unfold is_folder_unlocked. keeps. Qed.

Lemma keeps_get_folder_key fid : keeps_disk (get_folder_key fid).
Proof. unfold get_folder_key. keeps. Qed.

#[local] Hint Resolve keeps_encrypt_file_key keeps_encrypt_chunks keeps_is_folder_unlocked
  keeps_get_folder_key : frame.

Lemma storage_path file_id : in_vault_storage (encrypted_files_path file_id) = true.
Proof. apply prefix_append. Qed.

Lemma writes_when P b (m : vault unit) : writes_only P m -> writes_only P (when_ b m).
Proof. intros Hm. destruct b; [exact Hm|]. apply keeps_writes, keeps_ret. Qed.

Ltac writes :=
  repeat first
    [ apply writes_bind; [|intros ?]
    | apply writes_when; unfold _secure_delete_file
    | apply writes_try; [|intros ?]
    | solve [apply keeps_writes; eauto with frame]
    | solve [apply writes_write_file, storage_path]
    | solve [apply writes_remove_file, storage_path]
    | progress case_match ].

Lemma writes_encrypt_large_file file_path folder_key :
  writes_only in_vault_storage (encrypt_large_file file_path folder_key).
Proof. unfold encrypt_large_file. writes. Qed.

Lemma writes_encrypt_file file_path folder_key :
  writes_only in_vault_storage (encrypt_file file_path folder_key).
Proof.
  unfold encrypt_file. writes.
Qed.

Lemma vault_bind_cases {A B} (m : vault A) (f : A -> vault B) w r w' :
  (m ≫= f) w = (r, w') ->
  (exists a w1, m w = (Ok a, w1) /\ f a w1 = (r, w')) \/
  (exists e, m w = (Raise e, w') /\ r = Raise e).
Proof.
  unfold mbind, vault_bind. destruct (m w) as [[a|e] w1]; intros H.
  - left. eauto.
  - right. injection H as <- <-. eauto.
Qed.

Lemma encrypt_large_file_returns file_path folder_key w vf file_id w' :
  encrypt_large_file file_path folder_key w = (Ok (vf, file_id), w') ->
  vf = encrypted_files_path file_id.
Proof.
  unfold encrypt_large_file. intros H.
  apply vault_bind_cases in H as [(e & w1 & _ & H)|(? & _ & ?)]; [|done].
  apply vault_bind_cases in H as [(ff & w2 & _ & H)|(? & _ & ?)]; [|done].
  apply vault_bind_cases in H as [(fid & w3 & _ & H)|(? & _ & ?)]; [|done].
  unfold try_except in H.
  match type of H with (let (_, _) := ?b w3 in _) = _ => destruct (b w3) as [[x|e1] w4] eqn:Hb end.
  - injection H as -> _.
    apply vault_bind_cases in Hb as [(? & ? & _ & Hb)|(? & _ & ?)]; [|done].
    apply vault_bind_cases in Hb as [(? & ? & _ & Hb)|(? & _ & ?)]; [|done].
    apply vault_bind_cases in Hb as [(? & ? & _ & Hb)|(? & _ & ?)]; [|done].
    apply vault_bind_cases in Hb as [(? & ? & _ & Hb)|(? & _ & ?)]; [|done].
    apply vault_bind_cases in Hb as [(? & ? & _ & Hb)|(? & _ & ?)]; [|done].
    by injection Hb as <- <-.
  - apply vault_bind_cases in H as [(? & ? & _ & H)|(? & _ & ?)]; [|done].
    apply vault_bind_cases in H as [(? & ? & _ & H)|(? & _ & ?)]; [|done].
    done.
Qed.

Lemma encrypt_file_returns file_path folder_key w vf file_id w' :
  encrypt_file file_path folder_key w = (Ok (vf, file_id), w') ->
  vf = encrypted_files_path file_id.
Proof.
  unfold encrypt_file. intros H.
  apply vault_bind_cases in H as [(present & w1 & _ & H)|(? & _ & ?)]; [|done].
  destruct (negb present); [done|].
  apply vault_bind_cases in H as [(size & w2 & _ & H)|(? & _ & ?)]; [|done].
  destruct (ten_MiB <? size); [by apply encrypt_large_file_returns in H|].
  apply vault_bind_cases in H as [(? & ? & _ & H)|(? & _ & ?)]; [|done].
  apply vault_bind_cases in H as [(? & ? & _ & H)|(? & _ & ?)]; [|done].
  apply vault_bind_cases in H as [(? & ? & _ & H)|(? & _ & ?)]; [|done].
  apply vault_bind_cases in H as [(? & ? & _ & H)|(? & _ & ?)]; [|done].
  apply vault_bind_cases in H as [(? & ? & _ & H)|(? & _ & ?)]; [|done].
  apply vault_bind_cases in H as [(fid & ? & _ & H)|(? & _ & ?)]; [|done].
  unfold try_except in H.
  match type of H with (let (_, _) := ?b ?w3 in _) = _ => destruct (b w3) as [[y|e1] w4] eqn:Hb end.
  - injection H as -> _.
    apply vault_bind_cases in Hb as [(? & ? & _ & Hb)|(? & _ & ?)]; [|done].
    apply vault_bind_cases in Hb as [(? & ? & _ & Hb)|(? & _ & ?)]; [|done].
    by injection Hb as <- <-.
  - apply vault_bind_cases in H as [(? & ? & _ & H)|(? & _ & ?)]; [|done].
    apply vault_bind_cases in H as [(? & ? & _ & H)|(? & _ & ?)]; [|done].
    done.
Qed.

Lemma add_file_spec file_path folder w r w' :
  _transactional_add_file file_path folder w = (r, w') ->
  (forall p, in_vault_storage p = false -> disk w' !! p = disk w !! p) /\
  match r with
  | Raise _ => filesystem w' = filesystem w
  | Ok file_id =>
      exists t fd,
        filesystem w = Doc_tree t /\ filesystem w' = Doc_tree (add_file_node fd t) /\
        node_id fd = file_id /\ folder_id fd = folder /\
        original_name fd = basename file_path /\
        vault_filename fd = encrypted_files_path file_id
  end.
Proof.
  unfold _transactional_add_file. intros H.
  assert (Hraise : forall (e : exn) w1, wrote_only in_vault_storage w w1 ->
            (forall p, in_vault_storage p = false -> disk w1 !! p = disk w !! p) /\
            filesystem w1 = filesystem w) by (by intros e w1 [? ?]).
  apply vault_bind_cases in H as [(unlocked & w1 & H1 & H)|(e & H1 & ->)].
  2:{ apply (Hraise e). eapply (keeps_writes _ _ (keeps_is_folder_unlocked _)), H1. }
  pose proof (keeps_writes in_vault_storage _ (keeps_is_folder_unlocked _) _ _ _ H1) as R1.
  destruct (_ && _).
  { injection H as <- <-. by apply (Hraise (PermissionError "")). }
  apply vault_bind_cases in H as [(present & w2 & H2 & H)|(e & H2 & ->)].
  2:{ apply (Hraise e). eapply wrote_only_trans; [exact R1|].
      eapply (keeps_writes _ _ (keeps_path_exists _)), H2. }
  pose proof (wrote_only_trans _ _ _ _ R1
    (keeps_writes in_vault_storage _ (keeps_path_exists _) _ _ _ H2)) as R2.
  destruct (negb present).
  { injection H as <- <-. by apply (Hraise (PermissionError "")). }
  assert (Hfk : keeps_disk (if String.eqb folder "root" then mret None
                            else k ← get_folder_key folder; mret (Some k))).
  { destruct (String.eqb folder "root"); keeps. }
  apply vault_bind_cases in H as [(folder_key & w3 & H3 & H)|(e & H3 & ->)].
  2:{ apply (Hraise e). eapply wrote_only_trans; [exact R2|].
      eapply (keeps_writes _ _ Hfk), H3. }
  pose proof (wrote_only_trans _ _ _ _ R2
    (keeps_writes in_vault_storage _ Hfk _ _ _ H3)) as R3.
  apply vault_bind_cases in H as [(file_size & w4 & H4 & H)|(e & H4 & ->)].
  2:{ apply (Hraise e). eapply wrote_only_trans; [exact R3|].
      eapply (keeps_writes _ _ (keeps_getsize _)), H4. }
  pose proof (wrote_only_trans _ _ _ _ R3
    (keeps_writes in_vault_storage _ (keeps_getsize _) _ _ _ H4)) as R4.
  assert (Henc : writes_only in_vault_storage
            (if ten_MiB <? file_size then encrypt_large_file file_path folder_key
             else encrypt_file file_path folder_key)).
  { destruct (ten_MiB <? file_size);
      [apply writes_encrypt_large_file|apply writes_encrypt_file]. }
  apply vault_bind_cases in H as [([vf file_id] & w5 & H5 & H)|(e & H5 & ->)].
  2:{ apply (Hraise e). eapply wrote_only_trans; [exact R4|]. eapply Henc, H5. }
  pose proof (wrote_only_trans _ _ _ _ R4 (Henc _ _ _ H5)) as R5.
  assert (Hvf : vf = encrypted_files_path file_id).
  { destruct (ten_MiB <? file_size);
      [by apply encrypt_large_file_returns in H5|by apply encrypt_file_returns in H5]. }
  unfold try_except in H.
  erewrite bind_ok in H by reflexivity.
  erewrite bind_ok in H by reflexivity.
  destruct (filesystem w5) as [t|pl|o] eqn:Hfs.
  - erewrite bind_ok in H by reflexivity. injection H as <- <-.
    split; [apply R5|]. destruct R5 as [Rf _]. rewrite Hfs in Rf.
    eexists t, _. split_and!; [done|reflexivity|done..].
  - assert (Hh : keeps_disk (present ← path_exists vf;
                             when_ present (_secure_delete vf);; raise (A := string) TypeError)).
    { unfold when_, _secure_delete. keeps. }
    cbn [raise] in H. destruct r as [x|e].
    + apply vault_bind_cases in H as [(? & ? & _ & H)|(? & _ & ?)]; [|done].
      apply vault_bind_cases in H as [(? & ? & _ & H)|(? & _ & ?)]; [|done]. done.
    + apply (Hraise e). eapply wrote_only_trans; [exact R5|].
      eapply (keeps_writes _ _ Hh), H.
  - assert (Hh : keeps_disk (present ← path_exists vf;
                             when_ present (_secure_delete vf);; raise (A := string) TypeError)).
    { unfold when_, _secure_delete. keeps. }
    cbn [raise] in H. destruct r as [x|e].
    + apply vault_bind_cases in H as [(? & ? & _ & H)|(? & _ & ?)]; [|done].
      apply vault_bind_cases in H as [(? & ? & _ & H)|(? & _ & ?)]; [|done]. done.
    + apply (Hraise e). eapply wrote_only_trans; [exact R5|].
      eapply (keeps_writes _ _ Hh), H.
Qed.

Lemma backup_outside_storage name : in_vault_storage (path_join backups_dir name) = false.
Proof. reflexivity. Qed.

Lemma create_backup_spec tx w r w' :
  _create_backup tx w = (r, w') ->
  filesystem w' = filesystem w /\
  match r with
  | Ok tx2 =>
      exists name blob,
        tx2 = {| operations := operations tx; _state := _state tx;
                 _backup_files := _backup_files tx ++ [path_join backups_dir name] |} /\
        String.prefix "transaction_backup_" name = true /\
        disk w' = <[path_join backups_dir name := blob]> (disk w)
  | Raise _ => disk w' = disk w
  end.
Proof.
  unfold _create_backup. intros H.
  erewrite bind_ok in H by reflexivity.
  apply vault_bind_cases in H as [(suffix & w1 & H1 & H)|(e & H1 & ->)].
  2:{ by destruct (keeps_token_hex _ _ _ _ H1). }
  destruct (keeps_token_hex _ _ _ _ H1) as [Hd1 Hf1].
  apply vault_bind_cases in H as [(blob & w2 & H2 & H)|(e & H2 & ->)].
  2:{ destruct (keeps_encrypt_data _ _ _ _ _ H2) as [Hd2 Hf2]. split; congruence. }
  destruct (keeps_encrypt_data _ _ _ _ _ H2) as [Hd2 Hf2].
  erewrite bind_ok in H by reflexivity. injection H as <- <-.
  split; [cbn; congruence|].
  eexists _, _. split_and!; [reflexivity|apply prefix_append|].
  cbn. by rewrite Hd2, Hd1.
Qed.

Lemma run_operations_spec ops : forall results tx w r tx' w',
  run_operations ops results tx w = (r, tx', w') ->
  match r with
  | Ok res =>
      tx' = set_state committed tx /\
      Forall (fun op => unsupported op = false) ops /\
      map fst res = map fst results ++ map op_id_of ops /\
      (forall p, in_vault_storage p = false -> disk w' !! p = disk w !! p)
  | Raise _ => _state tx' = failed
  end.
Proof.
  induction ops as [|op ops IH]; intros results tx w r tx' w' H.
  - injection H as <- <- <-. cbn. by rewrite app_nil_r.
  - cbn [run_operations] in H.
    destruct (_execute_operation op w) as [[x|e] w1] eqn:Hop.
    + apply IH in H. destruct r as [res|e]; [|done].
      destruct H as (-> & Hall & Hres & Hdisk).
      destruct op as [i fp fid| |]; [|done..].
      apply add_file_spec in Hop as [Hframe _].
      split_and!; [done|by constructor| |].
      * rewrite Hres, map_app. cbn. by rewrite <- app_assoc.
      * intros p Hp. by rewrite Hdisk, Hframe.
    + destruct (_rollback _ w1). by injection H as <- <- <-.
Qed.

End Frames.

(** ** Buffers and byte comparison *)

Lemma overwrite_tail raw fill n :
  length fill = n -> drop n (SecureString.overwrite raw fill n) = drop n raw.
Proof.
  intros Hf. unfold SecureString.overwrite.
  rewrite take_ge by lia. by rewrite drop_app_length'.
Qed.

Lemma byte_value_inj a b : FolderSecurity.byte_value a = FolderSecurity.byte_value b -> a = b.
Proof.
  unfold FolderSecurity.byte_value. intros H. apply N2Z.inj in H.
  assert (Hs : Some a = Some b) by (rewrite <- !Byte.of_to_N; by rewrite H).
  by injection Hs.
Qed.

Lemma fold_lor_zero (l : list (byte * byte)) acc :
  fold_left (fun result xy => Z.lor result (Z.lxor (FolderSecurity.byte_value xy.1) (FolderSecurity.byte_value xy.2))) l acc = 0
  <-> acc = 0 /\ Forall (fun xy => xy.1 = xy.2) l.
Proof.
  revert acc. induction l as [|[x y] l IH]; intros acc; cbn [fold_left].
  - split; [by intros ->|by intros [-> _]].
  - rewrite IH, Z.lor_eq_0_iff, Z.lxor_eq_0_iff, Forall_cons. cbn [fst snd].
    split.
    + intros [[-> Hxy] Hl]. by apply byte_value_inj in Hxy.
    + intros [-> [-> Hl]]. done.
Qed.


(** * The lockout state machine *)





(** * Timing of a recovery attempt *)

(** C8: the one-second floor of [recover_master_key] lies in the failure
    handler only.  A call that fails after the lockout check returns no
    earlier than one second after it started; a successful call returns as
    soon as its work is done, and a call refused by the lockout check returns
    at once. *)
Theorem recovery_delay_floor `{L : CryptoLib} (cfg : config) (fa : gmap string (list Q))
    (answers : list string) (now work : Q) :
  let o := recover_master_key cfg fa answers now work in
  (returned o = Raise bad_answers -> (now + 1 <= finished_at o)%Q) /\
  (forall master_key, returned o = Ok master_key -> finished_at o = (now + work)%Q) /\
  (forall remaining, returned o = Raise (LockedOut remaining) -> finished_at o = now).
Proof.
  intros o. split_and!.
  - intros Hr. apply recover_failed in Hr as (_ & _ & Hf). subst o. rewrite Hf.
    apply sleep_until_floor_ge.
  - intros mk Hr. by apply recover_succeeded in Hr as (_ & _ & _ & Hf).
  - intros remaining Hr. by apply recover_refused in Hr as (_ & _ & Hf).
Qed.

(** A wrong answer, checked in a tenth of a second, returns at second 1. *)
Lemma recovery_delay_floor_witness :
  let o := recover_master_key (L := RefLib.lib) Sample.cfg ∅ ["x"%string] 0 (1 # 10) in
  returned o = Raise bad_answers /\ (0 + 1 <= finished_at o)%Q.
Proof.
  intros o.
  assert (Hr : returned o = Raise bad_answers) by (by vm_compute).
  split; [exact Hr|].
  exact (proj1 (recovery_delay_floor (L := RefLib.lib) Sample.cfg ∅ ["x"%string] 0 (1 # 10)) Hr).
Defined.

(** The right answer, checked in a fifth of a second, returns the master key
    at that time: no floor on the success path. *)
Lemma successful_recovery_is_not_delayed :
  let o := recover_master_key (L := RefLib.lib) Sample.cfg ∅ ["Rex"%string] 0 (1 # 5) in
  returned o = Ok Sample.master_key /\
  finished_at o = (0 + (1 # 5))%Q /\
  ~ (0 + 1 <= finished_at o)%Q.
Proof. intros o. split_and!; by vm_compute. Qed.

(** * Lockout after three failures *)




(** * Changing the master password *)

(** C7: when [change_master_password cfg old new] succeeds it returns the
    master key that [get_master_key cfg old] returned; the new record differs
    from [cfg] at most in the password hash, the wrapped master key, the
    wrapped password encoder key (with its salt), the password hint and the
    change timestamp; the recovery functions behave on it as on [cfg];
    [get_master_key] with the new password returns the same master key; and
    with the old password it fails provided the two passwords differ (bcrypt
    taken as binding). *)
Theorem change_master_password_frame `{L : CryptoLib}
    (Hcorrect : Fernet_correct L) (Hkeys : Fernet_keys_ok L)
    (Hcomplete : bcrypt_complete L) (Hbinding : bcrypt_binding L)
    (cfg cfg' : config) (old_password new_password new_hint : string)
    (e : change_entropy) (timestamp : string) (master_key : bytes) :
  change_master_password cfg old_password new_password new_hint e timestamp
    = Ok (master_key, cfg') ->
  get_master_key cfg old_password = Ok master_key /\
  (encrypted_recovery_key cfg' = encrypted_recovery_key cfg /\
   encrypted_recovery_encoder cfg' = encrypted_recovery_encoder cfg /\
   recovery_questions cfg' = recovery_questions cfg /\
   recovery_setup_date cfg' = recovery_setup_date cfg /\
   user_id cfg' = user_id cfg /\
   created_at cfg' = created_at cfg /\
   security_version cfg' = security_version cfg) /\
  (forall fa answers now work,
      recover_master_key cfg' fa answers now work = recover_master_key cfg fa answers now work) /\
  (forall fa answers now work,
      verify_recovery_answers cfg' fa answers now work
        = verify_recovery_answers cfg fa answers now work) /\
  get_master_key cfg' new_password = Ok master_key /\
  (old_password <> new_password ->
   get_master_key cfg' old_password = Raise (ValueError "wrong master password")).
Proof.
  unfold change_master_password.
  destruct (get_master_key cfg old_password) as [mk|] eqn:Hold; simpl; [|done].
  rewrite fernet_encrypt_ok by apply (generated_key_ok Hkeys). simpl.
  rewrite (encrypt_with_password_ok Hkeys). simpl.
  intros [= <- <-]. split_and!; try done.
  - unfold get_master_key, verify_master_password. simpl.
    rewrite Hcomplete. simpl.
    erewrite (password_path_unwraps Hcorrect Hkeys); [done| |simpl; reflexivity|simpl; reflexivity].
    apply (generated_key_ok Hkeys).
  - intros Hne. unfold get_master_key, verify_master_password. simpl.
    destruct (bcrypt_checkpw (encode old_password) _) eqn:Hc; simpl; [|done].
    apply Hbinding in Hc. by apply encode_inj in Hc.
Qed.

(** The sample record, its password changed. *)
Lemma change_master_password_frame_witness :
  get_master_key (L := RefLib.lib) Sample.cfg Sample.password = Ok Sample.master_key /\
  get_master_key (L := RefLib.lib) Sample.cfg_changed Sample.new_password = Ok Sample.master_key /\
  get_master_key (L := RefLib.lib) Sample.cfg_changed Sample.password
    = Raise (ValueError "wrong master password").
Proof.
  destruct (change_master_password_frame (L := RefLib.lib)
              RefLibFacts.Fernet_correct_ref RefLibFacts.Fernet_keys_ok_ref
              RefLibFacts.bcrypt_complete_ref RefLibFacts.bcrypt_binding_ref
              Sample.cfg Sample.cfg_changed Sample.password Sample.new_password "hint2"
              Sample.new_entropy Sample.timestamp Sample.master_key)
    as (Hold & _ & _ & _ & Hnew & Hfail); [by vm_compute|].
  split_and!; [exact Hold|exact Hnew|apply Hfail; by vm_compute].
Defined.

(** Changing the password to itself succeeds and the old password still
    unlocks. *)
Lemma old_password_survives_change_to_itself :
  Sample.changed_same = Ok (Sample.master_key, Sample.cfg_changed_same) /\
  get_master_key (L := RefLib.lib) Sample.cfg_changed_same Sample.password
    = Ok Sample.master_key.
Proof. split; by vm_compute. Qed.

(** * Verifying recovery answers *)

Section Answers.
Context `{L : CryptoLib}.

Lemma hash_recovery_answers_length i ea (qs : list (string * string)) :
  length (hash_recovery_answers i ea qs) = length qs.
Proof. revert i. induction qs as [|[q a] qs IH]; intros i; simpl; [done|]. by rewrite IH. Qed.

(** Both ways of configuring recovery store [hash_recovery_answers] of the
    questions. *)
Lemma configured_questions cfg qs mk :
  configured_with cfg qs mk ->
  exists ea, recovery_questions cfg = Some (hash_recovery_answers 0 ea qs).
Proof.
  intros [(pw & hint & e & ts & Hc) | (cfg0 & pw & e & ts & _ & Hs)].
  - exists (e_answers e). revert Hc. unfold create_master_password.
    destruct (_validate_password_strength pw); [done|]. intros Hc.
    do 4 apply result_bind_inv in Hc as (? & _ & Hc). by injection Hc as _ <-.
  - exists (q_answers e). revert Hs. unfold setup_recovery_questions.
    intros Hs. do 3 apply result_bind_inv in Hs as (? & _ & Hs). by injection Hs as <-.
Qed.

(** The stored hash is of the answer as typed, the check hashes the answer
    in lower case. *)
Lemma check_answers_uppercase (Hbinding : bcrypt_binding L) i ea
    (qs : list (string * string)) :
  Exists (fun qa => str_lower qa.2 <> qa.2) qs ->
  check_answers qs (hash_recovery_answers i ea qs) = false.
Proof.
  intros Hex. revert i. induction Hex as [[q a] qs Ha | [q a] qs _ IH]; intros i; simpl.
  - destruct (bcrypt_checkpw _ _) eqn:Hc; [|done]. exfalso.
    apply Hbinding in Hc. apply app_inv_tail in Hc. by apply encode_inj in Hc.
  - destruct (bcrypt_checkpw _ _); [|done]. apply IH.
Qed.

End Answers.

(** C6 (refuted): the answers are hashed as typed when they are configured
    ([create_master_password], [setup_recovery_questions]) and in lower case
    when they are verified.  With bcrypt taken as binding,
    [verify_recovery_answers] with exactly the configured question-answer
    pairs returns false as soon as one answer contains an upper-case letter,
    locked out or not. *)
Theorem capitalised_answers_never_verify `{L : CryptoLib} (Hbinding : bcrypt_binding L)
    (cfg : config) (qs : list (string * string)) (mk : bytes)
    (fa : gmap string (list Q)) (now work : Q) :
  configured_with cfg qs mk ->
  Exists (fun qa => str_lower qa.2 <> qa.2) qs ->
  returned (verify_recovery_answers cfg fa qs now work) = Ok false.
Proof.
  intros Hcfg Hex. destruct (configured_questions cfg qs mk Hcfg) as [ea Hq].
  unfold verify_recovery_answers. rewrite Hq. simpl.
  rewrite hash_recovery_answers_length, Nat.eqb_refl. simpl.
  destruct (is_locked_out _ _ _); [done|]. simpl.
  by rewrite check_answers_uppercase.
Qed.

(** The record created with the answer "Rex" rejects "Rex". *)
Lemma capitalised_answers_never_verify_witness :
  returned (verify_recovery_answers (L := RefLib.lib) Sample.cfg ∅ Sample.questions 0 (1 # 10))
    = Ok false.
Proof.
  apply (capitalised_answers_never_verify (L := RefLib.lib) RefLibFacts.bcrypt_binding_ref
           Sample.cfg Sample.questions Sample.master_key ∅ 0 (1 # 10)).
  - left. exists Sample.password, "hint"%string, Sample.entropy, Sample.timestamp.
    by vm_compute.
  - apply Exists_cons_hd. by vm_compute.
Defined.

(** The same through [setup_recovery_questions]: the answer "Paris" as typed
    is rejected, and so is "paris"; both calls record a failed attempt. *)
Lemma reconfigured_answers_do_not_verify :
  let typed := verify_recovery_answers (L := RefLib.lib) Sample.cfg_reconfigured ∅
                 [("City?"%string, "Paris"%string)] 0 (1 # 10) in
  let lower := verify_recovery_answers (L := RefLib.lib) Sample.cfg_reconfigured ∅
                 [("City?"%string, "paris"%string)] 0 (1 # 10) in
  Sample.reconfigured = Ok Sample.cfg_reconfigured /\
  returned typed = Ok false /\
  returned lower = Ok false /\
  attempts_after typed !! uid_of Sample.cfg_reconfigured = Some [(0 + (1 # 10))%Q].
Proof. intros typed lower. split_and!; by vm_compute. Qed.


(** * Transactions *)

(** C3 (refuted): a transaction of three staged adds whose second names a
    file that does not exist.  [commit] raises the wrapped error and leaves
    the transaction failed, but nothing is rolled back: [_create_backup]
    seals the tree itself while [_restore_from_backup] reads the ['data'] key
    of a sealed record, so the restore raises [KeyError], which [_rollback]
    swallows before it removes anything.  The tree keeps the first file, its
    ciphertext stays on disk, and so does the transaction backup. *)
Theorem failed_commit_is_not_rolled_back :
  let before := SampleVault.before_commit in
  let '(r, tx, after) := SampleVault.committed_run in
  operations SampleVault.staged =
    [Add_file "op1" "a.txt" "root"; Add_file "op2" "missing.txt" "root";
     Add_file "op3" "a.txt" "root"] /\
  r = Raise (TransactionError (FileNotFoundError "missing.txt")) /\
  _state tx = failed /\
  file_count (filesystem before) = 0%nat /\
  file_count (filesystem after) = 1%nat /\
  length (paths_below backups_dir before) = 1%nat /\
  length (paths_below backups_dir after) = 2%nat /\
  _backup_files tx ⊆ paths_below backups_dir after /\
  length (_backup_files tx) = 1%nat /\
  paths_below "data/encrypted_files" before = [] /\
  length (paths_below "data/encrypted_files" after) = 1%nat.
Proof.
  vm_compute. split_and!; try reflexivity.
  intros x Hx. apply list_elem_of_singleton in Hx. subst x. set_solver.
Qed.

(** * Sealing and opening files *)

(** C4 (refuted): the roundtrip fails for every file above the 10 MiB
    threshold.  [encrypt_file] hands such a file to [encrypt_large_file],
    which writes one Fernet token per 65536-byte chunk, 87480 bytes each;
    [decrypt_file] then selects [decrypt_large_file], which reads 65636 bytes
    at a time, so its first read is a proper prefix of the first token and is
    rejected.  Whatever the output path, the call raises and leaves no
    output. *)
Theorem streamed_file_does_not_open `{L : CryptoLib}
    (Hcorrect : Fernet_correct L) (Hkeys : Fernet_keys_ok L) (Hlength : Fernet_key_length L)
    (Hframing : Fernet_framing L) (Htrunc : Fernet_rejects_truncation L)
    (w : world) (file_path : string) (f : file) (mk : bytes) (uses : nat) :
  disk w !! file_path = Some f ->
  ten_MiB < Z.of_nat (length (content f)) ->
  key_loaded w mk uses -> Fernet_key_ok mk = true ->
  (uses + 2 <= _max_usage_before_rekey)%nat ->
  exists vault_filename file_id w1,
    encrypt_file file_path None w = (Ok (vault_filename, file_id), w1) /\
    forall output_path, exists w2,
      decrypt_file vault_filename output_path None w1
        = (Raise (ValueError "decryption error"), w2) /\
      disk w2 !! output_path = None.
Proof.
  intros Hf Hbig Hl Hk Hu.
  assert (Hne : content f ≠ []).
  { intros E. rewrite E in Hbig. unfold ten_MiB in Hbig. simpl in Hbig. lia. }
  assert (Hu1 : (S uses <= _max_usage_before_rekey)%nat) by lia.
  destruct (encrypt_large_file_spec Hkeys Hlength Hframing w file_path f mk uses Hf Hl Hk Hu1 Hne)
    as (rest & w1 & Henc & Hdisk & Hl1 & _ & _ & _ & Hlen).
  eexists _, _, w1. split.
  { unfold encrypt_file.
    erewrite bind_ok; [|reflexivity]. rewrite Hf, bool_decide_eq_true_2 by eauto.
    cbn [negb]. unfold getsize.
    erewrite bind_ok; [|erewrite bind_ok; [reflexivity|]; unfold read_file;
                        erewrite bind_ok; [|reflexivity]; rewrite Hf; reflexivity].
    apply Z.ltb_lt in Hbig. rewrite Hbig. exact Henc. }
  intros output_path.
  set (vf := encrypted_files_path _) in *.
  assert (Hvf : disk w1 !! vf = Some {| content := [x00; x00; x00; x8c] ++
            Fernet_encrypt mk (rng w (S (S (drawn w)))) (Fernet_generate_key (rng w (drawn w))) ++
            Fernet_encrypt (Fernet_generate_key (rng w (drawn w))) (rng w (S (S (S (drawn w)))))
              (take _chunk_size (content f)) ++ rest; mtime := clock w |}).
  { rewrite Hdisk. apply lookup_insert_eq. }
  pose proof chunk_size_Z as Hcs.
  assert (Hfirst : length (take _chunk_size (content f)) = _chunk_size).
  { rewrite length_take. unfold ten_MiB in Hbig. lia. }
  destruct (decrypt_large_file_rejects Hcorrect Hkeys Hlength Hframing Htrunc
              w1 vf output_path _ mk (S uses) _ _ _ _ rest
              Hvf eq_refl) as (w2 & Hdec & Hd2 & _).
  { apply (full_chunk_token_too_long Hframing); [apply Hkeys|done]. }
  { done. } { done. } { lia. }
  exists w2. split; [|rewrite Hd2; apply lookup_delete_eq].
  unfold decrypt_file.
  erewrite bind_ok; [|reflexivity]. rewrite Hvf, bool_decide_eq_true_2 by eauto.
  cbn [negb]. unfold getsize.
  erewrite bind_ok; [|erewrite bind_ok; [reflexivity|]; unfold read_file;
                      erewrite bind_ok; [|reflexivity]; rewrite Hvf; reflexivity].
  cbn [content].
  assert (Hbig2 : (ten_MiB <? Z.of_nat (length ([x00; x00; x00; x8c] ++
            Fernet_encrypt mk (rng w (S (S (drawn w)))) (Fernet_generate_key (rng w (drawn w))) ++
            Fernet_encrypt (Fernet_generate_key (rng w (drawn w))) (rng w (S (S (S (drawn w)))))
              (take _chunk_size (content f)) ++ rest))) = true).
  { apply Z.ltb_lt. rewrite length_app, (length_app (Fernet_encrypt mk _ _)).
    cbn [length]. lia. }
  rewrite Hbig2. exact Hdec.
Qed.

(** A file of 10 MiB and one byte, sealed by a fresh manager. *)
Lemma streamed_file_does_not_open_witness :
  exists vault_filename file_id w1,
    encrypt_file (L := RefLib.lib) "big.bin" None SampleFiles.world_with_big_file
      = (Ok (vault_filename, file_id), w1) /\
    exists w2,
      decrypt_file (L := RefLib.lib) vault_filename "out.bin" None w1
        = (Raise (ValueError "decryption error"), w2) /\
      disk w2 !! "out.bin"%string = None.
Proof.
  destruct (streamed_file_does_not_open (L := RefLib.lib)
              RefLibFacts.Fernet_correct_ref RefLibFacts.Fernet_keys_ok_ref
              RefLibFacts.Fernet_key_length_ref RefLibFacts.Fernet_framing_ref
              RefLibFacts.Fernet_rejects_truncation_ref
              SampleFiles.world_with_big_file "big.bin" SampleFiles.big
              SampleVault.master_key 0)
    as (vf & fid & w1 & Henc & Hdec).
  - apply lookup_singleton_eq.
  - unfold SampleFiles.big. cbn [content]. rewrite length_replicate, Z2Nat.id; unfold ten_MiB; lia.
  - reflexivity.
  - by vm_compute.
  - unfold _max_usage_before_rekey. lia.
  - exists vf, fid, w1. split; [exact Henc|]. apply Hdec.
Defined.

(** * Large files in the store *)

(** C1 (refuted): a file above the 10 MiB threshold is added to the root
    folder (the operation a transaction executes for a staged add), and can
    then neither be extracted nor verified: [_transactional_extract_file] and
    [verify_integrity] call [self.crypto._create_secure_temp_file()], a method
    the crypto manager does not have.  The add succeeds and records the file;
    every extraction raises [AttributeError] and writes nothing;
    [verify_integrity] reports a check error for the file. *)
Theorem large_file_is_not_extractable `{L : CryptoLib} `{J : JsonLib}
    (Hkeys : Fernet_keys_ok L) (Hlength : Fernet_key_length L) (Hframing : Fernet_framing L)
    (w : world) (op_id file_path : string) (f : file) (mk : bytes) (uses : nat) (t : tree) :
  disk w !! file_path = Some f ->
  ten_MiB < Z.of_nat (length (content f)) ->
  key_loaded w mk uses -> Fernet_key_ok mk = true ->
  (S uses <= _max_usage_before_rekey)%nat ->
  filesystem w = Doc_tree t ->
  exists file_id w1,
    _execute_operation (Add_file op_id file_path "root") w = (Ok file_id, w1) /\
    (exists file_data t1,
        filesystem w1 = Doc_tree t1 /\
        default ∅ (files t1) !! file_id = Some file_data /\
        file_size file_data = Z.of_nat (length (content f)) /\
        is_Some (disk w1 !! vault_filename file_data)) /\
    (forall output_dir,
        _transactional_extract_file file_id output_dir w1
          = (Raise (AttributeError "_create_secure_temp_file"), w1)) /\
    (exists issues,
        verify_integrity w1 = (Ok issues, w1) /\
        Check_error file_id (AttributeError "_create_secure_temp_file") ∈ issues).
Proof.
  intros Hf Hbig Hl Hk Hu Hfs.
  assert (Hne : content f ≠ []).
  { intros E. rewrite E in Hbig. unfold ten_MiB in Hbig. simpl in Hbig. lia. }
  destruct (encrypt_large_file_spec Hkeys Hlength Hframing w file_path f mk uses Hf Hl Hk Hu Hne)
    as (rest & w1 & Henc & Hdisk & Hl1 & Hfs1 & _ & Hclock & _).
  set (file_id := string_of_list_byte _) in *.
  set (vf := encrypted_files_path file_id) in *.
  assert (Hadd : exists file_data,
    _transactional_add_file file_path "root" w
      = (Ok file_id, set_filesystem (Doc_tree (add_file_node file_data t)) w1) /\
    node_id file_data = file_id /\ vault_filename file_data = vf /\
    folder_id file_data = "root"%string /\
    file_size file_data = Z.of_nat (length (content f))).
  { unfold _transactional_add_file.
    erewrite bind_ok; [|reflexivity]. cbn [String.eqb Ascii.eqb Bool.eqb negb andb].
    erewrite bind_ok; [|reflexivity]. rewrite Hf, bool_decide_eq_true_2 by eauto. cbn [negb].
    erewrite bind_ok; [|reflexivity].
    erewrite bind_ok; [|unfold getsize; erewrite bind_ok; [reflexivity|]; unfold read_file;
                        erewrite bind_ok; [|reflexivity]; rewrite Hf; reflexivity].
    apply Z.ltb_lt in Hbig. rewrite Hbig.
    erewrite bind_ok; [|exact Henc].
    eexists. split.
    - apply try_except_ok. erewrite bind_ok; [|reflexivity].
      erewrite bind_ok; [|reflexivity]. rewrite Hfs1, Hfs.
      erewrite bind_ok; [|reflexivity]. reflexivity.
    - done. }
  destruct Hadd as (file_data & Hadd & Hid & Hvf & Hroot & Hsize).
  set (w2 := set_filesystem (Doc_tree (add_file_node file_data t)) w1) in *.
  assert (Hfile : default ∅ (files (add_file_node file_data t)) !! file_id = Some file_data).
  { rewrite <- Hid. apply files_add_file_node. }
  assert (Hpresent : is_Some (disk w2 !! vault_filename file_data)).
  { rewrite Hvf. change (disk w2) with (disk w1). rewrite Hdisk, lookup_insert_eq. eauto. }
  exists file_id, w2. split_and!.
  - exact Hadd.
  - exists file_data, (add_file_node file_data t). done.
  - intros output_dir.
    by apply (extract_needs_missing_helper w2 file_id output_dir file_data (add_file_node file_data t)).
  - destruct (verify_integrity_spec w2 (add_file_node file_data t) eq_refl) as [folder_issues Hv].
    eexists. split; [exact Hv|].
    apply elem_of_app. left. apply list_elem_of_bind.
    exists (file_id, file_data). split; [|by apply elem_of_map_to_list].
    unfold verify_file_report. cbn [fst snd].
    rewrite bool_decide_eq_true_2 by done. rewrite Hvf. cbn. set_solver.
Qed.

(** A file of 10 MiB and one byte added to a fresh store. *)
Lemma large_file_is_not_extractable_witness :
  exists file_id w1,
    _transactional_add_file (L := RefLib.lib) (J := RefLib.json) "big.bin" "root"
      SampleFiles.world_with_big_file = (Ok file_id, w1) /\
    _transactional_extract_file (L := RefLib.lib) file_id "out" w1
      = (Raise (AttributeError "_create_secure_temp_file"), w1) /\
    exists issues,
      verify_integrity (L := RefLib.lib) w1 = (Ok issues, w1) /\
      Check_error file_id (AttributeError "_create_secure_temp_file") ∈ issues.
Proof.
  destruct (large_file_is_not_extractable (L := RefLib.lib) (J := RefLib.json)
              RefLibFacts.Fernet_keys_ok_ref RefLibFacts.Fernet_key_length_ref
              RefLibFacts.Fernet_framing_ref
              SampleFiles.world_with_big_file "op1" "big.bin" SampleFiles.big
              SampleVault.master_key 0 (default_tree "2024-01-01T00:00:00"))
    as (file_id & w1 & Hadd & _ & Hextract & Hverify).
  - apply lookup_singleton_eq.
  - unfold SampleFiles.big. cbn [content]. rewrite length_replicate, Z2Nat.id; unfold ten_MiB; lia.
  - reflexivity.
  - by vm_compute.
  - unfold _max_usage_before_rekey. lia.
  - reflexivity.
  - exists file_id, w1. split_and!; [exact Hadd|apply Hextract|exact Hverify].
Defined.

(** * Reopening a vault whose tree file is damaged *)




(** Only the most recent backup is tried: with garbage in it and a usable
    older backup next to it, the vault reopens with an empty tree. *)
Lemma older_backups_are_not_tried :
  let '(r, w) := SampleReload.reopen SampleReload.disk_garbled_twice in
  r = Ok tt /\
  disk w !! quarantine_path 2000 = Some SampleReload.garbage /\
  (SampleReload.disk_garbled_twice !! path_join backups_dir "filesystem_backup_1500.json.enc"
     ≫= fun backup =>
          file_count <$> sealed_tree (L := RefLib.lib) (J := RefLib.json)
                           SampleVault.master_key (content backup))
    = Some 1%nat /\
  file_count (filesystem w) = 0%nat.
Proof. vm_compute. split_and!; reflexivity. Qed.

(** * Sealing and opening, by size *)

(** What [encrypt_data] seals under the master key, [decrypt_data] opens:
    the in-memory roundtrip holds for every plaintext. *)
Theorem sealed_data_opens `{L : CryptoLib}
    (Hcorrect : Fernet_correct L) (Hlength : Fernet_key_length L)
    (w : world) (mk : bytes) (uses : nat) (data : bytes) :
  key_loaded w mk uses -> Fernet_key_ok mk = true ->
  (uses + 2 <= _max_usage_before_rekey)%nat ->
  exists token w1 w2,
    encrypt_data data None w = (Ok token, w1) /\
    decrypt_data token None w1 = (Ok data, w2) /\
    key_loaded w2 mk (uses + 2).
Proof.
  intros Hl Hk Hu. eexists _, _, _. split_and!.
  - apply (encrypt_data_ok Hlength w mk uses); [done..|lia].
  - apply (decrypt_data_ok Hcorrect Hlength _ mk (S uses)); [reflexivity|done|lia].
  - unfold key_loaded. cbn. by replace (uses + 2)%nat with (S (S uses)) by lia.
Qed.

(** A file whose ciphertext stays within 10 MiB is sealed and opened in
    one piece, and comes back byte for byte. *)
Theorem small_file_roundtrip `{L : CryptoLib}
    (Hcorrect : Fernet_correct L) (Hkeys : Fernet_keys_ok L) (Hlength : Fernet_key_length L)
    (Hframing : Fernet_framing L)
    (w : world) (file_path output_path : string) (f : file) (mk : bytes) (uses : nat) :
  disk w !! file_path = Some f ->
  144 + fernet_token_len (Z.of_nat (length (content f))) <= ten_MiB ->
  key_loaded w mk uses -> Fernet_key_ok mk = true ->
  (uses + 2 <= _max_usage_before_rekey)%nat ->
  exists vault_filename file_id w1 w2,
    encrypt_file file_path None w = (Ok (vault_filename, file_id), w1) /\
    decrypt_file vault_filename output_path None w1 = (Ok tt, w2) /\
    content <$> disk w2 !! output_path = Some (content f).
Proof.
  intros Hf Hsmall Hl Hk Hu.
  pose proof (RefLibFacts.token_len_lower (Z.of_nat (length (content f)))) as Hlow.
  assert (Hu1 : (S uses <= _max_usage_before_rekey)%nat) by lia.
  assert (Hu2 : (S (S uses) <= _max_usage_before_rekey)%nat) by lia.
  assert (Hplain : Z.of_nat (length (content f)) <= ten_MiB) by lia.
  destruct (encrypt_file_single_shot Hkeys Hlength Hframing w file_path f mk uses
              Hf Hplain Hl Hk Hu1) as (w1 & Henc & Hdisk & Hl1 & _).
  set (vf := encrypted_files_path _) in *.
  assert (Hvf : disk w1 !! vf = Some {| content := [x00; x00; x00; x8c] ++
            Fernet_encrypt mk (rng w (S (S (drawn w)))) (Fernet_generate_key (rng w (drawn w))) ++
            Fernet_encrypt (Fernet_generate_key (rng w (drawn w))) (rng w (S (drawn w)))
              (content f); mtime := clock w |}).
  { rewrite Hdisk. apply lookup_insert_eq. }
  destruct (decrypt_file_single_shot Hcorrect Hkeys Hlength Hframing w1 vf output_path _
              mk (S uses) _ _ _ _ Hvf eq_refl) as (w2 & Hdec & Hd2 & _); [|done..|].
  { cbn [content]. rewrite length_app, length_app.
    rewrite (wrapped_key_length Hkeys Hlength Hframing) by done.
    pose proof (Hframing (Fernet_generate_key (rng w (drawn w))) (rng w (S (drawn w)))
                  (content f) (proj1 Hkeys _)).
    cbn [length]. lia. }
  eexists vf, _, w1, w2. split_and!; [exact Henc|exact Hdec|].
  by rewrite Hd2, lookup_insert_eq.
Qed.


(** A file of at most 10 MiB whose ciphertext exceeds 10 MiB is sealed in
    one piece and then handed to the streaming reader, which rejects it. *)
Theorem mid_size_file_does_not_open `{L : CryptoLib}
    (Hcorrect : Fernet_correct L) (Hkeys : Fernet_keys_ok L) (Hlength : Fernet_key_length L)
    (Hframing : Fernet_framing L) (Htrunc : Fernet_rejects_truncation L)
    (w : world) (file_path output_path : string) (f : file) (mk : bytes) (uses : nat) :
  disk w !! file_path = Some f ->
  Z.of_nat (length (content f)) <= ten_MiB ->
  ten_MiB < 144 + fernet_token_len (Z.of_nat (length (content f))) ->
  key_loaded w mk uses -> Fernet_key_ok mk = true ->
  (uses + 2 <= _max_usage_before_rekey)%nat ->
  exists vault_filename file_id w1 w2,
    encrypt_file file_path None w = (Ok (vault_filename, file_id), w1) /\
    decrypt_file vault_filename output_path None w1
      = (Raise (ValueError "decryption error"), w2) /\
    disk w2 !! output_path = None.
Proof.
  intros Hf Hplain Hbig Hl Hk Hu.
  assert (Hu1 : (S uses <= _max_usage_before_rekey)%nat) by lia.
  assert (Hu2 : (S (S uses) <= _max_usage_before_rekey)%nat) by lia.
  destruct (encrypt_file_single_shot Hkeys Hlength Hframing w file_path f mk uses
              Hf Hplain Hl Hk Hu1) as (w1 & Henc & Hdisk & Hl1 & _).
  set (vf := encrypted_files_path _) in *.
  set (fk := Fernet_generate_key (rng w (drawn w))) in *.
  set (sealed := Fernet_encrypt fk (rng w (S (drawn w))) (content f)) in *.
  set (wrapped := Fernet_encrypt mk (rng w (S (S (drawn w)))) fk) in *.
  assert (Hvf : disk w1 !! vf = Some {| content := [x00; x00; x00; x8c] ++ wrapped ++ sealed;
                                        mtime := clock w |}).
  { rewrite Hdisk. apply lookup_insert_eq. }
  assert (Hsealed : Z.of_nat (length sealed) = fernet_token_len (Z.of_nat (length (content f)))).
  { apply Hframing, Hkeys. }
  assert (Hwrapped : length wrapped = 140%nat).
  { by apply (wrapped_key_length Hkeys Hlength Hframing). }
  pose proof chunk_size_Z as Hcs. unfold ten_MiB in *.
  destruct (decrypt_large_file_rejects Hcorrect Hkeys Hlength Hframing Htrunc
              w1 vf output_path _ mk (S uses) (rng w (S (S (drawn w)))) (rng w (drawn w))
              (rng w (S (drawn w))) (content f) [] Hvf) as (w2 & Hdec & Hd2 & _).
  { cbn [content]. by rewrite app_nil_r. }
  { fold fk sealed. lia. }
  { done. } { done. } { lia. }
  eexists vf, _, w1, w2. split_and!; [exact Henc| |rewrite Hd2; apply lookup_delete_eq].
  unfold decrypt_file.
  erewrite bind_ok; [|reflexivity]. rewrite Hvf, bool_decide_eq_true_2 by eauto.
  cbn [negb]. unfold getsize.
  erewrite bind_ok; [|erewrite bind_ok; [reflexivity|]; unfold read_file;
                      erewrite bind_ok; [|reflexivity]; rewrite Hvf; reflexivity].
  cbn [content].
  replace (ten_MiB <? Z.of_nat (length ([x00; x00; x00; x8c] ++ wrapped ++ sealed))) with true.
  { exact Hdec. }
  symmetry. apply Z.ltb_lt. rewrite !length_app. cbn [length]. unfold ten_MiB. lia.
Qed.

(** ** Sample runs *)

Lemma sealed_data_opens_witness :
  exists token w1 w2,
    encrypt_data (L := RefLib.lib) (encode "hello") None SampleFiles.world_with_big_file
      = (Ok token, w1) /\
    decrypt_data (L := RefLib.lib) token None w1 = (Ok (encode "hello"), w2).
Proof.
  destruct (sealed_data_opens (L := RefLib.lib) RefLibFacts.Fernet_correct_ref
              RefLibFacts.Fernet_key_length_ref SampleFiles.world_with_big_file
              SampleVault.master_key 0 (encode "hello"))
    as (token & w1 & w2 & Henc & Hdec & _);
    [reflexivity|by vm_compute|unfold _max_usage_before_rekey; lia|].
  by exists token, w1, w2.
Defined.

(** A five-byte file and the empty file. *)
Lemma small_file_roundtrip_witness :
  (exists vault_filename file_id w1 w2,
      encrypt_file (L := RefLib.lib) "a.txt" None SampleFiles.world_with_small_files
        = (Ok (vault_filename, file_id), w1) /\
      decrypt_file (L := RefLib.lib) vault_filename "out.txt" None w1 = (Ok tt, w2) /\
      content <$> disk w2 !! "out.txt"%string = Some (encode "hello")) /\
  (exists vault_filename file_id w1 w2,
      encrypt_file (L := RefLib.lib) "empty.txt" None SampleFiles.world_with_small_files
        = (Ok (vault_filename, file_id), w1) /\
      decrypt_file (L := RefLib.lib) vault_filename "out.txt" None w1 = (Ok tt, w2) /\
      content <$> disk w2 !! "out.txt"%string = Some []).
Proof.
  split.
  - apply (small_file_roundtrip (L := RefLib.lib) RefLibFacts.Fernet_correct_ref
             RefLibFacts.Fernet_keys_ok_ref RefLibFacts.Fernet_key_length_ref
             RefLibFacts.Fernet_framing_ref SampleFiles.world_with_small_files
             "a.txt" "out.txt" {| content := encode "hello"; mtime := 5 |}
             SampleVault.master_key 0);
      [by vm_compute|by vm_compute|reflexivity|by vm_compute
      |unfold _max_usage_before_rekey; lia].
  - apply (small_file_roundtrip (L := RefLib.lib) RefLibFacts.Fernet_correct_ref
             RefLibFacts.Fernet_keys_ok_ref RefLibFacts.Fernet_key_length_ref
             RefLibFacts.Fernet_framing_ref SampleFiles.world_with_small_files
             "empty.txt" "out.txt" {| content := []; mtime := 6 |}
             SampleVault.master_key 0);
      [by vm_compute|by vm_compute|reflexivity|by vm_compute
      |unfold _max_usage_before_rekey; lia].
Defined.

Lemma mid_size_file_does_not_open_witness :
  exists vault_filename file_id w1 w2,
    encrypt_file (L := RefLib.lib) "mid.bin" None SampleFiles.world_with_mid_file
      = (Ok (vault_filename, file_id), w1) /\
    decrypt_file (L := RefLib.lib) vault_filename "out.bin" None w1
      = (Raise (ValueError "decryption error"), w2) /\
    disk w2 !! "out.bin"%string = None.
Proof.
  apply (mid_size_file_does_not_open (L := RefLib.lib) RefLibFacts.Fernet_correct_ref
           RefLibFacts.Fernet_keys_ok_ref RefLibFacts.Fernet_key_length_ref
           RefLibFacts.Fernet_framing_ref RefLibFacts.Fernet_rejects_truncation_ref
           SampleFiles.world_with_mid_file "mid.bin" "out.bin" SampleFiles.mid
           SampleVault.master_key 0).
  - apply lookup_singleton_eq.
  - unfold SampleFiles.mid. cbn [content]. rewrite length_replicate, Z2Nat.id; unfold ten_MiB; lia.
  - unfold SampleFiles.mid. cbn [content]. rewrite length_replicate, Z2Nat.id by lia.
    by vm_compute.
  - reflexivity.
  - by vm_compute.
  - unfold _max_usage_before_rekey. lia.
Defined.

(** * The two unlock paths *)

(** A record made by [create_master_password] yields the same master key on
    both paths: [get_master_key] with the password, and [recover_master_key]
    with the configured answers when recovery is configured and the
    identifier is not locked out. *)
Theorem both_unlock_paths_agree `{L : CryptoLib}
    (Hcorrect : Fernet_correct L) (Hkeys : Fernet_keys_ok L) (Hcomplete : bcrypt_complete L)
    (password hint : string) (qs : list (string * string)) (e : create_entropy)
    (timestamp : string) (mk : bytes) (cfg : config) :
  create_master_password password hint qs e timestamp = Ok (mk, cfg) ->
  _validate_password_strength password = None /\
  is_first_run cfg = false /\
  get_master_key cfg password = Ok mk /\
  (qs ≠ [] -> marker_free cfg ->
   forall fa now work,
     is_locked_out fa (uid_of cfg) now = false ->
     returned (recover_master_key cfg fa (map snd qs) now work) = Ok mk).
Proof.
  intros Hc.
  assert (Hvalid : _validate_password_strength password = None).
  { unfold create_master_password in Hc.
    by destruct (_validate_password_strength password). }
  pose proof (create_master_password_inv Hkeys _ _ _ _ _ _ _ Hc)
    as (Hmk & Hhash & Hemk & Herk & Hpe & Hre & _).
  split_and!.
  - exact Hvalid.
  - unfold is_first_run. by rewrite Hhash.
  - unfold get_master_key, verify_master_password. rewrite Hhash. simpl.
    rewrite Hcomplete. simpl.
    by erewrite (password_path_unwraps Hcorrect Hkeys);
      [|apply (generated_key_ok Hkeys)|exact Hpe|exact Hemk].
  - intros Hqs Hmf fa now work Hl.
    rewrite (recover_unlocked_ok cfg fa (map snd qs) now work mk Hl); [done|].
    apply (configured_recovery_unwraps Hcorrect Hkeys); [|done..].
    left. by exists password, hint, e, timestamp.
Qed.

Lemma both_unlock_paths_agree_witness :
  get_master_key (L := RefLib.lib) Sample.cfg Sample.password = Ok Sample.master_key /\
  returned (recover_master_key (L := RefLib.lib) Sample.cfg ∅ ["Rex"%string] 0 (1 # 10))
    = Ok Sample.master_key.
Proof.
  destruct (both_unlock_paths_agree (L := RefLib.lib) RefLibFacts.Fernet_correct_ref
              RefLibFacts.Fernet_keys_ok_ref RefLibFacts.bcrypt_complete_ref
              Sample.password "hint" Sample.questions Sample.entropy Sample.timestamp
              Sample.master_key Sample.cfg) as (_ & _ & Hpw & Hrec); [by vm_compute|].
  split; [exact Hpw|].
  apply (Hrec ltac:(done)); [|done].
  intros blob Hb. vm_compute in Hb. injection Hb as <-. by vm_compute.
Defined.

(** [setup_recovery_questions] replaces the recovery path only: the password
    path behaves as before, and the new answers recover the master key the
    password unlocks. *)
Theorem setup_recovery_questions_frame `{L : CryptoLib}
    (Hcorrect : Fernet_correct L) (Hkeys : Fernet_keys_ok L)
    (cfg cfg' : config) (password : string) (qs : list (string * string))
    (e : questions_entropy) (timestamp : string) :
  setup_recovery_questions cfg password qs e timestamp = Ok cfg' ->
  exists mk,
    get_master_key cfg password = Ok mk /\
    (forall pw, get_master_key cfg' pw = get_master_key cfg pw) /\
    master_password_hash cfg' = master_password_hash cfg /\
    encrypted_master_key cfg' = encrypted_master_key cfg /\
    encrypted_master_password_encoder cfg' = encrypted_master_password_encoder cfg /\
    user_id cfg' = user_id cfg /\
    (qs ≠ [] -> marker_free cfg' ->
     forall fa now work,
       is_locked_out fa (uid_of cfg') now = false ->
       returned (recover_master_key cfg' fa (map snd qs) now work) = Ok mk).
Proof.
  intros Hs.
  assert (Hframe : master_password_hash cfg' = master_password_hash cfg /\
                   encrypted_master_key cfg' = encrypted_master_key cfg /\
                   encrypted_master_password_encoder cfg'
                     = encrypted_master_password_encoder cfg /\
                   user_id cfg' = user_id cfg).
  { pose proof Hs as Hs'. unfold setup_recovery_questions in Hs'.
    do 3 apply result_bind_inv in Hs' as (? & _ & Hs'). by injection Hs' as <-. }
  destruct Hframe as (Hh & Hm & He & Hu).
  destruct (get_master_key cfg password) as [mk|err] eqn:Hg.
  2:{ unfold setup_recovery_questions in Hs. by rewrite Hg in Hs. }
  exists mk. split_and!; try done.
  - intros pw. unfold get_master_key, verify_master_password, get_master_key_body.
    by rewrite Hh, Hm, He.
  - intros Hqs Hmf fa now work Hl.
    rewrite (recover_unlocked_ok cfg' fa (map snd qs) now work mk Hl); [done|].
    apply (configured_recovery_unwraps Hcorrect Hkeys); [|done..].
    right. by exists cfg, password, e, timestamp.
Qed.

Lemma setup_recovery_questions_frame_witness :
  get_master_key (L := RefLib.lib) Sample.cfg_reconfigured Sample.password
    = Ok Sample.master_key /\
  returned (recover_master_key (L := RefLib.lib) Sample.cfg_reconfigured ∅
              ["Paris"%string] 0 (1 # 10)) = Ok Sample.master_key.
Proof.
  destruct (setup_recovery_questions_frame (L := RefLib.lib) RefLibFacts.Fernet_correct_ref
              RefLibFacts.Fernet_keys_ok_ref Sample.cfg Sample.cfg_reconfigured
              Sample.password [("City?"%string, "Paris"%string)] Sample.questions_entropy'
              Sample.timestamp) as (mk & Hg & Hpw & _ & _ & _ & _ & Hrec); [by vm_compute|].
  assert (mk = Sample.master_key) as ->.
  { assert (Hg' : get_master_key (L := RefLib.lib) Sample.cfg Sample.password
                    = Ok Sample.master_key) by (by vm_compute).
    rewrite Hg in Hg'. by injection Hg'. }
  split; [by rewrite Hpw|].
  apply (Hrec ltac:(done)); [|done].
  intros blob Hb. vm_compute in Hb. injection Hb as <-. by vm_compute.
Defined.


(** The not-configured test is a substring search over salt and token: a
    record whose random recovery salt contains the bytes NO_RECOVERY_SETUP is
    taken as not configured, and the right answers are refused. *)
Lemma marker_in_salt_disables_recovery :
  let o := recover_master_key (L := RefLib.lib) Sample.cfg_unlucky ∅ ["Rex"%string] 0 (1 # 10) in
  returned o = Raise bad_answers /\
  length (default [] (attempts_after o !! uid_of Sample.cfg_unlucky)) = 2%nat.
Proof. intros o. split; by vm_compute. Qed.

(** * The master key container *)



(** A cleared container never hands out a key, however often it is cleared. *)
Theorem cleared_container_never_retrieves (c : SecureKeyContainer) :
  container_secure_clear (container_secure_clear c) = container_secure_clear c /\
  exists message,
    container_retrieve (container_secure_clear c)
      = (Raise (ValueError message), container_secure_clear c).
Proof. split; [done|]. eexists. reflexivity. Qed.

(** * Saving the tree *)

(** [_save_filesystem] leaves the tree in memory as it is and writes a tree
    file from which [sealed_tree] reads that tree back. *)
Theorem saved_tree_is_sealed `{L : CryptoLib} `{J : JsonLib}
    (Hcorrect : Fernet_correct L) (Hlength : Fernet_key_length L) (Hjson : json_roundtrip J)
    (w : world) (mk : bytes) (uses : nat) :
  key_loaded w mk uses -> Fernet_key_ok mk = true ->
  (S uses <= _max_usage_before_rekey)%nat ->
  exists w' fl,
    _save_filesystem w = (Ok tt, w') /\
    filesystem w' = filesystem w /\
    disk w' !! filesystem_path = Some fl /\
    mtime fl = clock w /\
    sealed_tree mk (content fl) = Some (filesystem w).
Proof.
  intros Hl Hk Hu.
  destruct (save_filesystem_spec Hlength mk Hk w uses Hl Hu)
    as (w' & Hsave & (Hfs & _) & _ & Hfile).
  eexists w', _. split_and!; [exact Hsave|exact Hfs|exact Hfile|done|].
  unfold sealed_tree. cbn [content].
  rewrite Hcorrect by done. rewrite Hjson. cbn [p_data p_checksum].
  rewrite bool_decide_eq_true_2 by done. apply Hjson.
Qed.

Lemma saved_tree_is_sealed_witness :
  exists w' fl,
    _save_filesystem (L := RefLib.lib) (J := RefLib.json) SampleFiles.world_with_small_files
      = (Ok tt, w') /\
    disk w' !! filesystem_path = Some fl /\
    sealed_tree (L := RefLib.lib) (J := RefLib.json) SampleVault.master_key (content fl)
      = Some (Doc_tree (default_tree "2024-01-01T00:00:00")).
Proof.
  destruct (saved_tree_is_sealed (L := RefLib.lib) (J := RefLib.json)
              RefLibFacts.Fernet_correct_ref RefLibFacts.Fernet_key_length_ref
              RefJsonFacts.json_roundtrip_ref SampleFiles.world_with_small_files
              SampleVault.master_key 0)
    as (w' & fl & Hsave & _ & Hfile & _ & Hsealed);
    [reflexivity|by vm_compute|unfold _max_usage_before_rekey; lia|].
  by exists w', fl.
Defined.

(** A vault created at time 1000 and reopened at time 2000: the healthy tree
    file is quarantined like a damaged one, and the tree comes back from the
    backup made at time 1000. *)
Lemma healthy_tree_file_is_quarantined_too :
  let '(r, w) := SampleReload.reopen (disk SampleVault.opened) in
  r = Ok tt /\
  disk w !! quarantine_path 2000 = disk SampleVault.opened !! filesystem_path /\
  is_Some (disk SampleVault.opened !! filesystem_path) /\
  filesystem w = Doc_tree (default_tree (isoformat 1000)).
Proof. vm_compute. split_and!; [reflexivity..|eauto|reflexivity]. Qed.

(** * More of the credential manager *)

(** ** The password policy *)

(** The entropy check rejects nothing: a password that passes the length
    check always passes the entropy check, so no password is ever refused as
    not complex enough. *)
Theorem entropy_check_never_rejects (password : string) :
  _validate_password_strength password <> Some "not complex enough"%string /\
  ((12 <= String.length password)%nat -> 48 <= _calculate_password_entropy_x10 password).
Proof.
  assert (He : (12 <= String.length password)%nat ->
               48 <= _calculate_password_entropy_x10 password)
    by apply entropy_of_long_password.
  split; [|exact He]. unfold _validate_password_strength.
  destruct (String.length password <? 12)%nat eqn:E1; [done|].
  apply Nat.ltb_ge in E1. apply He in E1.
  replace (_calculate_password_entropy_x10 password <? 35) with false
    by (symmetry; apply Z.ltb_ge; lia).
  repeat (match goal with |- context [if ?b then _ else _] => destruct b end; try done).
Qed.

(** An accepted password stays accepted with a line feed appended: the
    [latin_only] pattern ends in [$], which also matches before one final
    line feed. *)
Theorem trailing_newline_is_accepted (password : string) :
  _validate_password_strength password = None ->
  forallb allowed_character (list_ascii_of_string password) = true ->
  _validate_password_strength (password +:+ newline) = None.
Proof.
  unfold _validate_password_strength. intros Hv Hall.
  destruct (String.length password <? 12)%nat eqn:E1; [done|].
  destruct (_calculate_password_entropy_x10 password <? 35) eqn:E2; [done|].
  destruct (re_search is_upper password) eqn:E3; [|done].
  destruct (re_search is_lower password) eqn:E4; [|done].
  destruct (re_search is_digit password) eqn:E5; [|done].
  destruct (re_search is_special password) eqn:E6; [|done].
  destruct (latin_only password) eqn:E7; [|done].
  destruct (_check_common_patterns password) eqn:E8; [|done].
  apply Nat.ltb_ge in E1.
  assert (Hlen : (12 <= String.length (password +:+ newline))%nat).
  { rewrite string_length_app. lia. }
  replace (String.length (password +:+ newline) <? 12)%nat with false
    by (symmetry; by apply Nat.ltb_ge).
  replace (_calculate_password_entropy_x10 (password +:+ newline) <? 35) with false.
  2:{ symmetry. apply Z.ltb_ge. pose proof (entropy_of_long_password _ Hlen). lia. }
  rewrite !re_search_app by done. cbn [negb].
  rewrite latin_only_newline, check_common_patterns_newline, E8; [done| |done].
  intros ->. simpl in E1. lia.
Qed.

Lemma trailing_newline_is_accepted_witness :
  _validate_password_strength Sample.password = None /\
  _validate_password_strength (Sample.password +:+ newline) = None.
Proof.
  split; [by vm_compute|].
  apply (trailing_newline_is_accepted Sample.password); by vm_compute.
Defined.

(** ** The attempt table *)

(** Entries age out: once every attempt of a trace is at least 600 seconds
    old, no identifier is locked and no remaining time is reported. *)
Theorem lockout_expires (trace : list lockout_event) (uid : string) (now : Q) :
  Forall (fun t => (t + lockout_time <= now)%Q) (stamps trace) ->
  is_locked_out (lockout_run trace) uid now = false /\
  get_remaining_time (lockout_run trace) uid now = 0.
Proof.
  intros Hold.
  assert (Hret : Forall (fun t => (t + lockout_time <= now)%Q)
                   (default [] (lockout_run trace !! uid))).
  { rewrite Forall_forall in *. intros t Ht. by apply Hold, (retained_among_stamps uid). }
  split.
  - apply not_locked_when_expired. unfold all_attempts.
    eapply Forall_impl; [exact Hret|]. simpl. intros t Ht. lra.
  - unfold get_remaining_time.
    destruct (lockout_run trace !! uid) as [[|a l]|]; simpl in *; try done.
    pose proof (list_min_in a l) as Hin.
    rewrite Forall_forall in Hret. apply Hret in Hin.
    apply Z.max_l. apply Qtrunc_le; [lia|]. change (inject_Z 0) with 0%Q. lra.
Qed.


(** Three attempts in the first three seconds lock the identifier, and the
    lock is gone 602 seconds after the first. *)
Lemma lockout_expires_witness :
  let trace := [Record_attempt "u" 0; Record_attempt "u" 1; Record_attempt "u" 2] in
  is_locked_out (lockout_run trace) "u" 3 = true /\
  is_locked_out (lockout_run trace) "u" 602 = false /\
  get_remaining_time (lockout_run trace) "u" 602 = 0.
Proof.
  intros trace. split; [by vm_compute|].
  apply (lockout_expires trace "u" 602).
  repeat constructor; by vm_compute.
Defined.

(** ** Refusals *)

(** A password other than the one the record was created with opens
    nothing: the check fails, and so do [get_master_key],
    [change_master_password] and [setup_recovery_questions] (bcrypt taken as
    binding). *)
Theorem wrong_password_is_refused `{L : CryptoLib} (Hbinding : bcrypt_binding L)
    (password hint : string) (qs : list (string * string)) (e : create_entropy)
    (timestamp : string) (mk : bytes) (cfg : config) (other : string) :
  create_master_password password hint qs e timestamp = Ok (mk, cfg) ->
  other <> password ->
  verify_master_password cfg other = Ok false /\
  get_master_key cfg other = Raise (ValueError "wrong master password") /\
  (forall new new_hint e' timestamp',
      change_master_password cfg other new new_hint e' timestamp'
        = Raise (ValueError "wrong master password")) /\
  (forall qs' e' timestamp',
      setup_recovery_questions cfg other qs' e' timestamp'
        = Raise (ValueError "wrong master password")).
Proof.
  intros Hc Hne. apply created_password_hash in Hc as (Hh & _).
  assert (Hv : verify_master_password cfg other = Ok false).
  { unfold verify_master_password. rewrite Hh. simpl. f_equal.
    destruct (bcrypt_checkpw _ _) eqn:Hcheck; [|done].
    apply Hbinding in Hcheck. by apply encode_inj in Hcheck. }
  assert (Hg : get_master_key cfg other = Raise (ValueError "wrong master password")).
  { unfold get_master_key. by rewrite Hv. }
  split_and!; [done|done| |].
  - intros. unfold change_master_password. by rewrite Hg.
  - intros. unfold setup_recovery_questions. by rewrite Hg.
Qed.


Lemma wrong_password_is_refused_witness :
  get_master_key (L := RefLib.lib) Sample.cfg Sample.password = Ok Sample.master_key /\
  get_master_key (L := RefLib.lib) Sample.cfg Sample.new_password
    = Raise (ValueError "wrong master password").
Proof.
  split; [by vm_compute|].
  apply (wrong_password_is_refused (L := RefLib.lib) RefLibFacts.bcrypt_binding_ref
           Sample.password "hint" Sample.questions Sample.entropy Sample.timestamp
           Sample.master_key Sample.cfg Sample.new_password).
  - by vm_compute.
  - discriminate.
Defined.

(** Before a master password exists nothing unlocks: the password functions
    raise [RuntimeError], and a recovery attempt on a record without a
    recovery blob fails like a wrong answer and counts as a failed attempt. *)
Theorem first_run_refuses_everything `{L : CryptoLib} (cfg : config) :
  is_first_run cfg = true ->
  (forall pw, exists message,
      verify_master_password cfg pw = Raise (RuntimeError message) /\
      get_master_key cfg pw = Raise (RuntimeError message) /\
      (forall new new_hint e ts,
          change_master_password cfg pw new new_hint e ts = Raise (RuntimeError message)) /\
      (forall qs e ts,
          setup_recovery_questions cfg pw qs e ts = Raise (RuntimeError message))) /\
  (encrypted_recovery_encoder cfg = None ->
   forall fa answers now work,
     is_locked_out fa (uid_of cfg) now = false ->
     returned (recover_master_key cfg fa answers now work) = Raise bad_answers /\
     attempts_after (recover_master_key cfg fa answers now work)
       = record_attempt fa (uid_of cfg) (now + work)).
Proof.
  unfold is_first_run. intros Hf.
  destruct (master_password_hash cfg) as [h|] eqn:Hh; [done|]. split.
  - intros pw. exists "create the master password first"%string.
    assert (Hv : verify_master_password cfg pw
                 = Raise (RuntimeError "create the master password first")).
    { unfold verify_master_password. rewrite Hh. reflexivity. }
    assert (Hg : get_master_key cfg pw
                 = Raise (RuntimeError "create the master password first")).
    { unfold get_master_key. rewrite Hv. reflexivity. }
    split_and!; [exact Hv|exact Hg| |].
    + intros. unfold change_master_password. by rewrite Hg.
    + intros. unfold setup_recovery_questions. by rewrite Hg.
  - intros Hnone fa answers now work Hl.
    unfold recover_master_key. fold (uid_of cfg). rewrite Hl.
    unfold recover_master_key_body. rewrite Hnone. simpl. done.
Qed.


Lemma first_run_refuses_everything_witness :
  is_first_run empty_config = true /\
  (exists message,
      get_master_key (L := RefLib.lib) empty_config Sample.password
        = Raise (RuntimeError message)) /\
  returned (recover_master_key (L := RefLib.lib) empty_config ∅ ["Rex"%string] 0 (1 # 10))
    = Raise bad_answers.
Proof.
  destruct (first_run_refuses_everything (L := RefLib.lib) empty_config eq_refl)
    as [Hpw Hrec].
  split; [done|]. split.
  - destruct (Hpw Sample.password) as (message & _ & Hg & _). by exists message.
  - by apply (Hrec eq_refl ∅ ["Rex"%string] 0%Q (1 # 10)%Q).
Defined.

(** ** The accessors *)

(** What a record is created with comes back through the accessors: the
    hint and the questions, but never an answer. *)
Theorem accessors_after_creation `{L : CryptoLib}
    (password hint : string) (qs : list (string * string)) (e : create_entropy)
    (timestamp : string) (mk : bytes) (cfg : config) :
  create_master_password password hint qs e timestamp = Ok (mk, cfg) ->
  get_password_hint cfg = hint /\
  map fst (get_recovery_questions cfg) = map fst qs /\
  Forall (fun qa => qa.2 = ""%string) (get_recovery_questions cfg) /\
  (forall fa now,
     status_recovery_configured (get_recovery_status cfg fa now)
       = negb (bool_decide (qs = []))).
Proof.
  intros Hc. apply created_password_hash in Hc as (_ & Hhint & Hq).
  assert (Hfst : forall i ea (l : list (string * string)),
             map question (hash_recovery_answers i ea l) = map fst l).
  { intros i ea l. revert i. induction l as [|[q a] l IH]; intros i; simpl; [done|].
    by rewrite IH. }
  split_and!.
  - unfold get_password_hint. by rewrite Hhint.
  - unfold get_recovery_questions. rewrite Hq. simpl.
    rewrite map_map. simpl. apply Hfst.
  - unfold get_recovery_questions. apply Forall_forall.
    intros x (q & -> & _)%list_elem_of_fmap. done.
  - intros fa now. unfold get_recovery_status. simpl. rewrite Hq. simpl.
    rewrite hash_recovery_answers_length. by destruct qs.
Qed.


Lemma accessors_after_creation_witness :
  get_password_hint Sample.cfg = "hint"%string /\
  get_recovery_questions Sample.cfg = [("Pet?"%string, ""%string)].
Proof.
  destruct (accessors_after_creation (L := RefLib.lib) Sample.password "hint"
              Sample.questions Sample.entropy Sample.timestamp Sample.master_key Sample.cfg)
    as (Hhint & _); [by vm_compute|].
  split; [exact Hhint|by vm_compute].
Defined.

(** ** The not-configured marker *)

(** The not-configured test is a substring search over the whole stored
    blob, salt included: a record whose random 32-byte recovery salt spells
    NO_RECOVERY_SETUP is taken as not configured, so recovery fails for every
    answer, the right ones included, and each call counts as two failed
    attempts. *)
Theorem marker_in_salt_refuses_recovery `{L : CryptoLib} (Hkeys : Fernet_keys_ok L)
    (password hint : string) (qs : list (string * string)) (e : create_entropy)
    (timestamp : string) (mk : bytes) (cfg : config)
    (fa : gmap string (list Q)) (answers : list string) (now work : Q) :
  create_master_password password hint qs e timestamp = Ok (mk, cfg) ->
  contains NO_RECOVERY_SETUP (token_bytes 32 (w_salt (e_questions_wrap e))) = true ->
  is_locked_out fa (uid_of cfg) now = false ->
  returned (recover_master_key cfg fa answers now work) = Raise bad_answers /\
  attempts_after (recover_master_key cfg fa answers now work)
    = record_attempt (record_attempt fa (uid_of cfg) now) (uid_of cfg) (now + work).
Proof.
  intros Hc Hmarker Hl.
  apply (create_master_password_inv Hkeys) in Hc as (_ & _ & _ & _ & _ & Hblob & _).
  destruct (encrypted_recovery_encoder cfg) as [blob|] eqn:Hb; [|done].
  assert (Hcontains : contains NO_RECOVERY_SETUP blob = true).
  { destruct qs as [|q qs].
    - injection Hblob as ->. by apply contains_app_l.
    - rewrite (encrypt_with_questions_ok Hkeys) in Hblob by done.
      injection Hblob as ->. by apply contains_app_l. }
  by rewrite (recover_unconfigured cfg fa answers now work blob Hb Hcontains Hl).
Qed.

Lemma marker_in_salt_refuses_recovery_witness :
  let o := recover_master_key (L := RefLib.lib) Sample.cfg_unlucky ∅ ["Rex"%string] 0 (1 # 10) in
  returned o = Raise bad_answers /\
  length (default [] (attempts_after o !! uid_of Sample.cfg_unlucky)) = 2%nat.
Proof.
  intros o.
  destruct (marker_in_salt_refuses_recovery (L := RefLib.lib) RefLibFacts.Fernet_keys_ok_ref
              Sample.password "hint" Sample.questions Sample.unlucky_entropy Sample.timestamp
              Sample.master_key Sample.cfg_unlucky ∅ ["Rex"%string] 0%Q (1 # 10)%Q)
    as [Hr Ha]; [by vm_compute..|].
  split; [exact Hr|]. subst o. rewrite Ha. by vm_compute.
Defined.

(** * More of the crypto manager *)

(** ** Registered keys *)

(** Data sealed under a registered key opens under the same key id, however
    often that key has been used: registered keys have no use ceiling, and
    the master key's counter does not move. *)
Theorem registered_key_roundtrip `{L : CryptoLib}
    (Hcorrect : Fernet_correct L) (Hlength : Fernet_key_length L)
    (w : world) (key_id : string) (key : bytes) (uses : nat) (data : bytes) :
  key_id <> ""%string -> Fernet_key_ok key = true ->
  _active_keys (manager w) !! key_id
    = Some {| _secure_key := Some key; _key_usage_count := uses |} ->
  exists token w1 w2,
    encrypt_data data (Some key_id) w = (Ok token, w1) /\
    decrypt_data token (Some key_id) w1 = (Ok data, w2) /\
    _master_key_container (manager w2) = _master_key_container (manager w) /\
    _active_keys (manager w2) !! key_id
      = Some {| _secure_key := Some key; _key_usage_count := uses + 2 |} /\
    disk w2 = disk w.
Proof.
  intros Hkid Hk Hreg.
  assert (Hne : key <> []) by (apply Hlength in Hk; by destruct key).
  eexists _, _, _. split_and!.
  - unfold encrypt_data. erewrite bind_ok; [|by apply select_registered_key].
    erewrite bind_ok; [|reflexivity]. unfold lift, fernet_encrypt, Fernet. by rewrite Hk.
  - unfold decrypt_data. erewrite bind_ok.
    2:{ apply select_registered_key; [done|done|]. cbn. apply lookup_insert_eq. }
    unfold lift, fernet_decrypt, Fernet, Fernet_decrypt_or_raise. rewrite Hk. cbn.
    by rewrite Hcorrect.
  - done.
  - cbn. rewrite lookup_insert_eq. do 2 f_equal. lia.
  - done.
Qed.


Lemma registered_key_roundtrip_witness :
  exists token w1 w2,
    encrypt_data (L := RefLib.lib) (encode "hello") (Some "folder1"%string)
      SampleKeys.registered = (Ok token, w1) /\
    decrypt_data (L := RefLib.lib) token (Some "folder1"%string) w1
      = (Ok (encode "hello"), w2).
Proof.
  destruct (registered_key_roundtrip (L := RefLib.lib) RefLibFacts.Fernet_correct_ref
              RefLibFacts.Fernet_key_length_ref SampleKeys.registered "folder1"
              SampleKeys.folder_key 0 (encode "hello"))
    as (token & w1 & w2 & Henc & Hdec & _); [discriminate|by vm_compute|by vm_compute|].
  by exists token, w1, w2.
Defined.

(** A key id that is empty or not registered is no error: the data is
    sealed under the master key instead, and opens without any key id. *)
Theorem unknown_key_id_seals_under_master_key `{L : CryptoLib}
    (Hcorrect : Fernet_correct L) (Hlength : Fernet_key_length L)
    (w : world) (key_id : string) (mk : bytes) (uses : nat) (data : bytes) :
  key_id = ""%string \/ _active_keys (manager w) !! key_id = None ->
  key_loaded w mk uses -> Fernet_key_ok mk = true ->
  (uses + 2 <= _max_usage_before_rekey)%nat ->
  exists token w1 w2,
    encrypt_data data (Some key_id) w = (Ok token, w1) /\
    decrypt_with_master_key token w1 = (Ok data, w2) /\
    key_loaded w2 mk (uses + 2).
Proof.
  intros Hunknown Hl Hk Hu.
  assert (Henc : encrypt_data data (Some key_id) w = encrypt_data data None w).
  { unfold encrypt_data, mbind, vault_bind. by rewrite select_unknown_key. }
  rewrite Henc. eexists _, _, _. split_and!.
  - apply (encrypt_data_ok Hlength w mk uses); [done..|lia].
  - apply (decrypt_data_ok Hcorrect Hlength _ mk (S uses)); [reflexivity|done|lia].
  - unfold key_loaded. cbn. by replace (uses + 2)%nat with (S (S uses)) by lia.
Qed.


Lemma unknown_key_id_seals_under_master_key_witness :
  exists token w1 w2,
    encrypt_data (L := RefLib.lib) (encode "hello") (Some "folder2"%string)
      SampleKeys.registered = (Ok token, w1) /\
    decrypt_with_master_key (L := RefLib.lib) token w1 = (Ok (encode "hello"), w2).
Proof.
  destruct (unknown_key_id_seals_under_master_key (L := RefLib.lib)
              RefLibFacts.Fernet_correct_ref RefLibFacts.Fernet_key_length_ref
              SampleKeys.registered "folder2" SampleVault.master_key 0 (encode "hello"))
    as (token & w1 & w2 & Henc & Hdec & _);
    [right; by vm_compute|reflexivity|by vm_compute|unfold _max_usage_before_rekey; lia|].
  by exists token, w1, w2.
Defined.

(** ** Files *)

(** Whenever [decrypt_file] fails on an existing vault file, nothing is left
    at the output path: a file that was there before the call is deleted,
    and the rest of the disk is as it was. *)
Theorem failed_decrypt_leaves_no_output `{L : CryptoLib}
    (w w' : world) (vault_file_path output_path : string) (folder_key : option bytes)
    (e : exn) :
  is_Some (disk w !! vault_file_path) ->
  decrypt_file vault_file_path output_path folder_key w = (Raise e, w') ->
  disk w' = delete output_path (disk w).
Proof.
  intros [fl Hfl] Hd. unfold decrypt_file in Hd.
  erewrite bind_ok in Hd; [|reflexivity]. rewrite bool_decide_eq_true_2 in Hd by eauto.
  cbn [negb] in Hd.
  erewrite bind_ok in Hd.
  2:{ unfold getsize. erewrite bind_ok; [reflexivity|]. unfold read_file.
      erewrite bind_ok; [|reflexivity]. by rewrite Hfl. }
  assert (Hread : read_file vault_file_path w = (Ok (content fl), w)).
  { unfold read_file. erewrite bind_ok; [|reflexivity]. by rewrite Hfl. }
  destruct (ten_MiB <? _).
  - unfold decrypt_large_file, try_except in Hd.
    erewrite bind_ok in Hd by exact Hread.
    match type of Hd with context [decrypt_file_key ?a ?b ≫= _] =>
      destruct (decrypt_file_key a b w) as [[k|e1] w1] eqn:Hkey end;
      pose proof (decrypt_file_key_disk _ _ _ _ _ Hkey) as Hdisk.
    + erewrite bind_ok in Hd by exact Hkey.
      unfold lift at 1 in Hd.
      destruct (Fernet k) as [ff|e2] eqn:Hf.
      * erewrite bind_ok in Hd by reflexivity.
        destruct (decrypt_chunks _ _ _) as [plain|e3] eqn:Hc.
        -- erewrite bind_ok in Hd by reflexivity. done.
        -- erewrite bind_raise in Hd by reflexivity.
           destruct (discard_output_spec (A := unit) output_path e3 w1) as (w2 & Hw2 & Hd2 & _).
           rewrite Hw2 in Hd. injection Hd as <- <-. by rewrite Hd2, Hdisk.
      * erewrite bind_raise in Hd by reflexivity.
        destruct (discard_output_spec (A := unit) output_path e2 w1) as (w2 & Hw2 & Hd2 & _).
        rewrite Hw2 in Hd. injection Hd as <- <-. by rewrite Hd2, Hdisk.
    + erewrite bind_raise in Hd by exact Hkey.
      destruct (discard_output_spec (A := unit) output_path e1 w1) as (w2 & Hw2 & Hd2 & _).
      rewrite Hw2 in Hd. injection Hd as <- <-. by rewrite Hd2, Hdisk.
  - unfold try_except in Hd.
    erewrite bind_ok in Hd by exact Hread.
    match type of Hd with context [decrypt_file_key ?a ?b ≫= _] =>
      destruct (decrypt_file_key a b w) as [[k|e1] w1] eqn:Hkey end;
      pose proof (decrypt_file_key_disk _ _ _ _ _ Hkey) as Hdisk.
    + erewrite bind_ok in Hd by exact Hkey.
      unfold lift at 1 in Hd.
      destruct (fernet_decrypt k _) as [plain|e2] eqn:Hf.
      * erewrite bind_ok in Hd by reflexivity. done.
      * erewrite bind_raise in Hd by reflexivity.
        destruct (discard_output_spec (A := unit) output_path e2 w1) as (w2 & Hw2 & Hd2 & _).
        rewrite Hw2 in Hd. injection Hd as <- <-. by rewrite Hd2, Hdisk.
    + erewrite bind_raise in Hd by exact Hkey.
      destruct (discard_output_spec (A := unit) output_path e1 w1) as (w2 & Hw2 & Hd2 & _).
      rewrite Hw2 in Hd. injection Hd as <- <-. by rewrite Hd2, Hdisk.
Qed.

(** Junk in the ciphertext file: the call raises and the older output file
    is gone. *)
Lemma failed_decrypt_leaves_no_output_witness :
  let '(r, w') := decrypt_file (L := RefLib.lib) "junk.myarc" "out.txt" None
                    SampleKeys.world_with_junk in
  is_Ok r = false /\
  is_Some (disk SampleKeys.world_with_junk !! "out.txt"%string) /\
  disk w' !! "out.txt"%string = None.
Proof.
  destruct (decrypt_file (L := RefLib.lib) "junk.myarc" "out.txt" None
              SampleKeys.world_with_junk) as [[u|e] w'] eqn:Hd.
  - by vm_compute in Hd.
  - split; [done|]. split; [vm_compute; eauto|].
    rewrite (failed_decrypt_leaves_no_output (L := RefLib.lib) SampleKeys.world_with_junk w'
               "junk.myarc" "out.txt" None e); [apply lookup_delete_eq|vm_compute; eauto|exact Hd].
Defined.

(** A small file sealed under a folder key opens under that folder key,
    byte for byte, and neither step touches the master key: it works with
    the master key spent or cleared. *)
Theorem folder_key_roundtrip `{L : CryptoLib}
    (Hcorrect : Fernet_correct L) (Hkeys : Fernet_keys_ok L) (Hlength : Fernet_key_length L)
    (Hframing : Fernet_framing L)
    (w : world) (file_path output_path : string) (f : file) (folder_key : bytes) :
  disk w !! file_path = Some f ->
  144 + fernet_token_len (Z.of_nat (length (content f))) <= ten_MiB ->
  Fernet_key_ok folder_key = true ->
  exists vault_filename file_id w1 w2,
    encrypt_file file_path (Some folder_key) w = (Ok (vault_filename, file_id), w1) /\
    decrypt_file vault_filename output_path (Some folder_key) w1 = (Ok tt, w2) /\
    content <$> disk w2 !! output_path = Some (content f) /\
    manager w2 = manager w.
Proof.
  intros Hf Hsmall Hk.
  pose proof (RefLibFacts.token_len_lower (Z.of_nat (length (content f)))) as Hlow.
  destruct (key_nonempty Hlength folder_key Hk) as (b & k' & ->).
  set (fk := b :: k') in *.
  set (file_key := Fernet_generate_key (rng w (drawn w))).
  set (sealed := Fernet_encrypt file_key (rng w (S (drawn w))) (content f)).
  set (wrapped := Fernet_encrypt fk (rng w (S (S (drawn w)))) file_key).
  set (file_id := string_of_list_byte (token_bytes 16 (rng w (S (S (S (drawn w))))))).
  set (vf := encrypted_files_path file_id).
  set (stored := {| content := [x00; x00; x00; x8c] ++ wrapped ++ sealed; mtime := clock w |}).
  set (w1 := set_disk (insert vf stored) (set_drawn (S (S (S (S (drawn w))))) w)).
  assert (Hwl : length wrapped = 140%nat)
    by (apply (wrapped_key_length Hkeys Hlength Hframing); done).
  assert (Henc : encrypt_file file_path (Some fk) w = (Ok (vf, file_id), w1)).
  { unfold encrypt_file.
    erewrite bind_ok; [|reflexivity]. rewrite Hf, bool_decide_eq_true_2 by eauto. cbn [negb].
    erewrite bind_ok; [|unfold getsize; erewrite bind_ok; [reflexivity|]; unfold read_file;
                        erewrite bind_ok; [|reflexivity]; rewrite Hf; reflexivity].
    replace (ten_MiB <? Z.of_nat (length (content f))) with false
      by (symmetry; apply Z.ltb_ge; lia).
    erewrite bind_ok; [|reflexivity].
    erewrite bind_ok; [|unfold lift, Fernet; rewrite (proj1 Hkeys); reflexivity].
    erewrite bind_ok; [|unfold read_file; erewrite bind_ok; [|reflexivity];
                        cbn [disk set_drawn]; rewrite Hf; reflexivity].
    erewrite bind_ok; [|reflexivity].
    erewrite bind_ok.
    2:{ unfold encrypt_file_key, fk. erewrite bind_ok; [|reflexivity].
        unfold lift, fernet_encrypt, Fernet. fold fk. rewrite Hk. reflexivity. }
    erewrite bind_ok; [|reflexivity].
    apply try_except_ok. cbn [rng drawn set_drawn set_manager].
    fold file_key. fold wrapped. rewrite Hwl.
    change (Z.of_nat 140) with 140. rewrite to_bytes4_140.
    erewrite bind_ok; [|reflexivity].
    erewrite bind_ok; [|reflexivity]. reflexivity. }
  assert (Hvf : disk w1 !! vf = Some stored) by apply lookup_insert_eq.
  eexists vf, file_id, w1, _. split_and!; [exact Henc| | |].
  - unfold decrypt_file.
    erewrite bind_ok; [|reflexivity]. rewrite Hvf, bool_decide_eq_true_2 by eauto. cbn [negb].
    erewrite bind_ok; [|unfold getsize; erewrite bind_ok; [reflexivity|]; unfold read_file;
                        erewrite bind_ok; [|reflexivity]; rewrite Hvf; reflexivity].
    replace (ten_MiB <? Z.of_nat (length (content stored))) with false.
    2:{ symmetry. apply Z.ltb_ge. cbn [content stored]. rewrite !length_app, Hwl.
        pose proof (Hframing file_key (rng w (S (drawn w))) (content f) (proj1 Hkeys _)).
        fold sealed in H. cbn [length]. lia. }
    apply try_except_ok.
    erewrite bind_ok; [|unfold read_file; erewrite bind_ok; [|reflexivity]; rewrite Hvf; reflexivity].
    cbn [content stored app take drop]. rewrite !take_0, !drop_0. rewrite from_bytes_140.
    change (Z.to_nat 140) with 140%nat.
    rewrite take_app_length', drop_app_length' by done.
    erewrite bind_ok.
    2:{ unfold decrypt_file_key, fk, lift, fernet_decrypt, Fernet, Fernet_decrypt_or_raise.
        fold fk. rewrite Hk. cbn [mbind result_bind]. unfold wrapped.
        rewrite Hcorrect by done. reflexivity. }
    erewrite bind_ok.
    2:{ unfold lift, fernet_decrypt, Fernet, Fernet_decrypt_or_raise.
        unfold file_key at 1 2. rewrite (proj1 Hkeys). cbn [mbind result_bind]. unfold sealed.
        rewrite Hcorrect by apply Hkeys. reflexivity. }
    reflexivity.
  - cbn. by rewrite lookup_insert_eq.
  - done.
Qed.

Lemma folder_key_roundtrip_witness :
  exists vault_filename file_id w1 w2,
    encrypt_file (L := RefLib.lib) "a.txt" (Some SampleKeys.folder_key)
      SampleFiles.world_with_small_files = (Ok (vault_filename, file_id), w1) /\
    decrypt_file (L := RefLib.lib) vault_filename "out.txt" (Some SampleKeys.folder_key) w1
      = (Ok tt, w2) /\
    content <$> disk w2 !! "out.txt"%string = Some (encode "hello").
Proof.
  destruct (folder_key_roundtrip (L := RefLib.lib) RefLibFacts.Fernet_correct_ref
              RefLibFacts.Fernet_keys_ok_ref RefLibFacts.Fernet_key_length_ref
              RefLibFacts.Fernet_framing_ref SampleFiles.world_with_small_files
              "a.txt" "out.txt" {| content := encode "hello"; mtime := 5 |}
              SampleKeys.folder_key)
    as (vf & file_id & w1 & w2 & Henc & Hdec & Hout & _); [by vm_compute..|].
  by exists vf, file_id, w1, w2.
Defined.

(** ** [SecureString] *)

(** The life of a [SecureString]: what was stored comes back unchanged
    (NUL bytes and the empty string included) until the first
    [secure_clear]; clearing leaves only zero bytes in the buffer, after
    which [retrieve] raises, the length is 0 and the object is falsy, and
    clearing again does nothing. *)
Theorem secure_string_lifecycle (data r1 r2 r3 : bytes) :
  SecureString.retrieve (SecureString.init data) = Ok data /\
  SecureString.len (SecureString.init data) = length data /\
  SecureString.bool (SecureString.init data) = negb (bool_decide (data = [])) /\
  let '(buffer, cleared) := SecureString.secure_clear r1 r2 r3 (SecureString.init data) in
  buffer = replicate (S (length data)) x00 /\
  (exists message, SecureString.retrieve cleared = Raise (ValueError message)) /\
  SecureString.len cleared = 0%nat /\
  SecureString.bool cleared = false /\
  forall r1' r2' r3', SecureString.secure_clear r1' r2' r3' cleared = ([], cleared).
Proof.
  split_and!.
  - unfold SecureString.retrieve, SecureString.init. cbn.
    by rewrite take_app_length.
  - done.
  - unfold SecureString.bool, SecureString.init. cbn. by destruct data.
  - unfold SecureString.secure_clear, SecureString.init.
    cbn [SecureString._data_buffer SecureString._length].
    set (n := length data). split_and!.
    + unfold SecureString.overwrite at 1. rewrite take_ge by (rewrite length_replicate; lia).
      rewrite !overwrite_tail by apply token_bytes_length.
      rewrite drop_app_length' by done.
      change [x00] with (replicate 1 x00). rewrite <- replicate_add.
      f_equal. lia.
    + by eexists.
    + done.
    + done.
    + done.
Qed.


(** * More of the vault *)

(** ** Validation of the tree *)

(** After [_validate_filesystem_integrity] every file names an existing
    folder, the root, or no folder, and every child listed in a folder is a
    file or a folder of the tree; no file or folder is added or dropped, and
    validating again changes nothing. *)
Theorem validation_closes_references (w : world) (t : tree) :
  filesystem w = Doc_tree t ->
  exists t',
    _validate_filesystem_integrity w = (Ok tt, set_filesystem (Doc_tree t') w) /\
    (forall i, is_Some (default ∅ (files t') !! i) <-> is_Some (default ∅ (files t) !! i)) /\
    (forall i, is_Some (default ∅ (folders t') !! i) <-> is_Some (default ∅ (folders t) !! i)) /\
    (forall i fd, default ∅ (files t') !! i = Some fd ->
       folder_id fd = ""%string \/ folder_id fd = "root"%string \/
       is_Some (default ∅ (folders t') !! folder_id fd)) /\
    (forall i dd child, default ∅ (folders t') !! i = Some dd -> child ∈ children dd ->
       is_Some (default ∅ (files t') !! child) \/ is_Some (default ∅ (folders t') !! child)) /\
    _validate_filesystem_integrity (set_filesystem (Doc_tree t') w)
      = (Ok tt, set_filesystem (Doc_tree t') w).
Proof.
  intros Hfs. exists (validate_tree t). split_and!.
  - unfold _validate_filesystem_integrity. erewrite bind_ok; [|reflexivity]. by rewrite Hfs.
  - apply validate_tree_file_keys.
  - apply validate_tree_folder_keys.
  - intros i fd. rewrite validate_tree_files. cbn [from_option id]. rewrite lookup_fmap.
    intros (fd0 & Hfd0 & ->)%fmap_Some.
    destruct (String.eqb_spec (folder_id fd0) "") as [He|Hne]; cbn [negb andb]; [by left|].
    case_bool_decide as Hd; cbn [folder_id]; [by right; left|].
    right; right. apply validate_tree_folder_keys.
    by destruct (default ∅ (folders t) !! folder_id fd0); eauto.
  - intros i dd child. unfold validate_tree at 1. cbn [folders from_option id].
    rewrite lookup_fmap.
    intros (dd0 & Hdd0 & ->)%fmap_Some. cbn [children].
    intros [_ Hc]%list_elem_of_In%filter_In. apply orb_true_iff in Hc as [Hc|Hc].
    + left. apply bool_decide_eq_true in Hc. rewrite validate_tree_files. exact Hc.
    + right. apply bool_decide_eq_true in Hc. by apply validate_tree_folder_keys.
  - unfold _validate_filesystem_integrity. erewrite bind_ok; [|reflexivity].
    cbn [filesystem set_filesystem]. unfold modify. by rewrite validate_tree_idempotent.
Qed.

(** The file of the lost folder moves to the root, and the root forgets
    the child that does not exist. *)
Lemma validation_closes_references_witness :
  exists t',
    _validate_filesystem_integrity SampleTree.world
      = (Ok tt, set_filesystem (Doc_tree t') SampleTree.world) /\
    folder_id <$> default ∅ (files t') !! "f1"%string = Some "root"%string /\
    children <$> default ∅ (folders t') !! "root"%string = Some ["f1"%string].
Proof.
  destruct (validation_closes_references SampleTree.world SampleTree.broken eq_refl)
    as (t' & Hv & _).
  exists t'. split; [exact Hv|].
  assert (Hc : _validate_filesystem_integrity SampleTree.world
               = (Ok tt, set_filesystem (Doc_tree (validate_tree SampleTree.broken))
                           SampleTree.world)) by reflexivity.
  rewrite Hc in Hv. injection Hv as <-. split; by vm_compute.
Defined.

(** ** Backups of the tree file *)

(** A backup round never fails, leaves at most ten backups of the tree file
    in the backup folder, and touches no file other than those backups. *)
Theorem backup_round_keeps_at_most_ten `{L : CryptoLib} `{J : JsonLib} (w : world) :
  exists w',
    _create_filesystem_backup w = (Ok tt, w') /\
    (length (backup_listing (disk w')) <= 10)%nat /\
    (forall p, ~ is_backup_path p -> disk w' !! p = disk w !! p) /\
    filesystem w' = filesystem w.
Proof.
  unfold _create_filesystem_backup.
  destruct (disk w !! filesystem_path) as [fl|] eqn:E.
  - eexists. split_and!.
    + apply try_except_ok. erewrite bind_ok; [|reflexivity].
      erewrite bind_ok; [|reflexivity]. rewrite E, bool_decide_eq_true_2 by eauto.
      erewrite bind_ok; [|unfold when_, copy2; erewrite bind_ok; [|reflexivity];
                          rewrite E; reflexivity].
      erewrite bind_ok; [|apply filesystem_backups_spec]. reflexivity.
    + cbn [disk set_disk]. apply pruned_listing.
    + intros p Hp. cbn [disk set_disk].
      rewrite disk_after_pruning; [|intros x [Hx _]%backup_listing_paths; exact Hx|done].
      apply lookup_insert_ne. intros <-. apply Hp, backup_path_is_backup.
    + done.
  - eexists. split_and!.
    + apply try_except_ok. erewrite bind_ok; [|reflexivity].
      erewrite bind_ok; [|reflexivity]. rewrite E, bool_decide_eq_false_2 by (by intros [? ?]).
      erewrite bind_ok; [|reflexivity].
      erewrite bind_ok; [|apply filesystem_backups_spec]. reflexivity.
    + cbn [disk set_disk]. apply pruned_listing.
    + intros p Hp. cbn [disk set_disk].
      rewrite disk_after_pruning; [done|intros x [Hx _]%backup_listing_paths; exact Hx|done].
    + done.
Qed.

(** A saved tree survives closing and reopening the vault: when the
    backups already in the folder are older than the save, a vault reopened
    on the saved disk under the same master key holds the saved tree,
    whenever it is reopened and whatever entropy it draws. *)
Theorem saved_tree_survives_reopening `{L : CryptoLib} `{J : JsonLib}
    (Hcorrect : Fernet_correct L) (Hlength : Fernet_key_length L)
    (Hframing : Fernet_framing L) (Hjson : json_roundtrip J)
    (w : world) (mk : bytes) (uses : nat) :
  key_loaded w mk uses -> Fernet_key_ok mk = true ->
  (S uses <= _max_usage_before_rekey)%nat ->
  Forall (fun backup => (backup.1 < clock w)%Q) (backup_listing (disk w)) ->
  exists w',
    _save_filesystem w = (Ok tt, w') /\
    forall (now : Q) (entropy : nat -> bytes), exists w'',
      open_vault mk (disk w') now entropy = (Ok tt, w'') /\
      filesystem w'' = filesystem w.
Proof.
  intros Hl Hk Hu Hold.
  destruct (save_filesystem_disk Hlength w mk uses Hl Hk Hu) as (w' & Hsave & _ & Hdisk).
  set (tf := sealed_record mk w) in *.
  set (bp := backup_path_at (clock w)) in *.
  set (d1 := <[bp := tf]> (<[filesystem_path := tf]> (disk w))) in *.
  set (new := (clock w, bp) : Q * string).
  destruct (backup_path_at_prefix (clock w)) as (bname & Hbname & Hbp). fold bp in Hbp.
  assert (Hnew1 : new ∈ backup_listing d1).
  { apply backup_listing_elem. exists bname, tf. rewrite <- Hbp. split_and!; [done| |done].
    apply lookup_insert_eq. }
  assert (Hmax1 : forall y, y ∈ backup_listing d1 -> y <> new -> (y.1 < clock w)%Q).
  { intros y (name & fl & Hp & Hd & ->)%backup_listing_elem Hne.
    destruct (decide (path_join backups_dir name = bp)) as [Heq|Hneq].
    - exfalso. apply Hne. unfold d1 in Hd. rewrite Heq, lookup_insert_eq in Hd.
      injection Hd as <-. by rewrite Heq.
    - unfold d1 in Hd. rewrite lookup_insert_ne in Hd by done.
      rewrite lookup_insert_ne in Hd.
      2:{ intros Hfs. apply (tree_file_is_no_backup). exists name. by rewrite Hfs. }
      rewrite Forall_forall in Hold. apply (Hold (mtime fl, path_join backups_dir name)).
      apply backup_listing_elem. eauto. }
  destruct (sort_reverse_head (backup_listing d1) new Hnew1 Hmax1) as (rest1 & Hsort1).
  destruct (pruned_listing d1) as [_ Hkept]. rewrite <- Hdisk in Hkept.
  assert (Hnew' : new ∈ backup_listing (disk w')).
  { apply Hkept. rewrite Hsort1. cbn. apply list_elem_of_here. }
  assert (Hsub : forall y, y ∈ backup_listing (disk w') -> y ∈ backup_listing d1).
  { intros y (name & fl & Hp & Hd & ->)%backup_listing_elem.
    apply backup_listing_elem. exists name, fl. split_and!; [done| |done].
    rewrite Hdisk in Hd. by apply lookup_foldr_delete_Some in Hd. }
  assert (Htf : disk w' !! filesystem_path = Some tf).
  { rewrite Hdisk. rewrite disk_after_pruning;
      [|intros x [Hx _]%backup_listing_paths; exact Hx|apply tree_file_is_no_backup].
    unfold d1. rewrite lookup_insert_ne; [apply lookup_insert_eq|].
    intros Heq. apply tree_file_is_no_backup. exists bname. by rewrite <- Hbp. }
  assert (Hbf : disk w' !! bp = Some tf).
  { apply backup_listing_elem in Hnew' as (name & fl & Hp & Hd & Heq).
    assert (Hpath : bp = path_join backups_dir name) by exact (f_equal snd Heq).
    rewrite <- Hpath in Hd. rewrite Hd. f_equal.
    rewrite Hdisk in Hd. apply lookup_foldr_delete_Some in Hd.
    unfold d1 in Hd. rewrite lookup_insert_eq in Hd. by injection Hd. }
  exists w'. split; [exact Hsave|]. intros now entropy. unfold open_vault.
  set (w0 := {| disk := disk w'; clock := now; rng := entropy; drawn := 0;
                manager := new_manager mk; unlocked_folders := ∅;
                filesystem := Doc_tree empty_tree |}).
  assert (Hu2 : (2 <= _max_usage_before_rekey)%nat) by (unfold _max_usage_before_rekey; lia).
  destruct (load_filesystem_nonempty Hlength mk Hk w0 0 tf eq_refl Hu2 Htf
              (sealed_record_nonempty Hframing mk w Hk)) as (w'' & Hload & _ & Hfs).
  exists w''. split; [exact Hload|]. rewrite Hfs. cbn [clock disk w0].
  set (q := quarantine_path now).
  set (dq := <[q := tf]> (disk w')).
  assert (Hq : forall name, q <> path_join backups_dir name \/
                            String.prefix "filesystem_backup_" name = false).
  { intros name. destruct (String.prefix "filesystem_backup_" name) eqn:Hp; [left|by right].
    intros Heq. apply (quarantine_untouched now). right. exists name. by rewrite <- Heq. }
  assert (Hnewq : new ∈ backup_listing dq).
  { apply backup_listing_elem. exists bname, tf. rewrite <- Hbp. split_and!; [done| |done].
    unfold dq. rewrite lookup_insert_ne; [done|].
    rewrite Hbp. destruct (Hq bname); [done|congruence]. }
  assert (Hmaxq : forall y, y ∈ backup_listing dq -> y <> new -> (y.1 < new.1)%Q).
  { intros y Hy Hne. apply Hmax1; [|done]. apply Hsub.
    apply backup_listing_elem in Hy as (name & fl & Hp & Hd & ->).
    apply backup_listing_elem. exists name, fl. split_and!; [done| |done].
    unfold dq in Hd. rewrite lookup_insert_ne in Hd; [done|].
    destruct (Hq name); [done|congruence]. }
  destruct (sort_reverse_head (backup_listing dq) new Hnewq Hmaxq) as (restq & Hsortq).
  unfold recovered_tree. rewrite Hsortq. cbn [snd new].
  assert (Hdq : dq !! bp = Some tf).
  { unfold dq. rewrite lookup_insert_ne; [done|].
    rewrite Hbp. destruct (Hq bname); [done|congruence]. }
  rewrite Hdq. unfold tf. by rewrite (sealed_record_opens Hcorrect Hjson mk w Hk).
Qed.

(** The sample vault, saved again at time 1500 next to its backup of time
    1000 and reopened at time 2000. *)
Lemma saved_tree_survives_reopening_witness :
  exists w',
    _save_filesystem (L := RefLib.lib) (J := RefLib.json)
      (SampleReload.at_time 1500 SampleVault.opened) = (Ok tt, w') /\
    exists w'',
      open_vault (L := RefLib.lib) (J := RefLib.json) SampleVault.master_key (disk w') 2000
        SampleVault.entropy = (Ok tt, w'') /\
      filesystem w'' = filesystem SampleVault.opened.
Proof.
  destruct (saved_tree_survives_reopening (L := RefLib.lib) (J := RefLib.json)
              RefLibFacts.Fernet_correct_ref RefLibFacts.Fernet_key_length_ref
              RefLibFacts.Fernet_framing_ref RefJsonFacts.json_roundtrip_ref
              (SampleReload.at_time 1500 SampleVault.opened) SampleVault.master_key 1)
    as (w' & Hsave & Hopen).
  - by vm_compute.
  - by vm_compute.
  - unfold _max_usage_before_rekey. lia.
  - vm_compute. repeat constructor.
  - exists w'. split; [exact Hsave|]. apply (Hopen 2000%Q SampleVault.entropy).
Defined.

(** ** Adding files *)

(** Whatever [_transactional_add_file] returns, on disk it has changed at
    most the files below [data/encrypted_files/]: the tree file and its
    backups are as before.  When it raises the tree in memory is unchanged;
    when it returns, the tree in memory has one more entry, for the returned
    identifier. *)
Theorem add_file_changes_the_tree_in_memory_only `{L : CryptoLib} `{J : JsonLib}
    (file_path folder : string) (w w' : world) (r : result string) :
  _transactional_add_file file_path folder w = (r, w') ->
  (forall p, in_vault_storage p = false -> disk w' !! p = disk w !! p) /\
  match r with
  | Raise _ => filesystem w' = filesystem w
  | Ok file_id =>
      exists t fd,
        filesystem w = Doc_tree t /\ filesystem w' = Doc_tree (add_file_node fd t) /\
        node_id fd = file_id /\ folder_id fd = folder /\
        original_name fd = basename file_path /\
        vault_filename fd = encrypted_files_path file_id
  end.
Proof. apply add_file_spec. Qed.


Lemma add_file_changes_the_tree_in_memory_only_witness :
  exists file_id w',
    _transactional_add_file (L := RefLib.lib) (J := RefLib.json)
      "a.txt" "root" SampleVault.before_commit = (Ok file_id, w') /\
    disk w' !! filesystem_path = disk SampleVault.before_commit !! filesystem_path.
Proof.
  destruct (_transactional_add_file (L := RefLib.lib) (J := RefLib.json)
              "a.txt" "root" SampleVault.before_commit) as [[file_id|e] w'] eqn:Ha.
  - exists file_id, w'. split; [reflexivity|].
    by apply (add_file_changes_the_tree_in_memory_only (L := RefLib.lib) (J := RefLib.json)
                "a.txt" "root" SampleVault.before_commit w' (Ok file_id) Ha).
  - vm_compute in Ha. discriminate Ha.
Defined.

(** A small file added to the root folder: the tree in memory records its
    size and SHA-256, and the ciphertext written for it opens, under the
    master key, to the bytes of the file. *)
Theorem added_file_opens `{L : CryptoLib} `{J : JsonLib}
    (Hcorrect : Fernet_correct L) (Hkeys : Fernet_keys_ok L) (Hlength : Fernet_key_length L)
    (Hframing : Fernet_framing L)
    (w : world) (t : tree) (file_path : string) (f : file) (mk : bytes) (uses : nat) :
  filesystem w = Doc_tree t ->
  disk w !! file_path = Some f ->
  in_vault_storage file_path = false ->
  144 + fernet_token_len (Z.of_nat (length (content f))) <= ten_MiB ->
  key_loaded w mk uses -> Fernet_key_ok mk = true ->
  (uses + 2 <= _max_usage_before_rekey)%nat ->
  exists file_id fd w1,
    _transactional_add_file file_path "root" w = (Ok file_id, w1) /\
    filesystem w1 = Doc_tree (add_file_node fd t) /\
    node_id fd = file_id /\
    file_size fd = Z.of_nat (length (content f)) /\
    hash fd = Some (sha256 (content f)) /\
    forall output_path, exists w2,
      decrypt_file (vault_filename fd) output_path None w1 = (Ok tt, w2) /\
      content <$> disk w2 !! output_path = Some (content f).
Proof.
  intros Hfs Hf Hout Hsmall Hl Hk Hu.
  pose proof (RefLibFacts.token_len_lower (Z.of_nat (length (content f)))) as Hlow.
  assert (Hu1 : (S uses <= _max_usage_before_rekey)%nat) by lia.
  assert (Hu2 : (S (S uses) <= _max_usage_before_rekey)%nat) by lia.
  assert (Hplain : Z.of_nat (length (content f)) <= ten_MiB) by lia.
  destruct (encrypt_file_single_shot Hkeys Hlength Hframing w file_path f mk uses
              Hf Hplain Hl Hk Hu1) as (w1 & Henc & Hdisk & Hl1 & Hfs1 & Hc1).
  set (file_id := string_of_list_byte (token_bytes 16 (rng w (S (S (S (drawn w))))))) in *.
  set (vf := encrypted_files_path file_id) in *.
  set (sealed := {| content := _; mtime := _ |}) in Hdisk.
  assert (Hfp : disk w1 !! file_path = Some f).
  { rewrite Hdisk. rewrite lookup_insert_ne; [done|].
    intros Heq. rewrite <- Heq in Hout. unfold vf in Hout. by rewrite storage_path in Hout. }
  eexists file_id, _, _. split_and!.
  - unfold _transactional_add_file.
    erewrite bind_ok; [|reflexivity].
    change (("root" =? "root")%string) with true. cbn [negb andb].
    erewrite bind_ok; [|reflexivity]. rewrite Hf, bool_decide_eq_true_2 by eauto. cbn [negb].
    erewrite bind_ok; [|reflexivity].
    erewrite bind_ok; [|unfold getsize; erewrite bind_ok; [reflexivity|]; unfold read_file;
                        erewrite bind_ok; [|reflexivity]; rewrite Hf; reflexivity].
    replace (ten_MiB <? Z.of_nat (length (content f))) with false
      by (symmetry; apply Z.ltb_ge; lia).
    erewrite bind_ok; [|exact Henc].
    apply try_except_ok.
    erewrite bind_ok; [|reflexivity].
    erewrite bind_ok; [|unfold calculate_file_hash; erewrite bind_ok; [|reflexivity];
                        rewrite Hfp; reflexivity].
    rewrite Hfs1, Hfs. erewrite bind_ok; [|reflexivity]. reflexivity.
  - reflexivity.
  - reflexivity.
  - reflexivity.
  - reflexivity.
  - intros output_path. cbn [vault_filename].
    set (w1' := set_filesystem _ w1).
    assert (Hvf : disk w1' !! vf = Some sealed) by (cbn; rewrite Hdisk; apply lookup_insert_eq).
    destruct (decrypt_file_single_shot Hcorrect Hkeys Hlength Hframing w1' vf output_path
                sealed mk (S uses) _ _ _ _ Hvf eq_refl) as (w2 & Hdec & Hd2 & _).
    + cbn [content sealed]. rewrite !length_app. cbn [length].
      rewrite (wrapped_key_length Hkeys Hlength Hframing) by done.
      pose proof (Hframing (Fernet_generate_key (rng w (drawn w))) (rng w (S (drawn w)))
                    (content f) (proj1 Hkeys _)).
      lia.
    + exact Hl1.
    + done.
    + done.
    + exists w2. split; [exact Hdec|]. by rewrite Hd2, lookup_insert_eq.
Qed.

Lemma added_file_opens_witness :
  exists file_id fd w1 w2,
    _transactional_add_file (L := RefLib.lib) (J := RefLib.json)
      "a.txt" "root" SampleVault.before_commit = (Ok file_id, w1) /\
    file_size fd = 5 /\
    decrypt_file (L := RefLib.lib) (vault_filename fd) "out.txt" None w1 = (Ok tt, w2) /\
    content <$> disk w2 !! "out.txt"%string = Some (encode "hello").
Proof.
  destruct (added_file_opens (L := RefLib.lib) (J := RefLib.json)
              RefLibFacts.Fernet_correct_ref RefLibFacts.Fernet_keys_ok_ref
              RefLibFacts.Fernet_key_length_ref RefLibFacts.Fernet_framing_ref
              SampleVault.before_commit (default_tree (isoformat 1000)) "a.txt"
              {| content := encode "hello"; mtime := 5 |} SampleVault.master_key 1)
    as (file_id & fd & w1 & Hadd & _ & _ & Hsize & _ & Hopen).
  - by vm_compute.
  - by vm_compute.
  - by vm_compute.
  - by vm_compute.
  - by vm_compute.
  - by vm_compute.
  - unfold _max_usage_before_rekey. lia.
  - destruct (Hopen "out.txt"%string) as (w2 & Hdec & Hout).
    exists file_id, fd, w1, w2. split_and!; [exact Hadd|exact Hsize|exact Hdec|exact Hout].
Defined.

(** ** Locked folders *)

(** Locking a folder closes it: with any folder other than the root
    locked, adding a file to it and extracting a file stored in it both
    raise [PermissionError] and change nothing. *)
Theorem locked_folder_refuses_add_and_extract `{L : CryptoLib} `{J : JsonLib}
    (w : world) (folder : string) :
  folder <> "root"%string ->
  exists w1,
    lock_folder folder w = (Ok tt, w1) /\
    disk w1 = disk w /\ filesystem w1 = filesystem w /\
    (forall file_path, exists message,
        _transactional_add_file file_path folder w1 = (Raise (PermissionError message), w1)) /\
    (forall file_id output_dir t fd,
        filesystem w = Doc_tree t -> default ∅ (files t) !! file_id = Some fd ->
        folder_id fd = folder ->
        exists message,
          _transactional_extract_file file_id output_dir w1
            = (Raise (PermissionError message), w1)).
Proof.
  intros Hne. eexists. split; [reflexivity|].
  set (w1 := {| disk := disk w |}).
  assert (Hlocked : unlocked_folders w1 !! folder = None) by apply lookup_delete_eq.
  assert (Hnr : String.eqb folder "root" = false) by by apply String.eqb_neq.
  split_and!; [done|done| |].
  - intros file_path. eexists. unfold _transactional_add_file.
    erewrite bind_ok; [|reflexivity]. rewrite Hlocked, Hnr.
    rewrite bool_decide_eq_false_2 by (by intros [? ?]). reflexivity.
  - intros file_id output_dir t fd Hfs Hfd Hfolder. eexists.
    unfold _transactional_extract_file.
    erewrite bind_ok; [|unfold lookup_file; erewrite bind_ok; [|reflexivity]; reflexivity].
    cbn [filesystem w1]. rewrite Hfs, Hfd.
    erewrite bind_ok; [|reflexivity]. rewrite Hfolder, Hlocked, Hnr.
    rewrite bool_decide_eq_false_2 by (by intros [? ?]). reflexivity.
Qed.


Lemma locked_folder_refuses_add_and_extract_witness :
  exists w1 message,
    lock_folder "f1" SampleVault.before_commit = (Ok tt, w1) /\
    _transactional_add_file (L := RefLib.lib) (J := RefLib.json) "a.txt" "f1" w1
      = (Raise (PermissionError message), w1).
Proof.
  destruct (locked_folder_refuses_add_and_extract (L := RefLib.lib) (J := RefLib.json)
              SampleVault.before_commit "f1") as (w1 & Hlock & _ & _ & Hadd & _);
    [discriminate|].
  destruct (Hadd "a.txt"%string) as (message & Hm). by exists w1, message.
Defined.

(** ** Transactions *)

(** A transaction is run at most once, whatever its outcome: after a call
    to [commit] the same transaction refuses to commit again and to stage
    anything more. *)
Theorem transaction_runs_at_most_once `{L : CryptoLib} `{J : JsonLib} (tx : VaultTransaction) (w : world) :
  let '(_, tx', _) := commit tx w in
  (exists message, forall w2, commit tx' w2 = (Raise (RuntimeError message), tx', w2)) /\
  (exists message, forall op_id file_path folder_id,
      stage_add_file tx' op_id file_path folder_id = Raise (RuntimeError message)) /\
  (exists message, forall op_id file_id,
      stage_delete_file tx' op_id file_id = Raise (RuntimeError message)).
Proof.
  destruct (commit tx w) as [[r tx'] w'] eqn:Hc.
  assert (Hs : _state tx' <> initialized).
  { unfold commit in Hc. destruct (_state tx) eqn:Hst.
    2-5: injection Hc as <- <- <-; by rewrite Hst.
    destruct (_create_backup _ w) as [[tx2|e] w1] eqn:Hb.
    - apply run_operations_spec in Hc. destruct r as [res|e].
      + by destruct Hc as (-> & _).
      + by rewrite Hc.
    - by injection Hc as <- <- <-. }
  unfold commit, stage_add_file, stage_delete_file.
  destruct (_state tx'); [done|..]; split_and!; eexists; reflexivity.
Qed.

(** A transaction that stages a folder creation or a file deletion never
    commits: [commit] raises on it in every state of the vault, and a fresh
    transaction ends up failed. *)
Theorem unsupported_operations_never_commit `{L : CryptoLib} `{J : JsonLib} (tx : VaultTransaction) (w : world) :
  Exists (fun op => unsupported op = true) (operations tx) ->
  exists e tx' w',
    commit tx w = (Raise e, tx', w') /\
    (_state tx = initialized -> _state tx' = failed).
Proof.
  intros Hex. destruct (commit tx w) as [[r tx'] w'] eqn:Hc.
  unfold commit in Hc. destruct (_state tx) eqn:Hst.
  2-5: injection Hc as <- <- <-; by eexists _, _, _.
  destruct (_create_backup _ w) as [[tx2|e] w1] eqn:Hb.
  - apply create_backup_spec in Hb as (_ & name & blob & -> & _).
    apply run_operations_spec in Hc. cbn [operations set_state] in Hc.
    destruct r as [res|e].
    + destruct Hc as (_ & Hall & _). exfalso.
      apply Exists_exists in Hex as (op & Hin & Hop).
      rewrite Forall_forall in Hall. rewrite (Hall op Hin) in Hop. done.
    + by eexists _, _, _.
  - injection Hc as <- <- <-. by eexists _, _, _.
Qed.


Lemma unsupported_operations_never_commit_witness :
  exists e tx' w',
    commit (L := RefLib.lib) (J := RefLib.json) SampleTx.with_delete SampleVault.before_commit
      = (Raise e, tx', w') /\
    _state tx' = failed.
Proof.
  destruct (unsupported_operations_never_commit (L := RefLib.lib) (J := RefLib.json)
              SampleTx.with_delete SampleVault.before_commit)
    as (e & tx' & w' & Hc & Hs); [by constructor|].
  exists e, tx', w'. split; [exact Hc|]. by apply Hs.
Defined.

(** A successful commit writes the new ciphertexts and one sealed copy of
    the tree, its transaction backup, which it leaves in the backup folder;
    every other file, the tree file included, is as before. *)
Theorem successful_commit_leaves_its_backup `{L : CryptoLib} `{J : JsonLib} (tx tx' : VaultTransaction) (w w' : world)
    (results : list (string * string)) :
  commit tx w = (Ok results, tx', w') ->
  _state tx' = committed /\
  map fst results = map op_id_of (operations tx) /\
  exists name,
    String.prefix "transaction_backup_" name = true /\
    _backup_files tx' = _backup_files tx ++ [path_join backups_dir name] /\
    is_Some (disk w' !! path_join backups_dir name) /\
    (forall p, in_vault_storage p = false -> p <> path_join backups_dir name ->
       disk w' !! p = disk w !! p).
Proof.
  intros Hc. unfold commit in Hc. destruct (_state tx) eqn:Hst; [|done..].
  destruct (_create_backup _ w) as [[tx2|e] w1] eqn:Hb; [|done].
  apply create_backup_spec in Hb as (_ & name & blob & -> & Hname & Hd1).
  apply run_operations_spec in Hc as (-> & _ & Hres & Hframe).
  cbn [operations set_state _state _backup_files] in *.
  split_and!; [done|done|].
  exists name. split_and!; [done|done| |].
  - rewrite Hframe by apply backup_outside_storage. rewrite Hd1, lookup_insert_eq. eauto.
  - intros p Hp Hne. rewrite Hframe, Hd1 by done. by apply lookup_insert_ne.
Qed.


Lemma successful_commit_leaves_its_backup_witness :
  exists res tx' w' backup,
    commit (L := RefLib.lib) (J := RefLib.json) SampleTx.with_add SampleVault.before_commit
      = (Ok res, tx', w') /\
    _state tx' = committed /\
    _backup_files tx' = [backup] /\ is_Some (disk w' !! backup).
Proof.
  destruct (commit (L := RefLib.lib) (J := RefLib.json) SampleTx.with_add
              SampleVault.before_commit) as [[[res|e] tx'] w'] eqn:Hc.
  - destruct (successful_commit_leaves_its_backup (L := RefLib.lib) (J := RefLib.json)
                SampleTx.with_add tx' SampleVault.before_commit w' res Hc)
      as (Hs & _ & name & _ & Hb & Hd & _).
    exists res, tx', w', (path_join backups_dir name).
    split_and!; [reflexivity|exact Hs|exact Hb|exact Hd].
  - vm_compute in Hc. discriminate Hc.
Defined.

(** * Folder security *)

(** [_constant_time_compare] decides equality of byte strings: it accepts
    exactly when the two arguments are the same bytes. *)
Theorem constant_time_compare_decides_equality (a b : bytes) :
  FolderSecurity._constant_time_compare a b = true <-> a = b.
Proof.
  unfold FolderSecurity._constant_time_compare.
  destruct (length a =? length b)%nat eqn:El; cbn [negb].
  - apply Nat.eqb_eq in El. rewrite Z.eqb_eq, fold_lor_zero. split.
    + intros [_ Hall]. revert b El Hall. induction a as [|x a IH]; intros [|y b] El Hall; try done.
      cbn in Hall. apply Forall_cons in Hall as [Hxy Hall]. cbn in Hxy. subst y.
      f_equal. apply IH; [by injection El|done].
    + intros <-. split; [done|]. clear El. induction a as [|x a IH]; cbn; [constructor|].
      by constructor.
  - apply Nat.eqb_neq in El. split; [done|]. by intros <-.
Qed.


(** The delay before an unlock attempt is checked: none below three failed
    attempts in the last 300 seconds, never more than 30 seconds, and at
    most 4 seconds as long as the folder is not locked out. *)
Theorem rate_limit_delay_bounds (failed_attempts : gmap string (list Q))
    (folder_id : string) (now : Q) :
  let recent := FolderSecurity.recent_attempts now (default [] (failed_attempts !! folder_id)) in
  let delay := FolderSecurity._apply_rate_limiting failed_attempts folder_id now in
  0 <= delay <= 30 /\
  (delay = 0 <-> (length recent < 3)%nat) /\
  ((FolderSecurity._is_folder_locked_out failed_attempts folder_id now).1 = false -> delay <= 4).
Proof.
  intros recent delay. subst recent delay.
  unfold FolderSecurity._apply_rate_limiting, FolderSecurity._is_folder_locked_out, FolderSecurity.base_delay, FolderSecurity.max_attempts.
  destruct (failed_attempts !! folder_id) as [attempts|]; cbn [default from_option id fst].
  2:{ cbn. split_and!; [lia|lia|split; [lia|done]|lia]. }
  set (n := length (FolderSecurity.recent_attempts now attempts)).
  destruct (3 <=? n)%nat eqn:E; [apply Nat.leb_le in E|apply Nat.leb_gt in E].
  - assert (Hp : 1 <= 2 ^ (Z.of_nat n - 3)) by (apply (Z.pow_le_mono_r 2 0); lia).
    split_and!; [lia|lia|split; lia|].
    intros Hl. apply bool_decide_eq_false in Hl.
    assert (Hn : Z.of_nat n - 3 = 0 \/ Z.of_nat n - 3 = 1) by lia.
    destruct Hn as [-> | ->]; cbn; lia.
  - split_and!; [lia|lia|split; [lia|done]|lia].
Qed.
